(** * basic-client-expo: the token lifecycle, the storage adapter and the
      schema check of the Expo client, embedded in Rocq.

    Source files embedded here:
    - [src/index.tsx]: [storageAdapter], [decodeJWT], [isTokenExpired],
      [fetchToken], [signout], [refreshAccessToken], [storeTokens],
      [handleLoginCode], [login], the web OAuth callback effect;
    - the [db.ts] revision that carries [createSchema].

    JavaScript strings are sequences of UTF-16 code units, modelled as
    [list N].  Host functions whose definition lies outside the repository
    ([JSON.parse], [JSON.stringify], [decodeURIComponent], the coercion
    [ToNumber]) are fields of the class [Host]; [btoa] and [atob] are
    written out after the WHATWG "forgiving-base64" algorithms because the
    storage adapter's behaviour depends on what they compute. *)

From Stdlib Require Import ZArith NArith Lia Bool List String Ascii.
From Stdlib Require Import DecimalString HexadecimalString.
From stdpp Require Import base option list gmap.

Abbreviation jsstring := (list N).

(** A string literal of the source, as code units. *)
Definition js (s : string) : jsstring :=
  map N_of_ascii (list_ascii_of_string s).
Arguments js : simpl never.

(* ===================================================================== *)
(** ** btoa / atob *)
(* ===================================================================== *)

Module Base64.
Local Open Scope N_scope.

(** The base64 alphabet: sextet to code unit. *)
Definition b64_char (n : N) : N :=
  if n <? 26 then 65 + n
  else if n <? 52 then 97 + (n - 26)
  else if n <? 62 then 48 + (n - 52)
  else if n =? 62 then 43
  else 47.

(** Code unit to sextet; [None] outside the alphabet. *)
Definition b64_value (c : N) : option N :=
  if (65 <=? c) && (c <=? 90) then Some (c - 65)
  else if (97 <=? c) && (c <=? 122) then Some (c - 97 + 26)
  else if (48 <=? c) && (c <=? 57) then Some (c - 48 + 52)
  else if c =? 43 then Some 62
  else if c =? 47 then Some 63
  else None.

Definition pad : N := 61.

(** Forgiving-base64 encode: three bytes give four characters, the tail
    is padded with [=]. *)
Fixpoint encode (bytes : list N) : list N :=
  match bytes with
  | [] => []
  | [a] => [b64_char (a / 4); b64_char ((a mod 4) * 16); pad; pad]
  | [a; b] =>
      [b64_char (a / 4); b64_char ((a mod 4) * 16 + b / 16);
       b64_char ((b mod 16) * 4); pad]
  | a :: b :: c :: rest =>
      b64_char (a / 4) :: b64_char ((a mod 4) * 16 + b / 16)
      :: b64_char ((b mod 16) * 4 + c / 64) :: b64_char (c mod 64)
      :: encode rest
  end.

(** [btoa(s)]: throws InvalidCharacterError ([None]) when a code unit of
    [s] is above U+00FF. *)
Definition btoa (s : jsstring) : option jsstring :=
  if forallb (fun c => c <=? 255) s then Some (encode s) else None.

Definition is_ascii_ws (c : N) : bool :=
  (c =? 9) || (c =? 10) || (c =? 12) || (c =? 13) || (c =? 32).

Definition strip_ws (d : list N) : list N :=
  List.filter (fun c => negb (is_ascii_ws c)) d.

(** Remove one trailing [=], when there is one. *)
Definition chop_pad (d : list N) : list N :=
  match last d with
  | Some c => if c =? pad then removelast d else d
  | None => d
  end.

(** Step 2 of forgiving-base64 decode: when the length is a multiple of
    four, one or two trailing [=] are removed. *)
Definition strip_padding (d : list N) : list N :=
  if N.of_nat (length d) mod 4 =? 0 then chop_pad (chop_pad d) else d.

(** Steps 5-10: the sextets are read four at a time into three bytes; a
    remainder of 12 bits gives one byte, of 18 bits two bytes. *)
Fixpoint decode_sextets (v : list N) : list N :=
  match v with
  | a :: b :: c :: d :: rest =>
      let n := ((a * 64 + b) * 64 + c) * 64 + d in
      n / 65536 :: (n / 256) mod 256 :: n mod 256 :: decode_sextets rest
  | [a; b; c] =>
      let n := (a * 64 + b) * 64 + c in
      [n / 1024; (n / 4) mod 256]
  | [a; b] => [(a * 64 + b) / 16]
  | _ => []
  end.

(** [atob(s)]: throws InvalidCharacterError ([None]) when forgiving-base64
    decode fails. *)
Definition atob (s : jsstring) : option jsstring :=
  let d := strip_padding (strip_ws s) in
  if N.of_nat (length d) mod 4 =? 1 then None
  else
    match mapM b64_value d with
    | Some sextets => Some (decode_sextets sextets)
    | None => None
    end.

(** The sextets [encode] spells, before padding; used to state what
    decoding recovers. *)
Fixpoint sextets (bytes : list N) : list N :=
  match bytes with
  | [] => []
  | [a] => [a / 4; (a mod 4) * 16]
  | [a; b] => [a / 4; (a mod 4) * 16 + b / 16; (b mod 16) * 4]
  | a :: b :: c :: rest =>
      a / 4 :: (a mod 4) * 16 + b / 16 :: (b mod 16) * 4 + c / 64
      :: c mod 64 :: sextets rest
  end.

(** The padding [encode] appends. *)
Fixpoint padding (bytes : list N) : list N :=
  match bytes with
  | [] => []
  | [_] => [pad; pad]
  | [_; _] => [pad]
  | _ :: _ :: _ :: rest => padding rest
  end.

End Base64.

(* ===================================================================== *)
(** ** JavaScript values *)
(* ===================================================================== *)

Module JS.

(** Numbers.  The code computes with [exp * 1000], [x - 5 * 60 * 1000] and
    [>=] on second and millisecond counts; these are modelled on the
    integers, where double arithmetic is exact below 2^53, plus [NaN]
    for a failed coercion. *)
Inductive number : Type :=
| Num (z : Z)
| NaN.

#[warnings="-register-all"]
Inductive value : Type :=
| VUndefined
| VNull
| VBool (b : bool)
| VNum (n : number)
| VStr (s : jsstring)
| VArr (elems : list value)
| VObj (props : list (jsstring * value)).

(** What a [throw] carries.  [Error m] is [new Error(m)]; the others are
    raised by the language or the host. *)
Inductive exn : Type :=
| Error (message : jsstring)
| TypeError (message : jsstring)
| SyntaxError
| URIError
| InvalidCharacterError.

(** Result of an evaluation that may throw. *)
Inductive res (A : Type) : Type :=
| Ok (a : A)
| Thrown (e : exn).
Arguments Ok {A} a.
Arguments Thrown {A} e.

Definition res_bind {A B} (r : res A) (f : A -> res B) : res B :=
  match r with
  | Ok a => f a
  | Thrown e => Thrown e
  end.

#[global] Instance res_ret : MRet res := @Ok.
#[global] Instance res_mbind : MBind res := fun A B f r => res_bind r f.

(** [try { r } catch (e) { h e }] for a synchronous body. *)
Definition res_catch {A} (r : res A) (h : exn -> res A) : res A :=
  match r with
  | Ok a => Ok a
  | Thrown e => h e
  end.

Inductive jstype : Type :=
| TyUndefined | TyObject | TyBoolean | TyNumber | TyString.

(** The [typeof] operator; [typeof null] is ["object"]. *)
Definition typeof (v : value) : jstype :=
  match v with
  | VUndefined => TyUndefined
  | VNull => TyObject
  | VBool _ => TyBoolean
  | VNum _ => TyNumber
  | VStr _ => TyString
  | VArr _ => TyObject
  | VObj _ => TyObject
  end.

Definition jstype_eqb (a b : jstype) : bool :=
  match a, b with
  | TyUndefined, TyUndefined | TyObject, TyObject | TyBoolean, TyBoolean
  | TyNumber, TyNumber | TyString, TyString => true
  | _, _ => false
  end.

(** ToBoolean. *)
Definition truthy (v : value) : bool :=
  match v with
  | VUndefined | VNull => false
  | VBool b => b
  | VNum (Num z) => negb (z =? 0)%Z
  | VNum NaN => false
  | VStr s => match s with [] => false | _ => true end
  | VArr _ | VObj _ => true
  end.

(** Truthiness of a [string | null]. *)
Definition truthy_str (o : option jsstring) : bool :=
  match o with
  | Some (_ :: _) => true
  | _ => false
  end.

(** Decimal spelling of an array index. *)
Definition index_key (i : nat) : jsstring :=
  js (DecimalString.NilZero.string_of_uint (Nat.to_uint i)).

(** Own enumerable properties in enumeration order: those of an object
    literal in the order written, those of an array by index. *)
Definition own_props (v : value) : list (jsstring * value) :=
  match v with
  | VObj props => props
  | VArr elems => zip (map index_key (seq 0 (length elems))) elems
  | _ => []
  end.

(** [Object.keys(v)], which is also the order a [for ... in] visits. *)
Definition keys (v : value) : list jsstring := map fst (own_props v).

Fixpoint assoc (k : jsstring) (props : list (jsstring * value)) : option value :=
  match props with
  | [] => None
  | (k', v) :: rest => if decide (k = k') then Some v else assoc k rest
  end.

(** Property read [v.k] / [v[k]].  Reading from [null] or [undefined]
    throws; a missing property reads as [undefined].  None of the names
    the code reads is inherited from a prototype, so own properties
    decide. *)
Definition get (v : value) (k : jsstring) : res value :=
  match v with
  | VUndefined | VNull =>
      Thrown (TypeError (js "Cannot read properties of null or undefined"))
  | _ => Ok (default VUndefined (assoc k (own_props v)))
  end.

(** Number arithmetic: [NaN] is absorbing, and every comparison with
    [NaN] is false. *)
Definition num_mul (a b : number) : number :=
  match a, b with
  | Num x, Num y => Num (x * y)
  | _, _ => NaN
  end.

Definition num_sub (a b : number) : number :=
  match a, b with
  | Num x, Num y => Num (x - y)
  | _, _ => NaN
  end.

Definition num_ge (a b : number) : bool :=
  match a, b with
  | Num x, Num y => (y <=? x)%Z
  | _, _ => false
  end.

(** Functions of the language and of the host that the repository calls
    but does not define.  Nothing is assumed about what they compute. *)
Class Host : Type := {
  (** [JSON.parse]; throws SyntaxError. *)
  JSON_parse : jsstring -> res value;
  (** [JSON.stringify] of an object. *)
  JSON_stringify : value -> jsstring;
  (** [decodeURIComponent]; throws URIError. *)
  decodeURIComponent : jsstring -> res jsstring;
  (** ToNumber on a value that is not a number. *)
  ToNumber : value -> number;
  (** ToString on a value that is not a string. *)
  ToString : value -> jsstring;
  (** React Native's [Platform.OS]. *)
  Platform_OS : jsstring;
  (** [AuthSession.makeRedirectUri({ scheme, path })]. *)
  makeRedirectUri : value -> jsstring -> jsstring;
}.

Definition toNumber `{Host} (v : value) : number :=
  match v with
  | VNum n => n
  | _ => ToNumber v
  end.

Definition toString `{Host} (v : value) : jsstring :=
  match v with
  | VStr s => s
  | _ => ToString v
  end.

End JS.

(* ===================================================================== *)
(** ** Asynchronous programs over the browser / device state *)
(* ===================================================================== *)

Module Async.
Import JS.

(** A [fetch] call: URL and init object. *)
Record request : Type := {
  url : jsstring;
  method : jsstring;
  headers : list (jsstring * jsstring);
  body : option jsstring;
}.

(** A [Response]: [ok], [status], [statusText] and the body text, from
    which [response.text()] and [response.json()] read. *)
Record response : Type := {
  ok : bool;
  status : Z;
  statusText : jsstring;
  text : jsstring;
}.

Record AuthState : Type := {
  accessToken : value;
  refreshToken : value;
  user : value;
  isSignedIn : bool;
}.

(** [window.location]: path and decoded query parameters. *)
Record location : Type := {
  pathname : jsstring;
  search : list (jsstring * jsstring);
}.

(** What [promptAsync()] resolves to: [result.type], [result.params]. *)
Record prompt_result : Type := {
  ptype : jsstring;
  params : value;
}.

(** The state the provider reads and writes. *)
Record world : Type := {
  localStorage : gmap jsstring jsstring;
  sessionStorage : gmap jsstring jsstring;
  secureStore : gmap jsstring jsstring;
  authState : AuthState;
  (** every request issued with [fetch], oldest first *)
  requests : list request;
  window_location : location;
  (** target of the last assignment to [window.location.href] *)
  navigated : option jsstring;
}.

(** What lies outside the program: the clock, the servers, the user in
    front of the authorization prompt, the random source. *)
Record env : Type := {
  (** [Date.now()] *)
  now : Z;
  (** outcome of the [n]-th request ([Thrown] when the transport fails) *)
  server : nat -> request -> res response;
  (** outcome of [promptAsync()] *)
  prompt : res prompt_result;
  (** [crypto.getRandomValues] on a [Uint8Array] of the given length *)
  random : nat -> list N;
}.

(** The operations at which a program touches [world] or [env]. *)
Inductive op : Type -> Type :=
| LocalGet (k : jsstring) : op (option jsstring)
| LocalSet (k v : jsstring) : op unit
| LocalRemove (k : jsstring) : op unit
| SessionGet (k : jsstring) : op (option jsstring)
| SessionSet (k v : jsstring) : op unit
| SecureGet (k : jsstring) : op (option jsstring)
| SecureSet (k v : jsstring) : op unit
| SecureDelete (k : jsstring) : op unit
| Fetch (r : request) : op (res response)
| DateNow : op Z
| SetAuthState (s : AuthState) : op unit
| PromptAsync : op (res prompt_result)
| GetRandomValues (n : nat) : op (list N)
| GetLocation : op location
| SetLocationHref (u : jsstring) : op unit
| ReplaceState (path : jsstring) : op unit.

(** An [async] function body: it returns, throws, or performs an
    operation and goes on with the outcome. *)
Inductive prog (A : Type) : Type :=
| Ret (a : A)
| Throw (e : exn)
| Do (X : Type) (o : op X) (k : X -> prog A).
Arguments Ret {A} a.
Arguments Throw {A} e.
Arguments Do {A X} o k.

Fixpoint bind {A B} (p : prog A) (f : A -> prog B) : prog B :=
  match p with
  | Ret a => f a
  | Throw e => Throw e
  | Do o k => Do o (fun x => bind (k x) f)
  end.

(** [try { p } catch (e) { h e }] *)
Fixpoint try_catch {A} (p : prog A) (h : exn -> prog A) : prog A :=
  match p with
  | Ret a => Ret a
  | Throw e => h e
  | Do o k => Do o (fun x => try_catch (k x) h)
  end.

Definition perform_op {X} (o : op X) : prog X := Do o Ret.

(** A synchronous evaluation inside an [async] body. *)
Definition lift {A} (r : res A) : prog A :=
  match r with
  | Ok a => Ret a
  | Thrown e => Throw e
  end.

#[global] Instance prog_ret : MRet prog := @Ret.
#[global] Instance prog_bind : MBind prog := fun A B f p => bind p f.

Definition upd_localStorage (f : gmap jsstring jsstring -> gmap jsstring jsstring)
    (w : world) : world :=
  {| localStorage := f (localStorage w); sessionStorage := sessionStorage w;
     secureStore := secureStore w; authState := authState w;
     requests := requests w; window_location := window_location w;
     navigated := navigated w |}.

Definition upd_sessionStorage (f : gmap jsstring jsstring -> gmap jsstring jsstring)
    (w : world) : world :=
  {| localStorage := localStorage w; sessionStorage := f (sessionStorage w);
     secureStore := secureStore w; authState := authState w;
     requests := requests w; window_location := window_location w;
     navigated := navigated w |}.

Definition upd_secureStore (f : gmap jsstring jsstring -> gmap jsstring jsstring)
    (w : world) : world :=
  {| localStorage := localStorage w; sessionStorage := sessionStorage w;
     secureStore := f (secureStore w); authState := authState w;
     requests := requests w; window_location := window_location w;
     navigated := navigated w |}.

Definition set_authState (s : AuthState) (w : world) : world :=
  {| localStorage := localStorage w; sessionStorage := sessionStorage w;
     secureStore := secureStore w; authState := s;
     requests := requests w; window_location := window_location w;
     navigated := navigated w |}.

Definition log_request (r : request) (w : world) : world :=
  {| localStorage := localStorage w; sessionStorage := sessionStorage w;
     secureStore := secureStore w; authState := authState w;
     requests := requests w ++ [r]; window_location := window_location w;
     navigated := navigated w |}.

Definition set_location (l : location) (w : world) : world :=
  {| localStorage := localStorage w; sessionStorage := sessionStorage w;
     secureStore := secureStore w; authState := authState w;
     requests := requests w; window_location := l;
     navigated := navigated w |}.

Definition set_navigated (u : jsstring) (w : world) : world :=
  {| localStorage := localStorage w; sessionStorage := sessionStorage w;
     secureStore := secureStore w; authState := authState w;
     requests := requests w; window_location := window_location w;
     navigated := Some u |}.

(** One operation against the state. *)
Definition perform (E : env) {X} (o : op X) (w : world) : X * world :=
  match o in op X return X * world with
  | LocalGet k => (localStorage w !! k, w)
  | LocalSet k v => (tt, upd_localStorage (insert k v) w)
  | LocalRemove k => (tt, upd_localStorage (delete k) w)
  | SessionGet k => (sessionStorage w !! k, w)
  | SessionSet k v => (tt, upd_sessionStorage (insert k v) w)
  | SecureGet k => (secureStore w !! k, w)
  | SecureSet k v => (tt, upd_secureStore (insert k v) w)
  | SecureDelete k => (tt, upd_secureStore (delete k) w)
  | Fetch r => (server E (length (requests w)) r, log_request r w)
  | DateNow => (now E, w)
  | SetAuthState s => (tt, set_authState s w)
  | PromptAsync => (prompt E, w)
  | GetRandomValues n => (random E n, w)
  | GetLocation => (window_location w, w)
  | SetLocationHref u => (tt, set_navigated u w)
  | ReplaceState path =>
      (tt, set_location {| pathname := path; search := [] |} w)
  end.

(** A call awaited to its end with nothing else running. *)
Fixpoint run (E : env) {A} (p : prog A) (w : world) : res A * world :=
  match p with
  | Ret a => (Ok a, w)
  | Throw e => (Thrown e, w)
  | Do o k => let '(x, w') := perform E o w in run E (k x) w'
  end.

(** Several calls in flight.  A task advances by one operation at a
    time; which task advances next is the schedule's choice.  Every
    operation is taken as a point where another task may run, which
    covers the orders the event loop can produce. *)
Definition step_task (E : env) {A} (p : prog A) (w : world) : prog A * world :=
  match p with
  | Do o k => let '(x, w') := perform E o w in (k x, w')
  | _ => (p, w)
  end.

Definition step (E : env) {A} (c : list (prog A) * world) (i : nat)
    : list (prog A) * world :=
  match c.1 !! i with
  | Some p => let '(p', w') := step_task E p c.2 in (<[i := p']> c.1, w')
  | None => c
  end.

Definition exec (E : env) {A} (sched : list nat) (c : list (prog A) * world)
    : list (prog A) * world :=
  fold_left (step E) sched c.

(** The outcome of a settled task; [None] while it is still pending. *)
Definition settled {A} (p : prog A) : option (res A) :=
  match p with
  | Ret a => Some (Ok a)
  | Throw e => Some (Thrown e)
  | Do _ _ => None
  end.

End Async.

(* ===================================================================== *)
(** ** src/index.tsx *)
(* ===================================================================== *)

Module Auth.
Import JS Async.

Definition TOKEN_STORAGE_KEY : jsstring := js "auth_tokens".
Definition USER_INFO_STORAGE_KEY : jsstring := js "user_info".

(** [s.split(sep)] for a one-character separator. *)
Fixpoint split (sep : N) (s : jsstring) : list jsstring :=
  match s with
  | [] => [[]]
  | c :: rest =>
      if (c =? sep)%N then [] :: split sep rest
      else match split sep rest with
           | piece :: pieces => (c :: piece) :: pieces
           | [] => [[c]]
           end
  end.

(** [s.replace(/a/g, b)] for single characters. *)
Definition replace_all (a b : N) (s : jsstring) : jsstring :=
  map (fun c => if (c =? a)%N then b else c) s.

(** [pieces.join(sep)] *)
Fixpoint join (sep : jsstring) (pieces : list jsstring) : jsstring :=
  match pieces with
  | [] => []
  | [p] => p
  | p :: rest => p ++ sep ++ join sep rest
  end.

(** [n.toString(16)] *)
Definition toString16 (n : N) : jsstring :=
  js (HexadecimalString.NilZero.string_of_uint (N.to_hex_uint n)).

(** [s.slice(-2)] *)
Definition slice_last2 (s : jsstring) : jsstring := drop (length s - 2) s.

(** [s.padStart(2, '0')] *)
Definition padStart2 (s : jsstring) : jsstring :=
  replicate (2 - length s) 48%N ++ s.

(** [s.includes(t)] *)
Fixpoint includes (t s : jsstring) : bool :=
  bool_decide (take (length t) s = t) ||
  match s with
  | [] => false
  | _ :: rest => includes t rest
  end.

Definition btoa (s : jsstring) : res jsstring :=
  match Base64.btoa s with
  | Some e => Ok e
  | None => Thrown InvalidCharacterError
  end.

Definition atob (s : jsstring) : res jsstring :=
  match Base64.atob s with
  | Some d => Ok d
  | None => Thrown InvalidCharacterError
  end.

Section Provider.
Context `{Host}.
(** The [project_id] prop of [BasicProvider]. *)
Variable project_id : jsstring.

Definition is_web : bool := bool_decide (Platform_OS = js "web").

(** [AuthWebHandler(config)]: draws the per-attempt state, keeps it in
    [sessionStorage], and hands back the authorization URL that
    [createAuthUrl()] builds.  [config.scheme] is not a field of the
    provider's [config], hence [undefined]. *)
Definition generateRandomState : prog jsstring :=
  randomBytes ← perform_op (GetRandomValues 5);
  mret (concat (map (fun b => padStart2 (toString16 b)) randomBytes)).

Definition config_scopes : list jsstring :=
  [js "openid"; js "profile"; js "email"].
Definition authorizationEndpoint : jsstring :=
  js "https://api.basic.tech/auth/authorize".
Definition tokenEndpoint : jsstring := js "https://api.basic.tech/auth/token".
Definition userInfoEndpoint : jsstring :=
  js "https://api.basic.tech/auth/userInfo".

Definition AuthWebHandler_createAuthUrl : prog jsstring :=
  state ← generateRandomState;
  perform_op (SessionSet (js "basic_oauth_state") state);;
  let redirectUri := makeRedirectUri VUndefined (js "oauth/callback") in
  let scopeParam := js "&scope=" ++ join (js ",") config_scopes in
  mret (authorizationEndpoint ++ js "?response_type=code&client_id="
        ++ project_id ++ js "&redirect_uri=" ++ redirectUri ++ scopeParam
        ++ js "&state=" ++ state).

(** [storageAdapter] *)
Definition storageAdapter_setItem (key value : jsstring) : prog unit :=
  if is_web then
    try_catch
      (encryptedValue ← lift (btoa value);
       perform_op (LocalSet key encryptedValue))
      (fun _ => mret tt)
  else perform_op (SecureSet key value).

Definition storageAdapter_getItem (key : jsstring) : prog (option jsstring) :=
  if is_web then
    try_catch
      (encryptedValue ← perform_op (LocalGet key);
       match encryptedValue with
       | Some (c :: e) => decoded ← lift (atob (c :: e)); mret (Some decoded)
       | _ => mret None
       end)
      (fun _ => mret None)
  else perform_op (SecureGet key).

Definition storageAdapter_deleteItem (key : jsstring) : prog unit :=
  if is_web then
    try_catch (perform_op (LocalRemove key)) (fun _ => mret tt)
  else perform_op (SecureDelete key).

(** The character-by-character percent encoding inside [decodeJWT]:
    ['%' + ('00' + c.charCodeAt(0).toString(16)).slice(-2)]. *)
Definition percent_encode (s : jsstring) : jsstring :=
  concat (map (fun c => 37%N :: slice_last2 (js "00" ++ toString16 c)) s).

Definition decodeJWT (token : value) : res value :=
  res_catch
    (parts ← match token with
             | VStr s => Ok (split 46 s)
             | _ => Thrown (TypeError (js "token.split is not a function"))
             end;
     base64Url ← match parts !! 1%nat with
                 | Some p => Ok p
                 | None => Thrown (TypeError (js "Cannot read properties of undefined"))
                 end;
     let base64 := replace_all 95 47 (replace_all 45 43 base64Url) in
     decoded ← atob base64;
     jsonPayload ← decodeURIComponent (percent_encode decoded);
     JSON_parse jsonPayload)
    (fun _ => Ok VNull).

Definition isTokenExpired (token : value) : prog bool :=
  decoded ← lift (decodeJWT token);
  if negb (truthy decoded) then mret true
  else
    exp ← lift (get decoded (js "exp"));
    if negb (truthy exp) then mret true
    else
      let expirationTime := num_mul (toNumber exp) (Num 1000) in
      currentTime ← perform_op DateNow;
      mret (num_ge (Num currentTime)
              (num_sub expirationTime (Num (5 * 60 * 1000)))).

Definition signedOut : AuthState :=
  {| accessToken := VNull; refreshToken := VNull; user := VNull;
     isSignedIn := false |}.

Definition signout : prog unit :=
  try_catch
    (storageAdapter_deleteItem TOKEN_STORAGE_KEY;;
     storageAdapter_deleteItem USER_INFO_STORAGE_KEY;;
     perform_op (SetAuthState signedOut))
    (fun _ => mret tt).

Definition storeTokens (tokenData : value) : prog unit :=
  access_token ← lift (get tokenData (js "access_token"));
  refresh_token ← lift (get tokenData (js "refresh_token"));
  storageAdapter_setItem TOKEN_STORAGE_KEY
    (JSON_stringify (VObj [(js "accessToken", access_token);
                           (js "refreshToken", refresh_token)])).

Definition storeUserInfo (userInfo : value) : prog unit :=
  storageAdapter_setItem USER_INFO_STORAGE_KEY (JSON_stringify userInfo).

Definition json_headers : list (jsstring * jsstring) :=
  [(js "Content-Type", js "application/json")].

(** The object [refreshAccessToken] passes to [JSON.stringify]. *)
Definition refresh_body (refreshToken : value) : value :=
  VObj [(js "grant_type", VStr (js "refresh_token"));
        (js "code", refreshToken);
        (js "client_id", VStr project_id)].

Definition refresh_request (refreshToken : value) : request :=
  {| url := tokenEndpoint; method := js "POST"; headers := json_headers;
     body := Some (JSON_stringify (refresh_body refreshToken)) |}.

Definition refreshAccessToken (refreshToken : value) : prog value :=
  try_catch
    (fetched ← perform_op (Fetch (refresh_request refreshToken));
     response ← lift fetched;
     if negb (ok response) then
       let errorText := text response in
       Throw (Error (js "Failed to refresh token: " ++ errorText))
     else
       tokenData ← lift (JSON_parse (text response));
       storeTokens tokenData;;
       lift (get tokenData (js "access_token")))
    (fun error => Throw error).

(** [fetchToken].  [refreshAccessTokenRef.current] is
    [refreshAccessToken], which the provider's mount effect stores in the
    ref. *)
Definition fetchToken : prog value :=
  try_catch
    (storedTokens ← storageAdapter_getItem TOKEN_STORAGE_KEY;
     match storedTokens with
     | Some (c :: s) =>
         parsed ← lift (JSON_parse (c :: s));
         accessToken ← lift (get parsed (js "accessToken"));
         refreshToken ← lift (get parsed (js "refreshToken"));
         expired ← isTokenExpired accessToken;
         if negb expired then mret accessToken
         else refreshAccessToken refreshToken
     | _ => Throw (Error (js "No tokens found - user not signed in"))
     end)
    (fun error => Throw error).

(** The [getToken] closure handed to [BasicDBSDK]. *)
Definition getToken : prog value :=
  tok ← fetchToken;
  if negb (truthy tok) then Throw (Error (js "User not authenticated"))
  else mret tok.

Definition code_body (code : value) : value :=
  VObj [(js "code", code);
        (js "client_id", VStr project_id);
        (js "grant_type", VStr (js "authorization_code"))].

Definition handleLoginCode (code : value) : prog unit :=
  fetched ← perform_op (Fetch
    {| url := tokenEndpoint; method := js "POST"; headers := json_headers;
       body := Some (JSON_stringify (code_body code)) |});
  tokenResponse ← lift fetched;
  if negb (ok tokenResponse) then
    Throw (Error (js "Failed to exchange code for token"))
  else
    tokenData ← lift (JSON_parse (text tokenResponse));
    storeTokens tokenData;;
    access_token ← lift (get tokenData (js "access_token"));
    fetched' ← perform_op (Fetch
      {| url := userInfoEndpoint; method := js "GET";
         headers := [(js "Authorization", js "Bearer " ++ toString access_token)];
         body := None |});
    userInfoResponse ← lift fetched';
    if negb (ok userInfoResponse) then
      Throw (Error (js "Failed to fetch user info"))
    else
      userInfo ← lift (JSON_parse (text userInfoResponse));
      storeUserInfo userInfo;;
      refresh_token ← lift (get tokenData (js "refresh_token"));
      perform_op (SetAuthState
        {| accessToken := access_token; refreshToken := refresh_token;
           user := userInfo; isSignedIn := true |}).

Definition login : prog unit :=
  if is_web then
    url ← AuthWebHandler_createAuthUrl;
    perform_op (SetLocationHref url)
  else
    try_catch
      (prompted ← perform_op PromptAsync;
       result ← lift prompted;
       if bool_decide (ptype result = js "success") then
         code ← lift (get (params result) (js "code"));
         handleLoginCode code
       else mret tt)
      (fun error => signout;; Throw error).

(** [URLSearchParams.get]: the first value under the name, or [null]. *)
Definition urlParams_get (name : jsstring) (l : location) : option jsstring :=
  snd <$> List.find (fun p => bool_decide (p.1 = name)) (search l).

(** A call that is started and not awaited: its rejection has no handler
    and reaches no caller. *)
Definition not_awaited (p : prog unit) : prog unit :=
  try_catch p (fun _ => mret tt).

(** The web branch of the provider's mount effect, which receives the
    OAuth redirect.  (The same effect also starts [loadStoredAuth], the
    session restore, which is independent of the callback.) *)
Definition oauthCallback : prog unit :=
  if is_web then
    loc ← perform_op GetLocation;
    if includes (js "oauth/callback") (pathname loc) then
      let code := urlParams_get (js "code") loc in
      let state := urlParams_get (js "state") loc in
      storedState ← perform_op (SessionGet (js "basic_oauth_state"));
      if truthy_str code && bool_decide (state = storedState) then
        not_awaited (handleLoginCode (from_option VStr VNull code));;
        perform_op (ReplaceState (pathname loc))
      else mret tt
    else mret tt
  else mret tt.

End Provider.
End Auth.

(* ===================================================================== *)
(** ** db.ts: createSchema *)
(* ===================================================================== *)

Module Schema.
Import JS.

(** WhiteSpace and LineTerminator code units, which [String.prototype.trim]
    removes. *)
Definition is_js_whitespace (c : N) : bool :=
  ((9 <=? c) && (c <=? 13) || (c =? 32) || (c =? 160) || (c =? 5760)
   || (8192 <=? c) && (c <=? 8202) || (c =? 8232) || (c =? 8233)
   || (c =? 8239) || (c =? 8287) || (c =? 12288) || (c =? 65279))%N.

Fixpoint drop_while (f : N -> bool) (s : jsstring) : jsstring :=
  match s with
  | [] => []
  | c :: rest => if f c then drop_while f rest else s
  end.

(** [s.trim()] *)
Definition trim (s : jsstring) : jsstring :=
  rev (drop_while is_js_whitespace (rev (drop_while is_js_whitespace s))).

(** [typeof v === 'object' && v !== null] *)
Definition is_object (v : value) : bool :=
  match v with
  | VArr _ | VObj _ => true
  | _ => false
  end.

Definition validTypes : list jsstring :=
  [js "string"; js "boolean"; js "number"].

(** A piece of a message between double quotes. *)
Definition quoted (s : jsstring) : jsstring := 34%N :: s ++ [34%N].

Fixpoint for_each {A} (l : list A) (f : A -> res unit) : res unit :=
  match l with
  | [] => Ok tt
  | x :: rest => f x;; for_each rest f
  end.

Definition check_field (tableName fieldName : jsstring) (field : value)
    : res unit :=
  if negb (is_object field) then
    Thrown (Error (js "Invalid schema for table '" ++ tableName
                   ++ js "', field '" ++ fieldName ++ js "': is not an object."))
  else
    type ← get field (js "type");
    if match type with
       | VStr t => negb (bool_decide (t ∈ validTypes))
       | _ => true
       end
    then
      Thrown (Error (js "Invalid schema for table '" ++ tableName
                     ++ js "', field '" ++ fieldName
                     ++ js "': type must be one of " ++ quoted (js "string")
                     ++ js ", " ++ quoted (js "boolean") ++ js ", "
                     ++ quoted (js "number") ++ js "."))
    else
      indexed ← get field (js "indexed");
      if match indexed with
         | VUndefined | VBool _ => false
         | _ => true
         end
      then
        Thrown (Error (js "Invalid schema for table '" ++ tableName
                       ++ js "', field '" ++ fieldName
                       ++ js "': optional 'indexed' property must be a boolean."))
      else Ok tt.

Definition check_table (tables : value) (tableName : jsstring) : res unit :=
  table ← get tables tableName;
  if negb (is_object table) then
    Thrown (Error (js "Invalid schema: table '" ++ tableName
                   ++ js "' is not an object."))
  else
    fields ← get table (js "fields");
    if negb (is_object fields) || (length (keys fields) =? 0)%nat then
      Thrown (Error (js "Invalid schema for table '" ++ tableName
                     ++ js "': fields must be a non-empty object."))
    else
      for_each (keys fields) (fun fieldName =>
        field ← get fields fieldName;
        check_field tableName fieldName field).

Definition createSchema (schema : value) : res value :=
  project_id ← get schema (js "project_id");
  if match project_id with
     | VStr p => bool_decide (trim p = [])
     | _ => true
     end
  then Thrown (Error (js "Invalid schema: project_id must be a non-empty string."))
  else
    version ← get schema (js "version");
    if negb (jstype_eqb (typeof version) TyNumber) then
      Thrown (Error (js "Invalid schema: version must be a number."))
    else
      tables ← get schema (js "tables");
      if negb (is_object tables) || (length (keys tables) =? 0)%nat then
        Thrown (Error (js "Invalid schema: tables must be a non-empty object."))
      else
        for_each (keys tables) (check_table tables);;
        Ok schema.

(** The conditions [createSchema] checks, stated declaratively. *)
Definition valid_field (field : value) : Prop :=
  is_object field = true
  ∧ (∃ t, get field (js "type") = Ok (VStr t) ∧ t ∈ validTypes)
  ∧ (get field (js "indexed") = Ok VUndefined
     ∨ ∃ b, get field (js "indexed") = Ok (VBool b)).

Definition valid_table (table : value) : Prop :=
  is_object table = true
  ∧ ∃ fields, get table (js "fields") = Ok fields
      ∧ is_object fields = true
      ∧ keys fields ≠ []
      ∧ ∀ fieldName, fieldName ∈ keys fields →
          ∃ field, get fields fieldName = Ok field ∧ valid_field field.

Definition valid_schema (schema : value) : Prop :=
  (∃ p, get schema (js "project_id") = Ok (VStr p) ∧ trim p ≠ [])
  ∧ (∃ n, get schema (js "version") = Ok (VNum n))
  ∧ ∃ tables, get schema (js "tables") = Ok tables
      ∧ is_object tables = true
      ∧ keys tables ≠ []
      ∧ ∀ tableName, tableName ∈ keys tables →
          ∃ table, get tables tableName = Ok table ∧ valid_table table.

(** The acceptance condition in the words of the specification: every
    table declares a non-empty [fields] map and every field's type is one
    of the listed names. *)
Definition declares_fields_of_types (types : list jsstring) (schema : value)
    : Prop :=
  ∃ tables, get schema (js "tables") = Ok tables
    ∧ ∀ tableName, tableName ∈ keys tables →
        ∃ table fields,
          get tables tableName = Ok table
          ∧ get table (js "fields") = Ok fields
          ∧ is_object fields = true
          ∧ keys fields ≠ []
          ∧ ∀ fieldName, fieldName ∈ keys fields →
              ∃ field t, get fields fieldName = Ok field
                ∧ get field (js "type") = Ok (VStr t) ∧ t ∈ types.

Definition spec_field_types : list jsstring :=
  [js "string"; js "boolean"; js "number"; js "json"].

(** The schema of the README's quick start. *)
Definition readme_schema : value :=
  VObj [(js "project_id", VStr (js "YOUR_PROJECT_ID"));
        (js "version", VNum (Num 1));
        (js "tables", VObj [(js "notes", VObj [
           (js "type", VStr (js "collection"));
           (js "fields", VObj [
              (js "title", VObj [(js "type", VStr (js "string"));
                                 (js "indexed", VBool true)]);
              (js "content", VObj [(js "type", VStr (js "string"))]);
              (js "createdAt", VObj [(js "type", VStr (js "number"));
                                     (js "indexed", VBool true)]);
              (js "completed", VObj [(js "type", VStr (js "boolean"));
                                     (js "indexed", VBool true)]);
              (js "priority", VObj [(js "type", VStr (js "number"));
                                    (js "indexed", VBool true)]);
              (js "tags", VObj [(js "type", VStr (js "json"));
                                (js "indexed", VBool true)])])])])].

(** The same schema without the [tags] field. *)
Definition notes_schema : value :=
  VObj [(js "project_id", VStr (js "YOUR_PROJECT_ID"));
        (js "version", VNum (Num 1));
        (js "tables", VObj [(js "notes", VObj [
           (js "type", VStr (js "collection"));
           (js "fields", VObj [
              (js "title", VObj [(js "type", VStr (js "string"));
                                 (js "indexed", VBool true)]);
              (js "content", VObj [(js "type", VStr (js "string"))]);
              (js "createdAt", VObj [(js "type", VStr (js "number"));
                                     (js "indexed", VBool true)]);
              (js "completed", VObj [(js "type", VStr (js "boolean"));
                                     (js "indexed", VBool true)])])])])].

End Schema.

(* ===================================================================== *)
(** ** The query chain *)
(* ===================================================================== *)

Module Query.

Section QueryBuilder.
(** Fetched records, filter conditions and their meaning are left open:
    the chain only carries them. *)
Context {record condition : Type}.
Variable holds : condition -> record -> bool.
Variable field_leb : jsstring -> record -> record -> bool.

Inductive direction : Type := asc | desc.

(** Modelled from the spec: the repository's query builder ([filter],
    [order], [limit], [offset] chained after [getAll()]) is not among the
    source files; this is the specification's QueryDescriptor,
    [{ table, filters, order, limit, offset }], every part optional. *)
Record QueryDescriptor : Type := {
  table : jsstring;
  filters : option condition;
  order : option (jsstring * direction);
  limit : option nat;
  offset : option nat;
}.

(** Modelled from the spec: the base fetch-all intent, with nothing
    narrowed yet. *)
Definition getAll (t : jsstring) : QueryDescriptor :=
  {| table := t; filters := None; order := None; limit := None;
     offset := None |}.

(** Modelled from the spec: [filter(condition)] records the single
    filter condition of the chain in the descriptor. *)
Definition chain_filter (c : condition) (q : QueryDescriptor) : QueryDescriptor :=
  {| table := table q; filters := Some c; order := order q;
     limit := limit q; offset := offset q |}.

(** Modelled from the spec: [order(field, direction)] records the sort
    key in the descriptor. *)
Definition chain_order (f : jsstring) (d : direction) (q : QueryDescriptor)
    : QueryDescriptor :=
  {| table := table q; filters := filters q; order := Some (f, d);
     limit := limit q; offset := offset q |}.

(** Modelled from the spec: [limit(n)] records the cap on the result
    count in the descriptor. *)
Definition chain_limit (n : nat) (q : QueryDescriptor) : QueryDescriptor :=
  {| table := table q; filters := filters q; order := order q;
     limit := Some n; offset := offset q |}.

(** Modelled from the spec: [offset(n)] records the number of results to
    skip in the descriptor. *)
Definition chain_offset (n : nat) (q : QueryDescriptor) : QueryDescriptor :=
  {| table := table q; filters := filters q; order := order q;
     limit := limit q; offset := Some n |}.

(** Modelled from the spec: ordering by the natural order of a field, as
    a stable insertion sort. *)
Fixpoint insert_sorted (leb : record -> record -> bool) (x : record)
    (l : list record) : list record :=
  match l with
  | [] => [x]
  | y :: rest => if leb x y then x :: l else y :: insert_sorted leb x rest
  end.

Definition sort_by (leb : record -> record -> bool) (l : list record)
    : list record :=
  foldr (insert_sorted leb) [] l.

(** Modelled from the spec: once finalized, the descriptor is resolved
    against the fetched set: filter, then order, then skip [offset]
    records, then cap at [limit]. *)
Definition finalize (q : QueryDescriptor) (fetched : list record)
    : list record :=
  let filtered :=
    match filters q with
    | Some c => List.filter (holds c) fetched
    | None => fetched
    end in
  let ordered :=
    match order q with
    | Some (f, asc) => sort_by (field_leb f) filtered
    | Some (f, desc) => sort_by (fun a b => field_leb f b a) filtered
    | None => filtered
    end in
  let skipped :=
    match offset q with
    | Some n => drop n ordered
    | None => ordered
    end in
  match limit q with
  | Some n => take n skipped
  | None => skipped
  end.

End QueryBuilder.
Arguments QueryDescriptor : clear implicits.
End Query.

(* ===================================================================== *)
(** ** A reference host *)
(* ===================================================================== *)

(** One concrete [Host], on which the programs above can be evaluated.
    It reads and writes JSON with integer numbers and escaped double
    quotes and backslashes, decodes percent-encoded UTF-8, and coerces decimal
    strings to numbers.  The theorems below hold for every [Host]; this
    one supplies closed examples. *)
Module RefHost.
Import JS.

Definition decimal (z : Z) : jsstring :=
  js (DecimalString.NilZero.string_of_int (Z.to_int z)).

Fixpoint escape (s : jsstring) : jsstring :=
  match s with
  | [] => []
  | c :: rest =>
      if ((c =? 34) || (c =? 92))%N then 92%N :: c :: escape rest
      else c :: escape rest
  end.

Definition quote (s : jsstring) : jsstring := 34%N :: escape s ++ [34%N].

Fixpoint stringify (v : value) : jsstring :=
  match v with
  | VUndefined | VNull | VNum NaN => js "null"
  | VBool true => js "true"
  | VBool false => js "false"
  | VNum (Num z) => decimal z
  | VStr s => quote s
  | VArr elems => js "[" ++ Auth.join (js ",") (map stringify elems) ++ js "]"
  | VObj props =>
      js "{"
      ++ Auth.join (js ",")
           ((fix members (ps : list (jsstring * value)) : list jsstring :=
               match ps with
               | [] => []
               | (_, VUndefined) :: rest => members rest
               | (k, v) :: rest =>
                   (quote k ++ js ":" ++ stringify v) :: members rest
               end) props)
      ++ js "}"
  end.

Definition is_digit (c : N) : bool := ((48 <=? c) && (c <=? 57))%N.

Fixpoint skip_ws (s : jsstring) : jsstring :=
  match s with
  | c :: rest =>
      if ((c =? 32) || (c =? 9) || (c =? 10) || (c =? 13))%N
      then skip_ws rest else s
  | [] => []
  end.

(** The characters of a string literal after its opening quote. *)
Fixpoint parse_chars (s : jsstring) : option (jsstring * jsstring) :=
  match s with
  | [] => None
  | c :: rest =>
      if (c =? 34)%N then Some ([], rest)
      else if (c =? 92)%N then
        match rest with
        | e :: rest' =>
            if ((e =? 34) || (e =? 92) || (e =? 47))%N then
              '(t, r) ← parse_chars rest'; Some (e :: t, r)
            else None
        | [] => None
        end
      else '(t, r) ← parse_chars rest; Some (c :: t, r)
  end.

Fixpoint parse_digits (acc : Z) (s : jsstring) : Z * jsstring :=
  match s with
  | c :: rest =>
      if is_digit c then parse_digits (10 * acc + Z.of_N (c - 48)) rest
      else (acc, s)
  | [] => (acc, [])
  end.

Definition starts_with (t s : jsstring) : bool :=
  bool_decide (take (length t) s = t).

Fixpoint parse_value (fuel : nat) (s : jsstring) : option (value * jsstring) :=
  match fuel with
  | O => None
  | S fuel =>
      let parse_elems :=
        fix parse_elems (n : nat) (s : jsstring) : option (list value * jsstring) :=
          match n with
          | O => None
          | S n =>
              '(v, r) ← parse_value fuel s;
              match skip_ws r with
              | c :: r' =>
                  if (c =? 44)%N then
                    '(vs, r'') ← parse_elems n r'; Some (v :: vs, r'')
                  else if (c =? 93)%N then Some ([v], r')
                  else None
              | [] => None
              end
          end in
      let parse_members :=
        fix parse_members (n : nat) (s : jsstring)
            : option (list (jsstring * value) * jsstring) :=
          match n with
          | O => None
          | S n =>
              match skip_ws s with
              | q :: r0 =>
                  if (q =? 34)%N then
                    '(k, r1) ← parse_chars r0;
                    match skip_ws r1 with
                    | colon :: r2 =>
                        if (colon =? 58)%N then
                          '(v, r3) ← parse_value fuel r2;
                          match skip_ws r3 with
                          | c :: r4 =>
                              if (c =? 44)%N then
                                '(ms, r5) ← parse_members n r4;
                                Some ((k, v) :: ms, r5)
                              else if (c =? 125)%N then Some ([(k, v)], r4)
                              else None
                          | [] => None
                          end
                        else None
                    | [] => None
                    end
                  else None
              | [] => None
              end
          end in
      match skip_ws s with
      | [] => None
      | c :: rest =>
          if (c =? 34)%N then
            '(t, r) ← parse_chars rest; Some (VStr t, r)
          else if (c =? 91)%N then
            match skip_ws rest with
            | c' :: r' =>
                if (c' =? 93)%N then Some (VArr [], r')
                else '(vs, r) ← parse_elems (length s) rest; Some (VArr vs, r)
            | [] => None
            end
          else if (c =? 123)%N then
            match skip_ws rest with
            | c' :: r' =>
                if (c' =? 125)%N then Some (VObj [], r')
                else '(ms, r) ← parse_members (length s) rest; Some (VObj ms, r)
            | [] => None
            end
          else if (c =? 45)%N then
            match rest with
            | d :: _ =>
                if is_digit d then
                  let '(z, r) := parse_digits 0 rest in Some (VNum (Num (- z)), r)
                else None
            | [] => None
            end
          else if is_digit c then
            let '(z, r) := parse_digits 0 (c :: rest) in Some (VNum (Num z), r)
          else if starts_with (js "true") (c :: rest) then
            Some (VBool true, drop 4 (c :: rest))
          else if starts_with (js "false") (c :: rest) then
            Some (VBool false, drop 5 (c :: rest))
          else if starts_with (js "null") (c :: rest) then
            Some (VNull, drop 4 (c :: rest))
          else None
      end
  end.

Definition parse (s : jsstring) : res value :=
  match parse_value (S (length s)) s with
  | Some (v, r) =>
      match skip_ws r with
      | [] => Ok v
      | _ => Thrown SyntaxError
      end
  | None => Thrown SyntaxError
  end.

Definition hex_value (c : N) : option N :=
  if is_digit c then Some (c - 48)%N
  else if ((97 <=? c) && (c <=? 102))%N then Some (c - 87)%N
  else if ((65 <=? c) && (c <=? 70))%N then Some (c - 55)%N
  else None.

(** The bytes a URI component stands for. *)
Fixpoint unescape_bytes (s : jsstring) : option (list N) :=
  match s with
  | [] => Some []
  | c :: rest =>
      if (c =? 37)%N then
        match rest with
        | h :: l :: rest' =>
            hv ← hex_value h; lv ← hex_value l;
            bs ← unescape_bytes rest'; Some ((hv * 16 + lv)%N :: bs)
        | _ => None
        end
      else bs ← unescape_bytes rest; Some (c :: bs)
  end.

Definition is_cont (b : N) : bool := ((128 <=? b) && (b <=? 191))%N.

(** UTF-8 to UTF-16 code units. *)
Fixpoint utf8_decode (fuel : nat) (bs : list N) : option jsstring :=
  match fuel with
  | O => None
  | S fuel =>
      match bs with
      | [] => Some []
      | b0 :: r0 =>
          if (b0 <? 128)%N then t ← utf8_decode fuel r0; Some (b0 :: t)
          else if ((194 <=? b0) && (b0 <=? 223))%N then
            match r0 with
            | b1 :: r1 =>
                if is_cont b1 then
                  t ← utf8_decode fuel r1;
                  Some (((b0 - 192) * 64 + (b1 - 128))%N :: t)
                else None
            | _ => None
            end
          else if ((224 <=? b0) && (b0 <=? 239))%N then
            match r0 with
            | b1 :: b2 :: r2 =>
                let cp := ((b0 - 224) * 4096 + (b1 - 128) * 64 + (b2 - 128))%N in
                if is_cont b1 && is_cont b2 && (2048 <=? cp)%N
                   && negb ((55296 <=? cp) && (cp <=? 57343))%N then
                  t ← utf8_decode fuel r2; Some (cp :: t)
                else None
            | _ => None
            end
          else if ((240 <=? b0) && (b0 <=? 244))%N then
            match r0 with
            | b1 :: b2 :: b3 :: r3 =>
                let cp := ((b0 - 240) * 262144 + (b1 - 128) * 4096
                           + (b2 - 128) * 64 + (b3 - 128))%N in
                if is_cont b1 && is_cont b2 && is_cont b3
                   && (65536 <=? cp)%N && (cp <=? 1114111)%N then
                  t ← utf8_decode fuel r3;
                  Some ((55296 + (cp - 65536) / 1024)%N
                        :: (56320 + (cp - 65536) mod 1024)%N :: t)
                else None
            | _ => None
            end
          else None
      end
  end.

Definition decodeURIComponent (s : jsstring) : res jsstring :=
  match unescape_bytes s ≫= (fun bs => utf8_decode (S (length bs)) bs) with
  | Some t => Ok t
  | None => Thrown URIError
  end.

Definition ToNumber (v : value) : number :=
  match v with
  | VNull => Num 0
  | VBool b => Num (if b then 1 else 0)
  | VNum n => n
  | VStr s =>
      match Schema.trim s with
      | [] => Num 0
      | c :: rest =>
          if forallb is_digit (c :: rest)
          then Num (fst (parse_digits 0 (c :: rest)))
          else NaN
      end
  | _ => NaN
  end.

Definition ToString (v : value) : jsstring :=
  match v with
  | VUndefined => js "undefined"
  | VNull => js "null"
  | VBool true => js "true"
  | VBool false => js "false"
  | VNum (Num z) => decimal z
  | VNum NaN => js "NaN"
  | VStr s => s
  | VArr _ => []
  | VObj _ => js "[object Object]"
  end.

Definition makeRedirectUri (scheme : value) (path : jsstring) : jsstring :=
  match scheme with
  | VStr s => s ++ js "://" ++ path
  | _ => js "http://localhost:8081/" ++ path
  end.

Definition host (platform : jsstring) : Host :=
  {| JS.JSON_parse := parse;
     JS.JSON_stringify := stringify;
     JS.decodeURIComponent := decodeURIComponent;
     JS.ToNumber := ToNumber;
     JS.ToString := ToString;
     JS.Platform_OS := platform;
     JS.makeRedirectUri := makeRedirectUri |}.

End RefHost.

(* ===================================================================== *)
(** ** Notions used to state the properties *)
(* ===================================================================== *)

Module Props.
Import JS Async Auth.

Section Provider.
Context `{Host}.
Variable project_id : jsstring.

(** [token] is a JWT whose payload segment decodes to [payload]: every
    stage inside [decodeJWT]'s [try] succeeds. *)
Definition decodable (token payload : value) : Prop :=
  ∃ s base64Url decoded jsonPayload,
    token = VStr s
    ∧ split 46 s !! 1%nat = Some base64Url
    ∧ atob (replace_all 95 47 (replace_all 45 43 base64Url)) = Ok decoded
    ∧ decodeURIComponent (percent_encode decoded) = Ok jsonPayload
    ∧ JSON_parse jsonPayload = Ok payload.

(** The persisted token pair, as [fetchToken] reads it: the storage
    adapter yields a non-empty string that parses to an object holding
    [accessToken] and [refreshToken]. *)
Definition stored_pair (E : env) (w : world) (accessToken refreshToken : value)
    : Prop :=
  ∃ c s parsed,
    run E (storageAdapter_getItem TOKEN_STORAGE_KEY) w = (Ok (Some (c :: s)), w)
    ∧ JSON_parse (c :: s) = Ok parsed
    ∧ get parsed (js "accessToken") = Ok accessToken
    ∧ get parsed (js "refreshToken") = Ok refreshToken.

(** What [refreshAccessToken] settles with, given the outcome of its
    request. *)
Definition refresh_outcome (fetched : res response) : res value :=
  response ← fetched;
  if negb (ok response) then
    Thrown (Error (js "Failed to refresh token: " ++ text response))
  else
    tokenData ← JSON_parse (text response);
    get tokenData (js "access_token");;
    get tokenData (js "refresh_token");;
    get tokenData (js "access_token").

(** [n] calls of [fetchToken] made in the same turn. *)
Definition calls (n : nat) : list (prog value) :=
  replicate n (fetchToken project_id).

(** The schedules of [n] concurrent calls: every call first performs its
    read of the store, in call order, and the calls then advance in any
    order. *)
Definition concurrent_calls (E : env) (n : nat) (sched : list nat) (w : world)
    : list (prog value) * world :=
  exec E (seq 0 n ++ sched) (calls n, w).

Definition all_settled {A} (tasks : list (prog A)) : Prop :=
  Forall (fun p => is_Some (settled p)) tasks.

(** The property of the specification: whatever the number of concurrent
    callers that find the stored token stale, one exchange request is
    issued and every caller gets the same token. *)
Definition single_flight : Prop :=
  ∀ E w n sched accessToken refreshToken,
    2 ≤ n →
    stored_pair E w accessToken refreshToken →
    run E (isTokenExpired accessToken) w = (Ok true, w) →
    let c := concurrent_calls E n sched w in
    all_settled c.1 →
    length (requests c.2) = S (length (requests w))
    ∧ ∃ r, Forall (fun p => settled p = Some r) c.1.

End Provider.

(** A task that only writes to the stores before it settles with [r]. *)
Inductive quiet {A} : prog A -> res A -> Prop :=
| quiet_ret a : quiet (Ret a) (Ok a)
| quiet_throw e : quiet (Throw e) (Thrown e)
| quiet_local k v cont r :
    quiet (cont tt) r -> quiet (Do (LocalSet k v) cont) r
| quiet_secure k v cont r :
    quiet (cont tt) r -> quiet (Do (SecureSet k v) cont) r.

(** A task that has its exchange still ahead: it reads the clock or not,
    sends the request [req], and from the response on only writes to the
    stores before it settles with [outcome response]. *)
Inductive pending (E : env) (req : request)
    (outcome : res response -> res value) : prog value -> Prop :=
| pending_clock cont :
    pending E req outcome (cont (now E)) ->
    pending E req outcome (Do DateNow cont)
| pending_fetch cont :
    (forall fetched, quiet (cont fetched) (outcome fetched)) ->
    pending E req outcome (Do (Fetch req) cont).

(** Bookkeeping for calls in flight: per call, [None] while its exchange
    is ahead, [Some k] once it has sent request number [k]. *)
Definition in_stage (E : env) (req : request)
    (outcome : res response -> res value)
    (p : prog value) (st : option nat) : Prop :=
  match st with
  | None => pending E req outcome p
  | Some k => quiet p (outcome (server E k req))
  end.

Definition issued (sts : list (option nat)) : list nat := omap id sts.

(** What holds of the calls and the request log at every moment, [base]
    being the log when the calls were made. *)
Definition in_flight (E : env) (req : request)
    (outcome : res response -> res value) (base : list request)
    (c : list (prog value) * world) (sts : list (option nat)) : Prop :=
  Forall2 (in_stage E req outcome) c.1 sts
  ∧ requests c.2 = base ++ replicate (length (issued sts)) req
  ∧ issued sts ≡ₚ seq (length base) (length (issued sts)).

End Props.

(* ===================================================================== *)
(** ** Example data *)
(* ===================================================================== *)

Module Examples.
Import JS Async Auth.

Definition web : Host := RefHost.host (js "web").
Definition ios : Host := RefHost.host (js "ios").

Definition project : jsstring := js "YOUR_PROJECT_ID".

(** A token with the given payload: header, base64 payload, signature. *)
Definition jwt (payload : value) : value :=
  VStr (js "eyJhbGciOiJIUzI1NiJ9." ++ Base64.encode (RefHost.stringify payload)
        ++ js ".c2lnbmF0dXJl").

(** Expires 2023-11-14T22:13:20Z. *)
Definition stale_jwt : value := jwt (VObj [(js "exp", VNum (Num 1700000000))]).
(** Expires 2033-05-18T03:33:20Z; [n] tells the issued tokens apart. *)
Definition fresh_jwt (n : nat) : value :=
  jwt (VObj [(js "exp", VNum (Num 2000000000)); (js "jti", VNum (Num (Z.of_nat n)))]).
(** A token whose payload carries no [exp]. *)
Definition no_exp_jwt : value := jwt (VObj [(js "sub", VStr (js "user-1"))]).

Definition pair_json (accessToken refreshToken : value) : jsstring :=
  RefHost.stringify (VObj [(js "accessToken", accessToken);
                           (js "refreshToken", refreshToken)]).

Definition token_response (n : nat) : response :=
  {| ok := true; status := 200; statusText := js "OK";
     text := RefHost.stringify
       (VObj [(js "access_token", fresh_jwt n);
              (js "refresh_token", VStr (js "refresh-" ++ RefHost.decimal (Z.of_nat n)));
              (js "token_type", VStr (js "Bearer"));
              (js "expires_in", VNum (Num 3600))]) |}.

Definition userinfo_response : response :=
  {| ok := true; status := 200; statusText := js "OK";
     text := RefHost.stringify
       (VObj [(js "id", VStr (js "user-1"));
              (js "email", VStr (js "ada@example.org"));
              (js "username", VStr (js "ada"));
              (js "name", VStr (js "Ada"))]) |}.

Definition server_error : response :=
  {| ok := false; status := 500; statusText := js "Internal Server Error";
     text := js "unavailable" |}.

(** An identity provider that answers every token request with a new
    token pair and every user-info request with the profile. *)
Definition idp (n : nat) (r : request) : res response :=
  if bool_decide (url r = tokenEndpoint) then Ok (token_response n)
  else if bool_decide (url r = userInfoEndpoint) then Ok userinfo_response
  else Thrown (TypeError (js "Network request failed")).

(** The same provider with the user-info endpoint failing. *)
Definition idp_userinfo_down (n : nat) (r : request) : res response :=
  if bool_decide (url r = tokenEndpoint) then Ok (token_response n)
  else if bool_decide (url r = userInfoEndpoint) then Ok server_error
  else Thrown (TypeError (js "Network request failed")).

(** 2023-11-14T22:13:20Z, in milliseconds. *)
Definition E0 : env :=
  {| now := 1700000000000; server := idp;
     prompt := Ok {| ptype := js "success";
                     params := VObj [(js "code", VStr (js "code-1"))] |};
     random := fun n => replicate n 7%N |}.

Definition E_userinfo_down : env :=
  {| now := 1700000000000; server := idp_userinfo_down;
     prompt := Ok {| ptype := js "success";
                     params := VObj [(js "code", VStr (js "code-1"))] |};
     random := fun n => replicate n 7%N |}.

(** Nothing stored, nobody signed in. *)
Definition w0 : world :=
  {| localStorage := ∅; sessionStorage := ∅; secureStore := ∅;
     authState := signedOut; requests := [];
     window_location := {| pathname := js "/"; search := [] |};
     navigated := None |}.

(** A browser holding the pair [(accessToken, "refresh-0")]. *)
Definition w_web (accessToken : value) : world :=
  upd_localStorage
    (insert TOKEN_STORAGE_KEY
       (Base64.encode (pair_json accessToken (VStr (js "refresh-0"))))) w0.

(** A device holding the pair [(accessToken, "refresh-0")]. *)
Definition w_device (accessToken : value) : world :=
  upd_secureStore
    (insert TOKEN_STORAGE_KEY (pair_json accessToken (VStr (js "refresh-0")))) w0.

(** The browser after the identity provider redirected back with
    [code] and [state], the login attempt having stored [stored]. *)
Definition w_callback (code state stored : jsstring) : world :=
  set_location
    {| pathname := js "/oauth/callback";
       search := [(js "code", code); (js "state", state)] |}
    (upd_sessionStorage (insert (js "basic_oauth_state") stored) w0).

End Examples.

(* ===================================================================== *)
(** ** src/index.tsx: restoring a session *)
(* ===================================================================== *)

Module Restore.
Import JS Async Auth.

Section Provider.
Context `{Host}.
Variable project_id : jsstring.

(** [verifyToken]: one request to the user-info endpoint; any failure of
    the transport counts as "not valid". *)
Definition verifyToken (token : value) : prog bool :=
  try_catch
    (fetched ← perform_op (Fetch
       {| url := userInfoEndpoint; method := js "GET";
          headers := [(js "Authorization", js "Bearer " ++ toString token)];
          body := None |});
     response ← lift fetched;
     mret (ok response))
    (fun _ => mret false).

(** [loadStoredAuth], which the provider's mount effect starts.  Its
    [finally] clause sets the React state [isLoading] to [false]; that
    flag lies outside [world] and is set when this program ends, whichever
    way it ends. *)
Definition loadStoredAuth : prog unit :=
  try_catch
    (storedTokens ← storageAdapter_getItem TOKEN_STORAGE_KEY;
     storedUserInfo ← storageAdapter_getItem USER_INFO_STORAGE_KEY;
     match storedTokens, storedUserInfo with
     | Some (c :: s), Some (c' :: s') =>
         parsed ← lift (JSON_parse (c :: s));
         stored_access ← lift (get parsed (js "accessToken"));
         stored_refresh ← lift (get parsed (js "refreshToken"));
         userInfo ← lift (JSON_parse (c' :: s'));
         valid ← verifyToken stored_access;
         if (valid : bool) then
           perform_op (SetAuthState
             {| accessToken := stored_access; refreshToken := stored_refresh;
                user := userInfo; isSignedIn := true |})
         else
           refreshAccessToken project_id stored_refresh;; Ret tt
     | _, _ => Ret tt
     end)
    (fun _ => Ret tt).

End Provider.
End Restore.

(* ===================================================================== *)
(** ** db.ts: TableClient and BasicDBSDK *)
(* ===================================================================== *)

Module Db.
Import JS Async.

(** [class DBError extends Error]: message, and the optional status,
    response and original error ([undefined] when not given). *)
Record DBError : Type := {
  message : jsstring;
  status : option Z;
  response : value;
  originalError : option exn;
}.

(** How a table operation settles: with the [data] of the envelope, or
    rejected with a [DBError].  (A rejection with any other error is a
    [Throw] of the program.) *)
Inductive reply : Type :=
| Data (data : value)
| Rejected (error : DBError).

(** [Object.keys(v)]: throws on [null] and [undefined]; a string has its
    indices as keys. *)
Definition Object_keys (v : value) : res (list jsstring) :=
  match v with
  | VUndefined | VNull =>
      Thrown (TypeError (js "Cannot convert undefined or null to object"))
  | VStr s => Ok (map index_key (seq 0 (length s)))
  | _ => Ok (keys v)
  end.

(** [a || b] on values. *)
Definition value_or (a b : value) : value := if truthy a then a else b.

(** [class TableClient]; its [token] field is a placeholder that no
    method reads, and is left out. *)
Record TableClient : Type := {
  baseUrl : jsstring;
  projectId : jsstring;
  table : jsstring;
  getToken : prog value;
}.

Record SDKConfig : Type := {
  config_project_id : jsstring;
  config_token : option jsstring;
  config_getToken : option (prog value);
  config_baseUrl : option jsstring;
  config_schema : value;
}.

Record BasicDBSDK : Type := {
  sdk_projectId : jsstring;
  sdk_getToken : prog value;
  sdk_baseUrl : jsstring;
  sdk_schema : value;
  tableNames : list jsstring;
}.

Section Client.
Context `{Host}.
(** [error.message] of an error the engine raises (SyntaxError, URIError,
    InvalidCharacterError); the text is the engine's choice. *)
Variable engine_message : exn -> jsstring.

Definition error_message (e : exn) : jsstring :=
  match e with
  | Error m | TypeError m => m
  | _ => engine_message e
  end.

(** [private async headers()] *)
Definition TableClient_headers (c : TableClient)
    : prog (list (jsstring * jsstring)) :=
  token ← getToken c;
  mret [(js "Authorization", js "Bearer " ++ toString token);
        (js "Content-Type", js "application/json")].

(** [typeof v === 'object' ? JSON.stringify(v) : v] *)
Definition details (v : value) : value :=
  match typeof v with
  | TyObject => VStr (JSON_stringify v)
  | _ => v
  end.

(** [`${res.status} ${res.statusText}`] *)
Definition status_line (res : Async.response) : jsstring :=
  toString (VNum (Num (Async.status res))) ++ js " " ++ statusText res.

(** The error branch of [handleRequest]: the message and the data the
    [DBError] is built from.  [errorData] is assigned as soon as the body
    has parsed, before [json.error] is read. *)
Definition error_report (res : Async.response) : jsstring * value :=
  match JSON_parse (text res) with
  | Thrown _ => (status_line res, VUndefined)
  | Ok json =>
      match get json (js "error"), get json (js "message") with
      | Ok error, Ok message =>
          if truthy error || truthy message then
            (status_line res ++ js ": "
             ++ toString (value_or (details message)
                            (value_or (details error)
                               (VStr (js "Unknown error")))),
             json)
          else
            (js "Request failed with status "
             ++ toString (VNum (Num (Async.status res))), json)
      | _, _ => (status_line res, json)
      end
  end.

(** [error instanceof TypeError && error.message === 'Network request failed'] *)
Definition is_network_failure (error : exn) : bool :=
  match error with
  | TypeError m => bool_decide (m = js "Network request failed")
  | _ => false
  end.

(** What the [catch] of [handleRequest] turns a caught error into. *)
Definition normalise (error : exn) : DBError :=
  if is_network_failure error then
    {| message := js "Network request failed. Please check your internet connection and try again.";
       status := None; response := VUndefined; originalError := Some error |}
  else
    {| message := js "Unexpected error: " ++ error_message error;
       status := None; response := VUndefined; originalError := Some error |}.

(** [private async handleRequest(request)].  [request] is the outcome of
    the [fetch] the caller has already started.  The first statement of
    the [try] logs [await this.headers()], a second call of [getToken].
    A [DBError] thrown inside the [try] is rethrown by the [catch] as it
    is. *)
Definition TableClient_handleRequest (c : TableClient)
    (request : res Async.response) : prog reply :=
  try_catch
    (TableClient_headers c;;
     res ← lift request;
     if negb (ok res) then
       let '(errorMessage, errorData) := error_report res in
       mret (Rejected {| message := errorMessage;
                         status := Some (Async.status res);
                         response := errorData; originalError := None |})
     else
       json ← lift (JSON_parse (text res));
       data ← lift (get json (js "data"));
       mret (Data data))
    (fun error => mret (Rejected (normalise error))).

(** [`${this.baseUrl}/account/${this.projectId}/db/${this.table}`] *)
Definition table_url (c : TableClient) : jsstring :=
  baseUrl c ++ js "/account/" ++ projectId c ++ js "/db/" ++ table c.

(** [JSON.stringify({ value })] *)
Definition value_body (value : value) : jsstring :=
  JSON_stringify (VObj [(js "value", value)]).

Definition TableClient_getAll (c : TableClient) (query_id : option jsstring)
    : prog reply :=
  let params :=
    match query_id with
    | Some (ch :: id) => js "?id=" ++ ch :: id
    | _ => []
    end in
  headers ← TableClient_headers c;
  fetched ← perform_op (Fetch
    {| url := table_url c ++ params; method := js "GET";
       Async.headers := headers; body := None |});
  TableClient_handleRequest c fetched.

Definition TableClient_add (c : TableClient) (value : value) : prog reply :=
  headers ← TableClient_headers c;
  fetched ← perform_op (Fetch
    {| url := table_url c; method := js "POST";
       Async.headers := headers; body := Some (value_body value) |});
  TableClient_handleRequest c fetched.

Definition TableClient_update (c : TableClient) (id : jsstring) (value : value)
    : prog reply :=
  headers ← TableClient_headers c;
  fetched ← perform_op (Fetch
    {| url := table_url c ++ js "/" ++ id; method := js "PATCH";
       Async.headers := headers; body := Some (value_body value) |});
  TableClient_handleRequest c fetched.

Definition TableClient_replace (c : TableClient) (id : jsstring) (value : value)
    : prog reply :=
  headers ← TableClient_headers c;
  fetched ← perform_op (Fetch
    {| url := table_url c ++ js "/" ++ id; method := js "PUT";
       Async.headers := headers; body := Some (value_body value) |});
  TableClient_handleRequest c fetched.

Definition TableClient_delete (c : TableClient) (id : jsstring) : prog reply :=
  token ← getToken c;
  let headers := [(js "Authorization", js "Bearer " ++ toString token)] in
  fetched ← perform_op (Fetch
    {| url := table_url c ++ js "/" ++ id; method := js "DELETE";
       Async.headers := headers; body := None |});
  TableClient_handleRequest c fetched.

Definition TableClient_get (c : TableClient) (id : jsstring) : prog reply :=
  headers ← TableClient_headers c;
  fetched ← perform_op (Fetch
    {| url := table_url c ++ js "/" ++ id; method := js "GET";
       Async.headers := headers; body := None |});
  TableClient_handleRequest c fetched.

(** The constructor's choice of token supplier: [config.getToken] when
    given, else a supplier of the static [config.token] when that is a
    non-empty string, else an error. *)
Definition token_supplier (config : SDKConfig) : res (prog value) :=
  match config_getToken config, config_token config with
  | Some g, _ => Ok g
  | None, Some (ch :: t) => Ok (Ret (VStr (ch :: t)))
  | None, _ =>
      Thrown (Error (js "Either token or getToken must be provided"))
  end.

(** [new BasicDBSDK(config)] *)
Definition new_BasicDBSDK (config : SDKConfig) : res BasicDBSDK :=
  supplier ← token_supplier config;
  let baseUrl := match config_baseUrl config with
                 | Some (ch :: u) => ch :: u
                 | _ => js "https://api.basic.tech"
                 end in
  tables ← get (config_schema config) (js "tables");
  names ← Object_keys tables;
  Ok {| sdk_projectId := config_project_id config; sdk_getToken := supplier;
        sdk_baseUrl := baseUrl; sdk_schema := config_schema config;
        tableNames := names |}.

(** [from(table)] *)
Definition BasicDBSDK_from (sdk : BasicDBSDK) (table : jsstring)
    : res TableClient :=
  if negb (bool_decide (table ∈ tableNames sdk)) then
    Thrown (Error (js "Table '" ++ table
                   ++ js "' not found in schema. Available tables: "
                   ++ Auth.join (js ", ") (tableNames sdk)))
  else
    Ok {| baseUrl := sdk_baseUrl sdk; projectId := sdk_projectId sdk;
          Db.table := table; getToken := sdk_getToken sdk |}.

(** [fields(table)] *)
Definition BasicDBSDK_fields (sdk : BasicDBSDK) (table : jsstring)
    : res (list jsstring) :=
  tables ← get (sdk_schema sdk) (js "tables");
  entry ← get tables table;
  fields ← get entry (js "fields");
  Object_keys fields.

(** The [db] the provider builds with [useMemo]: [project_id] is
    [schema.project_id] (spliced into the request URLs, hence its string
    form), and [getToken] wraps [fetchToken]. *)
Definition provider_db (client_id : jsstring) (schema : value)
    : res BasicDBSDK :=
  schema_project_id ← get schema (js "project_id");
  new_BasicDBSDK
    {| config_project_id := toString schema_project_id; config_token := None;
       config_getToken := Some (Auth.getToken client_id);
       config_baseUrl := None; config_schema := schema |}.

End Client.
End Db.

(* ===================================================================== *)
(** ** Notions used to state further properties *)
(* ===================================================================== *)

Module MoreProps.
Import JS Async Auth Props.

Section Provider.
Context `{Host}.
Variable project_id : jsstring.




(** The two requests of [handleLoginCode]. *)
Definition code_request (code : value) : request :=
  {| url := tokenEndpoint; method := js "POST"; headers := json_headers;
     body := Some (JSON_stringify (code_body project_id code)) |}.

Definition userinfo_request (access_token : value) : request :=
  {| url := userInfoEndpoint; method := js "GET";
     headers := [(js "Authorization", js "Bearer " ++ toString access_token)];
     body := None |}.

(** The exchange [handleLoginCode] needs to go through: the token
    endpoint answers the first request with a JSON body that is not
    [null], and the user-info endpoint answers the next one with a JSON
    body. *)
Definition login_exchange (E : env) (w : world) (code : value)
    (access refresh userInfo : value) : Prop :=
  ∃ tokenResponse tokenData userInfoResponse,
    server E (length (requests w)) (code_request code) = Ok tokenResponse
    ∧ ok tokenResponse = true
    ∧ JSON_parse (text tokenResponse) = Ok tokenData
    ∧ get tokenData (js "access_token") = Ok access
    ∧ get tokenData (js "refresh_token") = Ok refresh
    ∧ server E (S (length (requests w))) (userinfo_request access)
      = Ok userInfoResponse
    ∧ ok userInfoResponse = true
    ∧ JSON_parse (text userInfoResponse) = Ok userInfo.

(** A text the storage adapter can hold and give back: not empty, and
    Latin-1 where [btoa] is in the way. *)
Definition storable (text : jsstring) : Prop :=
  text ≠ [] ∧ (Platform_OS = js "web" -> Forall (fun c => (c <= 255)%N) text).

(** [JSON.parse(JSON.stringify(v))] is [v] again. *)
Definition round_trips (v : value) : Prop :=
  JSON_parse (JSON_stringify v) = Ok v.

(** The stored form of a token pair. *)
Definition pair_of (access refresh : value) : value :=
  VObj [(js "accessToken", access); (js "refreshToken", refresh)].

(** The profile held under the user-info key. *)
Definition stored_user (E : env) (w : world) (userInfo : value) : Prop :=
  ∃ c s,
    run E (storageAdapter_getItem USER_INFO_STORAGE_KEY) w
    = (Ok (Some (c :: s)), w)
    ∧ JSON_parse (c :: s) = Ok userInfo.

(** Whether the user-info endpoint accepts the token at the next
    request. *)
Definition verified (E : env) (w : world) (access : value) : bool :=
  match server E (length (requests w)) (userinfo_request access) with
  | Ok response => ok response
  | Thrown _ => false
  end.

(** Two states that hold the same secrets. *)
Definition same_stores (w w' : world) : Prop :=
  localStorage w = localStorage w' ∧ secureStore w = secureStore w'.

(** The state [handleLoginCode] leaves when it has gone through. *)
Definition after_login (E : env) (w : world) (code access refresh userInfo : value)
    : world :=
  let w1 := log_request (code_request code) w in
  let w2 := (run E (storageAdapter_setItem TOKEN_STORAGE_KEY
                      (JSON_stringify (pair_of access refresh))) w1).2 in
  let w3 := log_request (userinfo_request access) w2 in
  let w4 := (run E (storageAdapter_setItem USER_INFO_STORAGE_KEY
                      (JSON_stringify userInfo)) w3).2 in
  set_authState {| accessToken := access; refreshToken := refresh;
                   user := userInfo; isSignedIn := true |} w4.

End Provider.
End MoreProps.

(* ===================================================================== *)
(** ** Notions used to state properties of the table client *)
(* ===================================================================== *)

Module DbProps.
Import JS Async Db.

(** The public methods of [TableClient] with their arguments. *)
Inductive operation : Type :=
| GetAll (query_id : option jsstring)
| Add (value : value)
| Update (id : jsstring) (value : value)
| Replace (id : jsstring) (value : value)
| Delete (id : jsstring)
| Get (id : jsstring).

Section Client.
Context `{Host}.
Variable engine_message : exn -> jsstring.

Definition invoke (c : TableClient) (o : operation) : prog reply :=
  match o with
  | GetAll query_id => TableClient_getAll engine_message c query_id
  | Add value => TableClient_add engine_message c value
  | Update id value => TableClient_update engine_message c id value
  | Replace id value => TableClient_replace engine_message c id value
  | Delete id => TableClient_delete engine_message c id
  | Get id => TableClient_get engine_message c id
  end.

Definition bearer (token : value) : jsstring * jsstring :=
  (js "Authorization", js "Bearer " ++ toString token).

(** The request a method sends once it holds the token. *)
Definition request_of (c : TableClient) (o : operation) (token : value)
    : request :=
  let json := [bearer token; (js "Content-Type", js "application/json")] in
  match o with
  | GetAll query_id =>
      {| url := table_url c ++ match query_id with
                               | Some (ch :: id) => js "?id=" ++ ch :: id
                               | _ => []
                               end;
         method := js "GET"; headers := json; body := None |}
  | Add value =>
      {| url := table_url c; method := js "POST"; headers := json;
         body := Some (value_body value) |}
  | Update id value =>
      {| url := table_url c ++ js "/" ++ id; method := js "PATCH";
         headers := json; body := Some (value_body value) |}
  | Replace id value =>
      {| url := table_url c ++ js "/" ++ id; method := js "PUT";
         headers := json; body := Some (value_body value) |}
  | Delete id =>
      {| url := table_url c ++ js "/" ++ id; method := js "DELETE";
         headers := [bearer token]; body := None |}
  | Get id =>
      {| url := table_url c ++ js "/" ++ id; method := js "GET";
         headers := json; body := None |}
  end.

End Client.
End DbProps.

(* ===================================================================== *)
(** ** More example data *)
(* ===================================================================== *)

Module MoreExamples.
Import JS Async Auth.

(** A token whose [exp] is a word, which no number parser accepts. *)
Definition worded_exp_jwt : value :=
  Examples.jwt (VObj [(js "exp", VStr (js "soon"))]).

(** An identity provider whose token endpoint answers 500. *)
Definition E_token_down : env :=
  {| now := 1700000000000;
     server := fun _ r =>
       if bool_decide (url r = tokenEndpoint) then Ok Examples.server_error
       else Ok Examples.userinfo_response;
     prompt := prompt Examples.E0; random := random Examples.E0 |}.

(** An identity provider whose token response carries no [access_token]. *)
Definition E_no_access_token : env :=
  {| now := 1700000000000;
     server := fun _ r =>
       Ok {| ok := true; status := 200; statusText := js "OK";
             text := RefHost.stringify
               (VObj [(js "token_type", VStr (js "Bearer"))]) |};
     prompt := prompt Examples.E0; random := random Examples.E0 |}.

(** The user dismisses the sign-in prompt. *)
Definition E_cancelled : env :=
  {| now := 1700000000000; server := Examples.idp;
     prompt := Ok {| ptype := js "dismiss"; params := VObj [] |};
     random := random Examples.E0 |}.

(** A browser at the callback path with a code and no [state] parameter,
    no login attempt having stored one. *)
Definition w_stateless_callback : world :=
  set_location
    {| pathname := js "/oauth/callback";
       search := [(js "code", js "code-1")] |} Examples.w0.

(** The profile the identity provider of the examples returns. *)
Definition profile : value :=
  VObj [(js "id", VStr (js "user-1"));
        (js "email", VStr (js "ada@example.org"));
        (js "username", VStr (js "ada"));
        (js "name", VStr (js "Ada"))].

(** A device that holds a token pair and the profile, just started. *)
Definition w_restart (accessToken : value) : world :=
  upd_secureStore (insert USER_INFO_STORAGE_KEY (RefHost.stringify profile))
    (Examples.w_device accessToken).

(** The message text of engine-raised errors in the examples. *)
Definition engine_text (e : exn) : jsstring := js "engine error".

(** A client for the table [notes] with a static token. *)
Definition notes : Db.TableClient :=
  {| Db.baseUrl := js "https://api.basic.tech";
     Db.projectId := js "YOUR_PROJECT_ID";
     Db.table := js "notes"; Db.getToken := Ret (VStr (js "token-1")) |}.

(** A server that gives every request the same answer. *)
Definition E_db (answer : res response) : env :=
  {| now := 1700000000000; server := fun _ _ => answer;
     prompt := prompt Examples.E0; random := random Examples.E0 |}.

Definition not_found : response :=
  {| ok := false; status := 404; statusText := js "Not Found";
     text := RefHost.stringify
       (VObj [(js "message", VStr (js "no such record"))]) |}.

Definition one_note : value :=
  VArr [VObj [(js "id", VStr (js "n1")); (js "title", VStr (js "hello"))]].

Definition found : response :=
  {| ok := true; status := 200; statusText := js "OK";
     text := RefHost.stringify (VObj [(js "data", one_note)]) |}.

(** A supplier that asks a token service each time it is called. *)
Definition remote_token : prog value :=
  fetched ← perform_op (Fetch
    {| url := js "https://tokens.example.org/"; method := js "GET";
       headers := []; body := None |});
  answer ← lift fetched;
  if ok answer then mret (VStr (text answer))
  else Throw (Error (js "no token")).

Definition remote_notes : Db.TableClient :=
  {| Db.baseUrl := js "https://api.basic.tech";
     Db.projectId := js "YOUR_PROJECT_ID";
     Db.table := js "notes"; Db.getToken := remote_token |}.

(** The token service answers once and is down afterwards; the database
    answers with the note. *)
Definition E_token_service_fails : env :=
  {| now := 1700000000000;
     server := fun n r =>
       if bool_decide (url r = js "https://tokens.example.org/") then
         if bool_decide (n = 0%nat) then
           Ok {| ok := true; status := 200; statusText := js "OK";
                 text := js "token-1" |}
         else Ok Examples.server_error
       else Ok found;
     prompt := prompt Examples.E0; random := random Examples.E0 |}.

(** The configuration of an SDK with a static token. *)
Definition static_config : Db.SDKConfig :=
  {| Db.config_project_id := js "YOUR_PROJECT_ID";
     Db.config_token := Some (js "token-1"); Db.config_getToken := None;
     Db.config_baseUrl := None; Db.config_schema := Schema.notes_schema |}.

(** The [db] of the provider in a browser, for the notes schema, and its
    client for the table [notes]. *)
Definition web_sdk : Db.BasicDBSDK :=
  {| Db.sdk_projectId := js "YOUR_PROJECT_ID";
     Db.sdk_getToken := @Auth.getToken Examples.web Examples.project;
     Db.sdk_baseUrl := js "https://api.basic.tech";
     Db.sdk_schema := Schema.notes_schema;
     Db.tableNames := [js "notes"] |}.

Definition web_notes : Db.TableClient :=
  {| Db.baseUrl := js "https://api.basic.tech";
     Db.projectId := js "YOUR_PROJECT_ID";
     Db.table := js "notes";
     Db.getToken := @Auth.getToken Examples.web Examples.project |}.

End MoreExamples.

(* ===================================================================== *)
(** ** Facts: base64 *)
(* ===================================================================== *)

Module Base64Facts.
Import Base64.
Local Open Scope N_scope.

(** Lists three elements at a time. *)
Lemma list_ind3 {A} (P : list A -> Prop) :
  P [] -> (forall a, P [a]) -> (forall a b, P [a; b]) ->
  (forall a b c rest, P rest -> P (a :: b :: c :: rest)) ->
  forall l, P l.
Proof.
  intros H0 H1 H2 H3.
  fix IH 1. intros [|a [|b [|c rest]]];
    [apply H0 | apply H1 | apply H2 | apply H3, IH].
Qed.

Ltac split_divmod x d :=
  let q := fresh "q" in
  let r := fresh "r" in
  let Hq := fresh "Hq" in
  let Hr := fresh "Hr" in
  pose proof (N.div_mod x d ltac:(discriminate)) as Hq;
  pose proof (N.mod_lt x d ltac:(discriminate)) as Hr;
  set (q := x / d) in *; set (r := x mod d) in *;
  clearbody q r.

Lemma encode_sextets bytes :
  encode bytes = map b64_char (sextets bytes) ++ padding bytes.
Proof.
  induction bytes as [|a|a b|a b c rest IH] using list_ind3; try reflexivity.
  cbn [encode sextets padding map app]. now rewrite IH.
Qed.

Lemma b64_value_char n : n < 64 -> b64_value (b64_char n) = Some n.
Proof.
  intros Hn. unfold b64_char.
  destruct (N.ltb_spec n 26).
  { unfold b64_value.
    replace ((65 <=? 65 + n) && (65 + n <=? 90)) with true
      by (symmetry; apply andb_true_iff; split; apply N.leb_le; lia).
    f_equal; lia. }
  destruct (N.ltb_spec n 52).
  { unfold b64_value.
    replace ((65 <=? 97 + (n - 26)) && (97 + (n - 26) <=? 90)) with false
      by (symmetry; apply andb_false_iff; right; apply N.leb_gt; lia).
    replace ((97 <=? 97 + (n - 26)) && (97 + (n - 26) <=? 122)) with true
      by (symmetry; apply andb_true_iff; split; apply N.leb_le; lia).
    f_equal; lia. }
  destruct (N.ltb_spec n 62).
  { unfold b64_value.
    replace ((65 <=? 48 + (n - 52)) && (48 + (n - 52) <=? 90)) with false
      by (symmetry; apply andb_false_iff; left; apply N.leb_gt; lia).
    replace ((97 <=? 48 + (n - 52)) && (48 + (n - 52) <=? 122)) with false
      by (symmetry; apply andb_false_iff; left; apply N.leb_gt; lia).
    replace ((48 <=? 48 + (n - 52)) && (48 + (n - 52) <=? 57)) with true
      by (symmetry; apply andb_true_iff; split; apply N.leb_le; lia).
    f_equal; lia. }
  destruct (N.eqb_spec n 62) as [->|Hne]; [reflexivity|].
  assert (n = 63) as -> by lia. reflexivity.
Qed.

(** What an alphabet character can be. *)
Lemma b64_char_range n :
  let c := b64_char n in
  (65 <= c <= 90) \/ (97 <= c <= 122) \/ (48 <= c <= 57) \/ c = 43 \/ c = 47.
Proof.
  unfold b64_char.
  destruct (N.ltb_spec n 26); [lia|].
  destruct (N.ltb_spec n 52); [lia|].
  destruct (N.ltb_spec n 62); [lia|].
  destruct (N.eqb_spec n 62); lia.
Qed.

Lemma b64_char_not_pad n : (b64_char n =? pad) = false.
Proof.
  apply N.eqb_neq. pose proof (b64_char_range n). unfold pad. cbv zeta in *. lia.
Qed.

Lemma b64_char_not_ws n : is_ascii_ws (b64_char n) = false.
Proof.
  pose proof (b64_char_range n) as Hr. cbv zeta in Hr. unfold is_ascii_ws.
  repeat (apply orb_false_iff; split); apply N.eqb_neq; lia.
Qed.

Lemma strip_ws_encode bytes : strip_ws (encode bytes) = encode bytes.
Proof.
  unfold strip_ws.
  induction bytes as [|a|a b|a b c rest IH] using list_ind3;
    cbn [encode List.filter]; rewrite ?b64_char_not_ws; cbn [negb];
    try reflexivity.
  now rewrite IH.
Qed.

Lemma length_encode bytes :
  exists k, length (encode bytes) = (4 * k)%nat.
Proof.
  induction bytes as [|a|a b|a b c rest [k IH]] using list_ind3.
  - now exists 0%nat.
  - now exists 1%nat.
  - now exists 1%nat.
  - exists (S k). cbn [encode length]. rewrite IH. lia.
Qed.

Lemma length_encode_mod4 bytes : N.of_nat (length (encode bytes)) mod 4 = 0.
Proof.
  destruct (length_encode bytes) as [k ->].
  rewrite Nat2N.inj_mul. change (N.of_nat 4) with 4.
  rewrite N.mul_comm. now apply N.Div0.mod_mul.
Qed.

Lemma chop_pad_snoc l : chop_pad (l ++ [pad]) = l.
Proof.
  unfold chop_pad. rewrite last_snoc. rewrite N.eqb_refl.
  apply removelast_last.
Qed.

Lemma chop_pad_chars sx : chop_pad (map b64_char sx) = map b64_char sx.
Proof.
  unfold chop_pad. destruct (last (map b64_char sx)) as [c|] eqn:Hl; [|done].
  assert (exists n, c = b64_char n) as [n ->].
  { revert Hl. induction sx as [|s [|s' sx] IH]; cbn.
    - discriminate.
    - intros [= <-]. now exists s.
    - intros Hl. now apply IH. }
  now rewrite b64_char_not_pad.
Qed.

Lemma padding_cases bytes :
  padding bytes = [] \/ padding bytes = [pad] \/ padding bytes = [pad; pad].
Proof.
  induction bytes as [|a|a b|a b c rest IH] using list_ind3; cbn; auto.
Qed.

Lemma strip_padding_encode bytes :
  strip_padding (encode bytes) = map b64_char (sextets bytes).
Proof.
  unfold strip_padding. rewrite length_encode_mod4. cbn [N.eqb].
  rewrite encode_sextets.
  destruct (padding_cases bytes) as [-> | [-> | ->]].
  - rewrite app_nil_r. now rewrite !chop_pad_chars.
  - now rewrite chop_pad_snoc, chop_pad_chars.
  - change [pad; pad] with ([pad] ++ [pad]). rewrite app_assoc.
    now rewrite !chop_pad_snoc.
Qed.

Lemma sextets_lt bytes :
  Forall (fun b => b < 256) bytes -> Forall (fun s => s < 64) (sextets bytes).
Proof.
  induction bytes as [|a|a b|a b c rest IH] using list_ind3; intros Hb;
    cbn [sextets].
  - constructor.
  - inversion_clear Hb. split_divmod a 4. repeat constructor; lia.
  - inversion_clear Hb as [|? ? Ha Hb']. inversion_clear Hb' as [|? ? Hb _].
    split_divmod a 4. split_divmod b 16. repeat constructor; lia.
  - inversion_clear Hb as [|? ? Ha Hb']. inversion_clear Hb' as [|? ? Hb Hc'].
    inversion_clear Hc' as [|? ? Hc Hrest].
    split_divmod a 4. split_divmod b 16. split_divmod c 64.
    repeat (constructor; [lia|]). auto.
Qed.

Lemma mapM_b64_value sx :
  Forall (fun s => s < 64) sx -> mapM b64_value (map b64_char sx) = Some sx.
Proof.
  induction 1 as [|s sx Hs _ IH]; [reflexivity|].
  cbn [map]. cbn. rewrite b64_value_char by done. cbn.
  cbn in IH. now rewrite IH.
Qed.

Lemma length_sextets_mod4 bytes :
  N.of_nat (length (sextets bytes)) mod 4 <> 1.
Proof.
  induction bytes as [|a|a b|a b c rest IH] using list_ind3;
    cbn [sextets length]; try (cbn; discriminate).
  replace (N.of_nat (S (S (S (S (length (sextets rest))))))) with
    (N.of_nat (length (sextets rest)) + 1 * 4) by lia.
  now rewrite N.Div0.mod_add.
Qed.

Lemma quad_value a b c :
  ((a / 4 * 64 + ((a mod 4) * 16 + b / 16)) * 64
   + ((b mod 16) * 4 + c / 64)) * 64 + c mod 64
  = a * 65536 + b * 256 + c.
Proof. split_divmod a 4. split_divmod b 16. split_divmod c 64. lia. Qed.

Lemma quad_bytes a b c :
  a < 256 -> b < 256 -> c < 256 ->
  let n := a * 65536 + b * 256 + c in
  n / 65536 = a /\ (n / 256) mod 256 = b /\ n mod 256 = c.
Proof.
  intros Ha Hb Hc n. subst n. repeat split.
  - symmetry. apply (N.div_unique _ _ _ (b * 256 + c)); lia.
  - replace ((a * 65536 + b * 256 + c) / 256) with (a * 256 + b).
    + symmetry. apply (N.mod_unique _ _ a); lia.
    + apply (N.div_unique _ _ _ c); lia.
  - symmetry. apply (N.mod_unique _ _ (a * 256 + b)); lia.
Qed.

Lemma triple_bytes a b :
  a < 256 -> b < 256 ->
  let n := (a / 4 * 64 + ((a mod 4) * 16 + b / 16)) * 64 + (b mod 16) * 4 in
  n / 1024 = a /\ (n / 4) mod 256 = b.
Proof.
  intros Ha Hb n.
  assert (n = a * 1024 + b * 4) as ->
    by (subst n; split_divmod a 4; split_divmod b 16; lia).
  split.
  - symmetry. apply (N.div_unique _ _ _ (b * 4)); lia.
  - replace ((a * 1024 + b * 4) / 4) with (a * 256 + b).
    + symmetry. apply (N.mod_unique _ _ a); lia.
    + apply (N.div_unique _ _ _ 0); lia.
Qed.

Lemma pair_byte a :
  a < 256 -> (a / 4 * 64 + (a mod 4) * 16) / 16 = a.
Proof.
  intros Ha.
  assert (a / 4 * 64 + (a mod 4) * 16 = a * 16) as ->
    by (split_divmod a 4; lia).
  now apply N.div_mul.
Qed.

Lemma decode_sextets_sextets bytes :
  Forall (fun b => b < 256) bytes -> decode_sextets (sextets bytes) = bytes.
Proof.
  induction bytes as [|a|a b|a b c rest IH] using list_ind3; intros Hb.
  - reflexivity.
  - inversion_clear Hb. cbn [sextets decode_sextets]. now rewrite pair_byte.
  - inversion_clear Hb as [|? ? Ha Hb']. inversion_clear Hb' as [|? ? Hb _].
    cbn [sextets decode_sextets]. cbv zeta.
    destruct (triple_bytes a b Ha Hb) as [-> ->]. reflexivity.
  - inversion_clear Hb as [|? ? Ha Hb']. inversion_clear Hb' as [|? ? Hb Hc'].
    inversion_clear Hc' as [|? ? Hc Hrest].
    cbn [sextets decode_sextets]. cbv zeta. rewrite quad_value.
    destruct (quad_bytes a b c Ha Hb Hc) as (-> & -> & ->).
    now rewrite IH.
Qed.

(** Decoding undoes encoding on every sequence of bytes. *)
Lemma atob_encode bytes :
  Forall (fun b => b < 256) bytes -> atob (encode bytes) = Some bytes.
Proof.
  intros Hb. unfold atob.
  rewrite strip_ws_encode, strip_padding_encode.
  rewrite length_map.
  destruct (N.eqb_spec (N.of_nat (length (sextets bytes)) mod 4) 1) as [E|_].
  { now apply length_sextets_mod4 in E. }
  rewrite mapM_b64_value by now apply sextets_lt.
  now rewrite decode_sextets_sextets.
Qed.

Lemma btoa_Some s e :
  btoa s = Some e <-> Forall (fun c => c <= 255) s /\ e = encode s.
Proof.
  unfold btoa. destruct (forallb _ s) eqn:Hf.
  - rewrite forallb_forall in Hf. split.
    + intros [= <-]. split; [|done].
      apply Forall_forall. intros c Hin%list_elem_of_In.
      now apply N.leb_le, Hf.
    + now intros [_ ->].
  - split; [discriminate|]. intros [Hall _]. exfalso.
    assert (forallb (fun c => c <=? 255) s = true) as Hc; [|congruence].
    apply forallb_forall. intros c Hin%list_elem_of_In.
    rewrite Forall_forall in Hall. now apply N.leb_le, Hall.
Qed.

Lemma atob_btoa s e : btoa s = Some e -> atob e = Some s.
Proof.
  intros [Hall ->]%btoa_Some. apply atob_encode.
  eapply Forall_impl; [exact Hall|]. intros c Hc. cbn beta in *. lia.
Qed.

Lemma encode_nonempty bytes : bytes <> [] -> encode bytes <> [].
Proof. destruct bytes as [|a [|b [|c rest]]]; cbn; congruence. Qed.

End Base64Facts.

(* ===================================================================== *)
(** ** Facts: running programs *)
(* ===================================================================== *)

Module RunFacts.
Import JS Async Auth.

Lemma run_bind E {A B} (p : prog A) (f : A -> prog B) w :
  run E (p ≫= f) w =
  match run E p w with
  | (Ok a, w') => run E (f a) w'
  | (Thrown e, w') => (Thrown e, w')
  end.
Proof.
  revert w. induction p as [a|e|X o k IH]; intros w; try reflexivity.
  cbn. destruct (perform E o w) as [x w']. apply IH.
Qed.

Lemma run_try_catch E {A} (p : prog A) (h : exn -> prog A) w :
  run E (try_catch p h) w =
  match run E p w with
  | (Ok a, w') => (Ok a, w')
  | (Thrown e, w') => run E (h e) w'
  end.
Proof.
  revert w. induction p as [a|e|X o k IH]; intros w; try reflexivity.
  cbn. destruct (perform E o w) as [x w']. apply IH.
Qed.

Lemma run_lift E {A} (r : res A) w : run E (lift r) w = (r, w).
Proof. now destruct r. Qed.

(** Rethrowing in a [catch] changes nothing. *)
Lemma run_rethrow E {A} (p : prog A) w :
  run E (try_catch p (fun e => Throw e)) w = run E p w.
Proof.
  rewrite run_try_catch. now destruct (run E p w) as [[a|e] w'].
Qed.

Section Provider.
Context `{Host}.

Lemma is_web_true : Platform_OS = js "web" -> is_web = true.
Proof. intros Hw. unfold is_web. now apply bool_decide_eq_true. Qed.

Lemma run_setItem_web E key value w :
  is_web = true ->
  run E (storageAdapter_setItem key value) w =
  (Ok tt, match Base64.btoa value with
          | Some e => upd_localStorage (insert key e) w
          | None => w
          end).
Proof.
  intros Hw. unfold storageAdapter_setItem, btoa. rewrite Hw.
  now destruct (Base64.btoa value).
Qed.

Lemma run_setItem_native E key value w :
  is_web = false ->
  run E (storageAdapter_setItem key value) w =
  (Ok tt, upd_secureStore (insert key value) w).
Proof. intros Hw. unfold storageAdapter_setItem. now rewrite Hw. Qed.

Lemma run_getItem_web E key w :
  is_web = true ->
  run E (storageAdapter_getItem key) w =
  (Ok match localStorage w !! key with
      | Some (c :: e) => Base64.atob (c :: e)
      | _ => None
      end, w).
Proof.
  intros Hw. unfold storageAdapter_getItem, atob. rewrite Hw. cbn.
  destruct (localStorage w !! key) as [[|c e]|]; try reflexivity.
  now destruct (Base64.atob (c :: e)).
Qed.

Lemma run_getItem_native E key w :
  is_web = false ->
  run E (storageAdapter_getItem key) w = (Ok (secureStore w !! key), w).
Proof. intros Hw. unfold storageAdapter_getItem. now rewrite Hw. Qed.

Lemma run_deleteItem_web E key w :
  is_web = true ->
  run E (storageAdapter_deleteItem key) w =
  (Ok tt, upd_localStorage (delete key) w).
Proof. intros Hw. unfold storageAdapter_deleteItem. now rewrite Hw. Qed.

Lemma run_deleteItem_native E key w :
  is_web = false ->
  run E (storageAdapter_deleteItem key) w =
  (Ok tt, upd_secureStore (delete key) w).
Proof. intros Hw. unfold storageAdapter_deleteItem. now rewrite Hw. Qed.

(** The storage adapter never throws and leaves the request log, the
    authentication state and the location alone. *)
Lemma run_setItem_frame E key value w :
  let r := run E (storageAdapter_setItem key value) w in
  r.1 = Ok tt ∧ requests r.2 = requests w ∧ authState r.2 = authState w.
Proof.
  destruct is_web eqn:Hw.
  - rewrite run_setItem_web by done. now destruct (Base64.btoa value).
  - now rewrite run_setItem_native.
Qed.

Lemma run_getItem_frame E key w :
  ∃ v, run E (storageAdapter_getItem key) w = (Ok v, w).
Proof.
  destruct is_web eqn:Hw.
  - rewrite run_getItem_web by done. eauto.
  - rewrite run_getItem_native by done. eauto.
Qed.

Lemma run_signout_web E w :
  is_web = true ->
  run E signout w =
  (Ok tt, set_authState signedOut
            (upd_localStorage (delete USER_INFO_STORAGE_KEY)
               (upd_localStorage (delete TOKEN_STORAGE_KEY) w))).
Proof.
  intros Hw. unfold signout. rewrite run_try_catch, run_bind.
  rewrite run_deleteItem_web by done. rewrite run_bind.
  now rewrite run_deleteItem_web by done.
Qed.

Lemma run_signout_native E w :
  is_web = false ->
  run E signout w =
  (Ok tt, set_authState signedOut
            (upd_secureStore (delete USER_INFO_STORAGE_KEY)
               (upd_secureStore (delete TOKEN_STORAGE_KEY) w))).
Proof.
  intros Hw. unfold signout. rewrite run_try_catch, run_bind.
  rewrite run_deleteItem_native by done. rewrite run_bind.
  now rewrite run_deleteItem_native by done.
Qed.

Lemma keys_differ : TOKEN_STORAGE_KEY ≠ USER_INFO_STORAGE_KEY.
Proof. vm_compute. congruence. Qed.

Lemma delete_twice (m : gmap jsstring jsstring) k k' :
  delete k' (delete k (delete k' (delete k m))) = delete k' (delete k m).
Proof.
  apply map_eq. intros i. rewrite !lookup_delete. repeat case_decide; done.
Qed.

End Provider.
End RunFacts.

(* ===================================================================== *)
(** ** The storage adapter and sign-out *)
(* ===================================================================== *)

Module StorageClaims.
Import JS Async Auth RunFacts.

(** C9, at the empty string.  In a browser, [setItem] of the empty string
    followed by [getItem] of the same key yields [null], not the empty
    string that was stored: [btoa] maps the empty string to itself, and
    [getItem] takes an empty entry for a missing one. *)
Lemma web_roundtrip_loses_empty_string :
  let H := Examples.web in
  let key := js "user_info" in
  let r := run Examples.E0
             (storageAdapter_setItem key [];; storageAdapter_getItem key)
             Examples.w0 in
  Forall (fun c => (c <= 255)%N) ([] : jsstring)
  ∧ localStorage r.2 !! key = Some []
  ∧ r.1 = Ok None
  ∧ r.1 ≠ Ok (Some []).
Proof. cbv zeta. split; [constructor|]. vm_compute. repeat split; congruence. Qed.

Section Provider.
Context `{Host}.

(** C9, amended.  In a browser, for every key and every non-empty value of
    Latin-1 characters, [getItem(key)] after [setItem(key, value)] yields
    [value], because [atob] undoes [btoa]; [getItem] yields [null] for a
    key that holds nothing and for a key that was deleted. *)
Theorem web_storage_roundtrip E w key value missing :
  Platform_OS = js "web" ->
  Forall (fun c => (c <= 255)%N) value ->
  value ≠ [] ->
  localStorage w !! missing = None ->
  (∃ e, Base64.btoa value = Some e ∧ Base64.atob e = Some value)
  ∧ (run E (storageAdapter_setItem key value;; storageAdapter_getItem key) w).1
    = Ok (Some value)
  ∧ (run E (storageAdapter_getItem missing) w).1 = Ok None
  ∧ (run E (storageAdapter_deleteItem key;; storageAdapter_getItem key) w).1
    = Ok None.
Proof.
  intros Hw%is_web_true Hlatin Hne Hmiss.
  assert (Base64.btoa value = Some (Base64.encode value)) as Hb
    by now apply Base64Facts.btoa_Some.
  pose proof (Base64Facts.atob_btoa _ _ Hb) as Ha.
  split; [eauto|].
  split; [|split].
  - rewrite run_bind, run_setItem_web, Hb by done.
    rewrite run_getItem_web by done. cbn.
    rewrite lookup_insert_eq.
    destruct (Base64.encode value) as [|c e] eqn:He.
    + now apply Base64Facts.encode_nonempty in He.
    + now rewrite Ha.
  - rewrite run_getItem_web by done. cbn. now rewrite Hmiss.
  - rewrite run_bind, run_deleteItem_web by done.
    rewrite run_getItem_web by done. cbn. now rewrite lookup_delete_eq.
Qed.

(** C6.  [signout()] always completes; afterwards the storage adapter
    yields nothing under either key, [fetchToken()] rejects with the error
    "No tokens found - user not signed in" without sending a request, the
    authentication state is the signed-out record, and a second
    [signout()] completes and changes nothing. *)
Theorem signout_clears_session project_id E E' w :
  let w' := (run E signout w).2 in
  (run E signout w).1 = Ok tt
  ∧ run E' (storageAdapter_getItem TOKEN_STORAGE_KEY) w' = (Ok None, w')
  ∧ run E' (storageAdapter_getItem USER_INFO_STORAGE_KEY) w' = (Ok None, w')
  ∧ run E' (fetchToken project_id) w'
    = (Thrown (Error (js "No tokens found - user not signed in")), w')
  ∧ authState w' = signedOut
  ∧ run E' signout w' = (Ok tt, w').
Proof.
  pose proof keys_differ as Hkeys.
  cbv zeta. destruct is_web eqn:Hw.
  - rewrite !run_signout_web by done. cbn [fst snd].
    set (w' := set_authState _ _).
    assert (localStorage w' !! TOKEN_STORAGE_KEY = None) as Htok.
    { subst w'. cbn. rewrite lookup_delete_ne by done. apply lookup_delete_eq. }
    assert (localStorage w' !! USER_INFO_STORAGE_KEY = None) as Husr.
    { subst w'. cbn. apply lookup_delete_eq. }
    split; [done|]. split; [|split; [|split; [|split; [done|]]]].
    + rewrite run_getItem_web by done. now rewrite Htok.
    + rewrite run_getItem_web by done. now rewrite Husr.
    + unfold fetchToken. rewrite run_rethrow, run_bind.
      rewrite run_getItem_web by done. now rewrite Htok.
    + f_equal. subst w'. unfold set_authState, upd_localStorage. cbn.
      now rewrite delete_twice.
  - rewrite !run_signout_native by done. cbn [fst snd].
    set (w' := set_authState _ _).
    assert (secureStore w' !! TOKEN_STORAGE_KEY = None) as Htok.
    { subst w'. cbn. rewrite lookup_delete_ne by done. apply lookup_delete_eq. }
    assert (secureStore w' !! USER_INFO_STORAGE_KEY = None) as Husr.
    { subst w'. cbn. apply lookup_delete_eq. }
    split; [done|]. split; [|split; [|split; [|split; [done|]]]].
    + rewrite run_getItem_native by done. now rewrite Htok.
    + rewrite run_getItem_native by done. now rewrite Husr.
    + unfold fetchToken. rewrite run_rethrow, run_bind.
      rewrite run_getItem_native by done. now rewrite Htok.
    + f_equal. subst w'. unfold set_authState, upd_secureStore. cbn.
      now rewrite delete_twice.
Qed.

End Provider.

(** The round trip on the stored token pair of the examples. *)
Lemma web_storage_roundtrip_witness :
  let H := Examples.web in
  let value := Examples.pair_json Examples.stale_jwt (VStr (js "refresh-0")) in
  Platform_OS = js "web"
  ∧ Forall (fun c => (c <= 255)%N) value
  ∧ value ≠ []
  ∧ localStorage Examples.w0 !! USER_INFO_STORAGE_KEY = None
  ∧ (run Examples.E0
       (storageAdapter_setItem TOKEN_STORAGE_KEY value;;
        storageAdapter_getItem TOKEN_STORAGE_KEY) Examples.w0).1
    = Ok (Some value).
Proof.
  cbv zeta.
  assert (Forall (fun c => (c <= 255)%N)
            (Examples.pair_json Examples.stale_jwt (VStr (js "refresh-0")))) as Hl.
  { apply Forall_forall. intros c Hc%list_elem_of_In. apply N.leb_le.
    revert c Hc. apply forallb_forall. vm_compute. reflexivity. }
  assert (Examples.pair_json Examples.stale_jwt (VStr (js "refresh-0")) ≠ []) as Hne
    by (vm_compute; congruence).
  split; [reflexivity|]. split; [exact Hl|]. split; [exact Hne|].
  split; [reflexivity|].
  exact (proj1 (proj2 (@web_storage_roundtrip Examples.web Examples.E0
    Examples.w0 TOKEN_STORAGE_KEY _ USER_INFO_STORAGE_KEY
    eq_refl Hl Hne eq_refl))).
Defined.

End StorageClaims.

(* ===================================================================== *)
(** ** Facts: decoding, expiry, refresh *)
(* ===================================================================== *)

Module TokenFacts.
Import JS Async Auth Props RunFacts.

Section Provider.
Context `{Host}.
Variable project_id : jsstring.

Lemma decodeJWT_total token : ∃ v, decodeJWT token = Ok v.
Proof.
  unfold decodeJWT.
  match goal with |- ∃ v, res_catch ?b _ = _ => destruct b as [v|e] end;
    cbn; eauto.
Qed.

Lemma decodeJWT_decodable token payload :
  decodable token payload -> decodeJWT token = Ok payload.
Proof.
  intros (s & seg & bytes & text & -> & Hseg & Hatob & Huri & Hjson).
  unfold decodeJWT. cbn. rewrite Hseg. cbn. rewrite Hatob. cbn.
  rewrite Huri. cbn. now rewrite Hjson.
Qed.

(** Whatever [decodeJWT] returns is [null] or the decoded payload. *)
Lemma decodeJWT_cases token :
  decodeJWT token = Ok VNull
  ∨ ∃ payload, decodable token payload ∧ decodeJWT token = Ok payload.
Proof.
  unfold decodeJWT, decodable.
  destruct token as [| |b|n|s|l|props]; cbn; auto.
  destruct (split 46 s !! 1%nat) as [seg|] eqn:Hseg; cbn; auto.
  destruct (atob _) as [bytes|e] eqn:Hatob; cbn; auto.
  destruct (decodeURIComponent _) as [text|e] eqn:Huri; cbn; auto.
  destruct (JSON_parse text) as [payload|e] eqn:Hjson; cbn; auto.
  right. exists payload. split; [|done].
  exists s, seg, bytes, text. auto.
Qed.

Lemma decodable_functional token p q :
  decodable token p -> decodable token q -> p = q.
Proof.
  intros Hp%decodeJWT_decodable Hq%decodeJWT_decodable. congruence.
Qed.

Lemma get_missing v k :
  assoc k (own_props v) = None -> truthy v = true -> get v k = Ok VUndefined.
Proof.
  intros Ha Ht. destruct v; try discriminate; unfold get; now rewrite Ha.
Qed.

(** A token that does not decode, or whose payload has no [exp], is
    expired, and the clock is not even read. *)
Lemma isTokenExpired_without_exp token :
  (∀ payload, decodable token payload ->
     assoc (js "exp") (own_props payload) = None) ->
  isTokenExpired token = Ret true.
Proof.
  intros Hno. unfold isTokenExpired.
  destruct (decodeJWT_cases token) as [-> | (payload & Hd & ->)]; [done|].
  cbn. destruct (truthy payload) eqn:Ht; [|done]. cbn.
  rewrite (get_missing payload) by auto. reflexivity.
Qed.

(** With a numeric [exp], the comparison against the clock decides. *)
Lemma run_isTokenExpired_numeric E w token props e :
  decodeJWT token = Ok (VObj props) ->
  assoc (js "exp") props = Some (VNum (Num e)) ->
  run E (isTokenExpired token) w =
  (Ok (if (e =? 0)%Z then true
       else (e * 1000 - 300000 <=? now E)%Z), w).
Proof.
  intros Hd Hexp. unfold isTokenExpired. rewrite Hd. cbn.
  rewrite Hexp. cbn. now destruct (e =? 0)%Z.
Qed.

(** The exchange: one request, and the outcome read off its response. *)
Lemma run_refreshAccessToken E w refreshToken :
  let req := refresh_request project_id refreshToken in
  let r := run E (refreshAccessToken project_id refreshToken) w in
  r.1 = refresh_outcome (server E (length (requests w)) req)
  ∧ requests r.2 = requests w ++ [req]
  ∧ authState r.2 = authState w.
Proof.
  cbv zeta. unfold refreshAccessToken. rewrite run_rethrow.
  rewrite run_bind. cbn [run perform perform_op].
  destruct (server E _ _) as [response|e]; cbn; [|done].
  destruct (ok response); cbn; [|done].
  rewrite run_bind, run_lift.
  destruct (JSON_parse (text response)) as [tokenData|e]; cbn; [|done].
  rewrite run_bind. unfold storeTokens. rewrite run_bind, run_lift.
  destruct (get tokenData (js "access_token")) as [a|e] eqn:Ha; cbn; [|done].
  rewrite run_bind, run_lift.
  destruct (get tokenData (js "refresh_token")) as [b|e]; cbn; [|done].
  match goal with
  | |- context [run E (storageAdapter_setItem ?k ?v) ?w0] =>
      destruct (run_setItem_frame E k v w0) as (Hr & Hq & Hs);
      destruct (run E (storageAdapter_setItem k v) w0) as [r w1]
  end.
  cbn in Hr, Hq, Hs. subst r. cbn. now rewrite Hq, Hs.
Qed.

(** [fetchToken] on a stored pair: the expiry check, then either the
    stored token or the exchange. *)
Lemma run_fetchToken_stored E w accessToken refreshToken :
  stored_pair E w accessToken refreshToken ->
  run E (fetchToken project_id) w =
  match run E (isTokenExpired accessToken) w with
  | (Ok false, w') => (Ok accessToken, w')
  | (Ok true, w') => run E (refreshAccessToken project_id refreshToken) w'
  | (Thrown e, w') => (Thrown e, w')
  end.
Proof.
  intros (c & s & parsed & Hget & Hparse & Ha & Hr).
  unfold fetchToken. rewrite run_rethrow, run_bind, Hget.
  rewrite run_bind, run_lift, Hparse.
  rewrite run_bind, run_lift, Ha.
  rewrite run_bind, run_lift, Hr.
  rewrite run_bind.
  destruct (run E (isTokenExpired accessToken) w) as [[[|]|e] w']; reflexivity.
Qed.

End Provider.
End TokenFacts.

(* ===================================================================== *)
(** ** The token accessor *)
(* ===================================================================== *)

Module TokenClaims.
Import JS Async Auth Props MoreProps RunFacts TokenFacts.

Section Provider.
Context `{Host}.
Variable project_id : jsstring.





(** C10.  [decodeJWT] never throws, and gives [null] for a token that
    does not decode.  For a stored access token that does not decode, or
    whose payload has no [exp], [isTokenExpired] answers [true] without
    reading the clock, and [fetchToken()] does what the exchange does: it
    sends the exchange request and settles with its outcome. *)
Theorem undecodable_token_is_refreshed E w accessToken refreshToken :
  stored_pair E w accessToken refreshToken ->
  (∀ payload, decodable accessToken payload ->
     assoc (js "exp") (own_props payload) = None) ->
  let req := refresh_request project_id refreshToken in
  let r := run E (fetchToken project_id) w in
  (∀ token, ∃ v, decodeJWT token = Ok v)
  ∧ (∀ token, (∀ payload, ¬ decodable token payload) ->
       decodeJWT token = Ok VNull)
  ∧ isTokenExpired accessToken = Ret true
  ∧ r = run E (refreshAccessToken project_id refreshToken) w
  ∧ requests r.2 = requests w ++ [req]
  ∧ r.1 = refresh_outcome (server E (length (requests w)) req).
Proof.
  intros Hstored Hno. cbv zeta.
  split; [apply decodeJWT_total|].
  split.
  { intros token Hnone.
    destruct (decodeJWT_cases token) as [-> | (p & Hp & _)]; [done|].
    now apply Hnone in Hp. }
  pose proof (isTokenExpired_without_exp _ Hno) as Hexpired.
  split; [done|].
  rewrite (run_fetchToken_stored _ _ _ _ _ Hstored), Hexpired. cbn.
  destruct (run_refreshAccessToken project_id E w refreshToken)
    as (Hres & Hreq & _).
  done.
Qed.

(** C3, as the code has it.  The one request [refreshAccessToken] sends
    goes to the token endpoint with the JSON text of an object whose
    fields are [grant_type], [code] and [client_id]: the refresh token
    travels under [code], and the object has neither a [refresh_token]
    nor a [redirect_uri] field. *)
Theorem refresh_request_fields E w refreshToken :
  let req := refresh_request project_id refreshToken in
  let sent := refresh_body project_id refreshToken in
  requests (run E (refreshAccessToken project_id refreshToken) w).2
    = requests w ++ [req]
  ∧ url req = tokenEndpoint
  ∧ body req = Some (JSON_stringify sent)
  ∧ keys sent = [js "grant_type"; js "code"; js "client_id"]
  ∧ get sent (js "grant_type") = Ok (VStr (js "refresh_token"))
  ∧ get sent (js "code") = Ok refreshToken
  ∧ get sent (js "client_id") = Ok (VStr project_id)
  ∧ get sent (js "refresh_token") = Ok VUndefined
  ∧ get sent (js "redirect_uri") = Ok VUndefined.
Proof.
  cbv zeta.
  destruct (run_refreshAccessToken project_id E w refreshToken)
    as (_ & Hreq & _).
  split; [done|]. repeat split; vm_compute; reflexivity.
Qed.

End Provider.

(** Facts about the example data. *)
Lemma pair_stored_web accessToken :
  let H := Examples.web in
  let text := Examples.pair_json accessToken (VStr (js "refresh-0")) in
  run Examples.E0 (storageAdapter_getItem TOKEN_STORAGE_KEY)
    (Examples.w_web accessToken)
    = (Ok (Some (hd 0%N text :: tl text)), Examples.w_web accessToken) ->
  JSON_parse (hd 0%N text :: tl text)
    = Ok (VObj [(js "accessToken", accessToken);
                (js "refreshToken", VStr (js "refresh-0"))]) ->
  stored_pair Examples.E0 (Examples.w_web accessToken) accessToken
    (VStr (js "refresh-0")).
Proof.
  cbv zeta. intros Hget Hparse.
  eexists _, _, _. split; [exact Hget|]. split; [exact Hparse|].
  split; reflexivity.
Qed.

Lemma stale_pair_stored :
  @stored_pair Examples.web Examples.E0 (Examples.w_web Examples.stale_jwt)
    Examples.stale_jwt (VStr (js "refresh-0")).
Proof. apply pair_stored_web; vm_compute; reflexivity. Qed.

Lemma fresh_pair_stored :
  @stored_pair Examples.web Examples.E0
    (Examples.w_web (Examples.fresh_jwt 7))
    (Examples.fresh_jwt 7) (VStr (js "refresh-0")).
Proof. apply pair_stored_web; vm_compute; reflexivity. Qed.

Lemma no_exp_pair_stored :
  @stored_pair Examples.web Examples.E0
    (Examples.w_web Examples.no_exp_jwt)
    Examples.no_exp_jwt (VStr (js "refresh-0")).
Proof. apply pair_stored_web; vm_compute; reflexivity. Qed.

Lemma jwt_decodable payload :
  let H := Examples.web in
  decodeJWT (Examples.jwt payload) = Ok payload ->
  payload ≠ VNull ->
  decodable (Examples.jwt payload) payload.
Proof.
  cbv zeta. intros Hd Hnn.
  destruct (@decodeJWT_cases Examples.web (Examples.jwt payload))
    as [Hnull | (p & Hp & Hq)]; [congruence|].
  assert (p = payload) as -> by congruence. exact Hp.
Qed.



Lemma no_exp_jwt_decodable :
  @decodable Examples.web Examples.no_exp_jwt
    (VObj [(js "sub", VStr (js "user-1"))]).
Proof. apply jwt_decodable; [vm_compute; reflexivity | discriminate]. Qed.





(** C10 on the examples: a stored token whose payload has no [exp] is
    exchanged. *)
Lemma undecodable_token_is_refreshed_witness :
  let H := Examples.web in
  let w := Examples.w_web Examples.no_exp_jwt in
  stored_pair Examples.E0 w Examples.no_exp_jwt (VStr (js "refresh-0"))
  ∧ (∀ payload, decodable Examples.no_exp_jwt payload ->
       assoc (js "exp") (own_props payload) = None)
  ∧ isTokenExpired Examples.no_exp_jwt = Ret true
  ∧ length (requests (run Examples.E0 (fetchToken Examples.project) w).2) = 1%nat.
Proof.
  cbv zeta.
  assert (∀ payload, @decodable Examples.web Examples.no_exp_jwt payload ->
            assoc (js "exp") (own_props payload) = None) as Hno.
  { intros payload Hp.
    now rewrite (@decodable_functional Examples.web _ _ _ Hp no_exp_jwt_decodable). }
  split; [exact no_exp_pair_stored|]. split; [exact Hno|].
  destruct (@undecodable_token_is_refreshed Examples.web Examples.project
    Examples.E0 _ _ _ no_exp_pair_stored Hno) as (_ & _ & Hexp & _ & Hreq & _).
  split; [exact Hexp|]. now rewrite Hreq.
Defined.

End TokenClaims.

(* ===================================================================== *)
(** ** Login *)
(* ===================================================================== *)

Module LoginClaims.
Import JS Async Auth Props RunFacts.

(** C4, on a forged callback.  The browser comes back with a code and the
    state [forged] while the login attempt had stored [0707070707]: the
    callback effect completes normally, no error is raised, and nothing
    has changed. *)
Lemma forged_state_raises_no_error :
  let H := Examples.web in
  let w := Examples.w_callback (js "code-1") (js "forged") (js "0707070707") in
  let r := run Examples.E0 (oauthCallback Examples.project) w in
  urlParams_get (js "state") (window_location w)
    ≠ sessionStorage w !! js "basic_oauth_state"
  ∧ r = (Ok tt, w)
  ∧ ∀ e, r.1 ≠ Thrown e.
Proof.
  cbv zeta. split; [vm_compute; congruence|].
  assert (run Examples.E0 (@oauthCallback Examples.web Examples.project)
            (Examples.w_callback (js "code-1") (js "forged") (js "0707070707"))
          = (Ok tt, Examples.w_callback (js "code-1") (js "forged")
                      (js "0707070707"))) as ->
    by (vm_compute; reflexivity).
  split; [reflexivity|]. intros e. discriminate.
Qed.

(** C7, at the failing input.  In a browser the callback arrives with the
    state that was stored, the token endpoint issues a token pair and the
    user-info endpoint answers 500.  [handleLoginCode] rejects, but the
    effect that started it has no handler: the effect completes, the token
    pair stays in the store without user info, the authentication state
    still says signed out, and [fetchToken()] hands out the token. *)
Lemma web_login_failure_keeps_tokens :
  let H := Examples.web in
  let E := Examples.E_userinfo_down in
  let w := Examples.w_callback (js "code-1") (js "0707070707") (js "0707070707") in
  let r := run E (oauthCallback Examples.project) w in
  (run E (handleLoginCode Examples.project (VStr (js "code-1"))) w).1
    = Thrown (Error (js "Failed to fetch user info"))
  ∧ r.1 = Ok tt
  ∧ (run E (storageAdapter_getItem TOKEN_STORAGE_KEY) r.2).1
    = Ok (Some (Examples.pair_json (Examples.fresh_jwt 0) (VStr (js "refresh-0"))))
  ∧ (run E (storageAdapter_getItem USER_INFO_STORAGE_KEY) r.2).1 = Ok None
  ∧ authState r.2 = signedOut
  ∧ (run E (fetchToken Examples.project) r.2).1 = Ok (Examples.fresh_jwt 0).
Proof. cbv zeta. repeat split; vm_compute; reflexivity. Qed.

Section Provider.
Context `{Host}.
Variable project_id : jsstring.

(** C4, amended.  A callback whose state differs from the stored one is
    ignored: the effect completes without an error, the code is not
    exchanged, no request is sent, nothing is written to any store and the
    authentication state stays as it was. *)
Theorem mismatched_state_is_ignored E w :
  urlParams_get (js "state") (window_location w)
    ≠ sessionStorage w !! js "basic_oauth_state" ->
  run E (oauthCallback project_id) w = (Ok tt, w).
Proof.
  intros Hne. unfold oauthCallback.
  destruct is_web; [|reflexivity]. cbn.
  destruct (includes _ _); [|reflexivity]. cbn.
  rewrite bool_decide_eq_false_2 by done.
  now rewrite andb_false_r.
Qed.

(** The device path of [login()] for comparison: whenever it rejects, it
    has signed out first, so neither secret is left in the store and the
    authentication state is the signed-out record. *)
Lemma native_login_failure_signs_out E w e :
  is_web = false ->
  (run E (login project_id) w).1 = Thrown e ->
  let w' := (run E (login project_id) w).2 in
  secureStore w' !! TOKEN_STORAGE_KEY = None
  ∧ secureStore w' !! USER_INFO_STORAGE_KEY = None
  ∧ authState w' = signedOut.
Proof.
  intros Hw. unfold login. rewrite Hw. rewrite run_try_catch. cbv zeta.
  match goal with
  | |- context [run E ?body w] => destruct (run E body w) as [[[]|e'] w1]
  end; [discriminate|].
  rewrite run_bind, run_signout_native by done. cbn.
  intros _. pose proof keys_differ.
  rewrite lookup_delete_ne by done. rewrite !lookup_delete_eq. done.
Qed.

End Provider.

(** The forged callback of the example, through the theorem. *)
Lemma mismatched_state_is_ignored_witness :
  let H := Examples.web in
  let w := Examples.w_callback (js "code-1") (js "forged") (js "0707070707") in
  urlParams_get (js "state") (window_location w)
    ≠ sessionStorage w !! js "basic_oauth_state"
  ∧ run Examples.E0 (oauthCallback Examples.project) w = (Ok tt, w).
Proof.
  cbv zeta.
  assert (urlParams_get (js "state")
            (window_location
               (Examples.w_callback (js "code-1") (js "forged") (js "0707070707")))
          ≠ sessionStorage
              (Examples.w_callback (js "code-1") (js "forged") (js "0707070707"))
              !! js "basic_oauth_state") as Hne
    by (vm_compute; congruence).
  split; [exact Hne|].
  exact (@mismatched_state_is_ignored Examples.web Examples.project
           Examples.E0 _ Hne).
Defined.

End LoginClaims.

(* ===================================================================== *)
(** ** createSchema *)
(* ===================================================================== *)

Module SchemaClaims.
Import JS Schema.

Lemma for_each_Ok {A} (l : list A) (f : A -> res unit) :
  for_each l f = Ok tt <-> ∀ x, x ∈ l -> f x = Ok tt.
Proof.
  induction l as [|a l IH]; cbn.
  - split; [|done]. intros _ x Hx. inversion Hx.
  - destruct (f a) as [[]|e] eqn:Hfa; cbn.
    + rewrite IH. split.
      * intros Hl x [->|Hx]%elem_of_cons; auto.
      * intros Hall x Hx. apply Hall. now right.
    + split; [discriminate|]. intros Hall.
      specialize (Hall a ltac:(left)). congruence.
Qed.

Lemma for_each_cases {A} (l : list A) (f : A -> res unit) :
  for_each l f = Ok tt ∨ ∃ e, for_each l f = Thrown e.
Proof. destruct (for_each l f) as [[]|e]; eauto. Qed.

Lemma get_object v k :
  is_object v = true ->
  get v k = Ok (default VUndefined (assoc k (own_props v))).
Proof. now destruct v. Qed.

Lemma keys_nonempty v : (length (keys v) =? 0)%nat = false <-> keys v ≠ [].
Proof.
  destruct (keys v); cbn; split; congruence.
Qed.

Lemma check_field_Ok tableName fieldName field :
  check_field tableName fieldName field = Ok tt <-> valid_field field.
Proof.
  unfold check_field, valid_field.
  destruct (is_object field) eqn:Hobj; cbn.
  2:{ split; [discriminate|]. intros (? & _). discriminate. }
  rewrite !(get_object field) by done. cbn.
  destruct (default VUndefined (assoc (js "type") (own_props field)))
    as [| |b|n|t|l|props] eqn:Hty;
    try (split; [discriminate|]; intros (_ & (t' & [=] & _) & _)).
  destruct (bool_decide (t ∈ validTypes)) eqn:Hin; cbn.
  2:{ split; [discriminate|]. intros (_ & (t' & [= <-] & Ht') & _).
      apply bool_decide_eq_false in Hin. contradiction. }
  apply bool_decide_eq_true in Hin.
  destruct (default VUndefined (assoc (js "indexed") (own_props field)))
    as [| |b|n|s|l|props] eqn:Hix;
    try (split; [discriminate|]; intros (_ & _ & [[=] | (b' & [=])])).
  - split; [|done]. intros _. eauto 10.
  - split; [|done]. intros _. eauto 10.
Qed.

Lemma check_table_Ok tables tableName :
  is_object tables = true ->
  check_table tables tableName = Ok tt
  <-> ∃ table, get tables tableName = Ok table ∧ valid_table table.
Proof.
  intros Hobj. unfold check_table, valid_table.
  rewrite (get_object tables) by done. cbn.
  set (table := default VUndefined (assoc tableName (own_props tables))).
  assert (∀ (P : value -> Prop),
            (∃ t, Ok table = Ok t ∧ P t) <-> P table) as Hex.
  { intros P. split; [intros (t & [= <-] & Ht); exact Ht | eauto]. }
  rewrite Hex. clear Hex.
  destruct (is_object table) eqn:Htab; cbn.
  2:{ split; [discriminate|]. intros (? & _). discriminate. }
  rewrite (get_object table) by done. cbn.
  set (fields := default VUndefined (assoc (js "fields") (own_props table))).
  assert (∀ (P : value -> Prop),
            (∃ f, Ok fields = Ok f ∧ P f) <-> P fields) as Hex.
  { intros P. split; [intros (t & [= <-] & Ht); exact Ht | eauto]. }
  rewrite Hex. clear Hex.
  destruct (is_object fields) eqn:Hf; cbn.
  2:{ split; [discriminate|]. intros (_ & ? & _). discriminate. }
  destruct (length (keys fields) =? 0)%nat eqn:Hk.
  { split; [discriminate|]. intros (_ & _ & Hne & _).
    apply keys_nonempty in Hne. congruence. }
  apply keys_nonempty in Hk.
  rewrite for_each_Ok. split.
  - intros Hall. split; [done|]. split; [done|]. split; [done|].
    intros fieldName Hin. specialize (Hall fieldName Hin).
    rewrite (get_object fields) in Hall |- * by done. cbn in Hall.
    eexists. split; [done|]. now apply check_field_Ok in Hall.
  - intros (_ & _ & _ & Hall) fieldName Hin.
    destruct (Hall fieldName Hin) as (field & Hget & Hvalid).
    rewrite Hget. cbn. now apply check_field_Ok.
Qed.

Lemma createSchema_cases schema :
  createSchema schema = Ok schema ∨ ∃ e, createSchema schema = Thrown e.
Proof.
  unfold createSchema.
  destruct (get schema (js "project_id")) as [p|e]; cbn; [|eauto].
  match goal with |- context [if ?b then _ else _] => destruct b end; [eauto|].
  destruct (get schema (js "version")) as [v|e]; cbn; [|eauto].
  match goal with |- context [if ?b then _ else _] => destruct b end; [eauto|].
  destruct (get schema (js "tables")) as [t|e]; cbn; [|eauto].
  match goal with |- context [if ?b then _ else _] => destruct b end; [eauto|].
  destruct (for_each_cases (keys t) (check_table t)) as [-> | [e ->]]; cbn; eauto.
Qed.

Lemma createSchema_Ok schema :
  createSchema schema = Ok schema <-> valid_schema schema.
Proof.
  unfold createSchema, valid_schema.
  destruct (get schema (js "project_id")) as [p|e] eqn:Hp; cbn.
  2:{ split; [discriminate|]. intros ((? & [=] & _) & _). }
  destruct p as [| |b|n|p|l|props];
    try (split; [discriminate|]; intros ((? & [=] & _) & _)).
  destruct (bool_decide (trim p = [])) eqn:Htrim.
  { split; [discriminate|]. intros ((p' & [= <-] & Hne) & _).
    apply bool_decide_eq_true in Htrim. contradiction. }
  apply bool_decide_eq_false in Htrim.
  destruct (get schema (js "version")) as [v|e] eqn:Hv; cbn.
  2:{ split; [discriminate|]. intros (_ & (? & [=]) & _). }
  destruct v as [| |b|n|s|l|props]; cbn;
    try (split; [discriminate|]; intros (_ & (? & [=]) & _)).
  destruct (get schema (js "tables")) as [t|e] eqn:Ht; cbn.
  2:{ split; [discriminate|]. intros (_ & _ & (? & [=] & _)). }
  destruct (is_object t) eqn:Hobj; cbn.
  2:{ split; [discriminate|]. intros (_ & _ & (t' & [= <-] & Ho & _)).
      congruence. }
  destruct (length (keys t) =? 0)%nat eqn:Hk.
  { split; [discriminate|]. intros (_ & _ & (t' & [= <-] & _ & Hne & _)).
    apply keys_nonempty in Hne. congruence. }
  apply keys_nonempty in Hk.
  destruct (for_each (keys t) (check_table t)) as [[]|e] eqn:Hfe; cbn.
  - rewrite for_each_Ok in Hfe. split; [|done]. intros _.
    split; [eauto|]. split; [eauto|].
    exists t. split; [done|]. split; [done|]. split; [done|].
    intros tableName Hin. now apply check_table_Ok, Hfe.
  - split; [discriminate|]. intros (_ & _ & (t' & [= <-] & _ & _ & Hall)).
    assert (for_each (keys t) (check_table t) = Ok tt); [|congruence].
    apply for_each_Ok. intros tableName Hin. apply check_table_Ok; auto.
Qed.

(** C5, on the README's schema.  Each of its tables declares a non-empty
    [fields] map whose types are among string, boolean, number and json,
    and [createSchema] throws on it: the [tags] field has type json. *)
Lemma createSchema_rejects_json :
  declares_fields_of_types spec_field_types readme_schema
  ∧ createSchema readme_schema
    = Thrown (Error (js "Invalid schema for table 'notes', field 'tags': type must be one of "
                     ++ quoted (js "string") ++ js ", " ++ quoted (js "boolean")
                     ++ js ", " ++ quoted (js "number") ++ js "."))
  ∧ createSchema readme_schema ≠ Ok readme_schema.
Proof.
  split; [|split; [vm_compute; reflexivity | vm_compute; discriminate]].
  eexists. split; [reflexivity|].
  intros tableName Hin. cbn in Hin. apply list_elem_of_singleton in Hin as ->.
  eexists _, _. split; [reflexivity|]. split; [reflexivity|].
  split; [reflexivity|]. split; [discriminate|].
  intros fieldName Hin. cbn in Hin.
  repeat (apply elem_of_cons in Hin as [-> | Hin];
          [eexists _, _; split; [reflexivity|]; split; [reflexivity|];
           unfold spec_field_types; set_solver|]).
  inversion Hin.
Qed.

(** C5, amended.  [createSchema] is a function of the schema alone (it has
    no access to the network).  It returns the schema it was given exactly
    when [project_id] is a string that is not blank, [version] is a
    number, [tables] is a non-empty object, every table is an object whose
    [fields] is a non-empty object, and every field is an object whose
    [type] is one of string, boolean, number and whose [indexed], if
    present, is a boolean; on every other schema it throws. *)
Theorem createSchema_accepts_exactly schema :
  (valid_schema schema -> createSchema schema = Ok schema)
  ∧ (¬ valid_schema schema -> ∃ e, createSchema schema = Thrown e)
  ∧ (∀ s', createSchema schema = Ok s' -> s' = schema ∧ valid_schema schema).
Proof.
  split; [apply createSchema_Ok|]. split.
  - intros Hinvalid. destruct (createSchema_cases schema) as [Hok|He]; [|done].
    now apply createSchema_Ok in Hok.
  - intros s' Hs'. destruct (createSchema_cases schema) as [Hok|[e He]].
    + split; [congruence|]. now apply createSchema_Ok.
    + congruence.
Qed.

(** The README's schema without its json field is accepted. *)
Lemma createSchema_accepts_exactly_witness :
  valid_schema notes_schema ∧ createSchema notes_schema = Ok notes_schema.
Proof.
  assert (createSchema notes_schema = Ok notes_schema) as Hok
    by (vm_compute; reflexivity).
  split; [|exact Hok].
  exact (proj2 (proj2 (proj2 (createSchema_accepts_exactly notes_schema))
                  notes_schema Hok)).
Defined.

End SchemaClaims.

(* ===================================================================== *)
(** ** The query chain *)
(* ===================================================================== *)

Module QueryClaims.
Import Query.

Section QueryBuilder.
Context {record condition : Type}.
Variable holds : condition -> record -> bool.
Variable field_leb : jsstring -> record -> record -> bool.

(** [limit] and [offset] write different parts of the descriptor, so the
    order in which they are chained leaves no trace. *)
Lemma chain_limit_offset_comm n m (q : QueryDescriptor condition) :
  chain_limit n (chain_offset m q)
  = chain_offset m (chain_limit n q).
Proof. reflexivity. Qed.

(** With nothing else chained, the result is the window of [n] records
    after the first [m]. *)
Lemma finalize_window t n m (fetched : list record) :
  finalize holds field_leb
    (chain_limit n (chain_offset m (getAll t))) fetched
  = take n (drop m fetched).
Proof. reflexivity. Qed.

(** C8.  Over five fetched records, [limit(2)] and [offset(1)] chained
    after the fetch-all call give the records at indices 1 and 2, in
    whichever order the two were chained. *)
Theorem limit_offset_window t (r0 r1 r2 r3 r4 : record) :
  let fetched := [r0; r1; r2; r3; r4] in
  let resolve := finalize holds field_leb in
  resolve (chain_offset 1 (chain_limit 2 (getAll t))) fetched = [r1; r2]
  ∧ resolve (chain_limit 2 (chain_offset 1 (getAll t))) fetched = [r1; r2]
  ∧ fetched !! 1%nat = Some r1
  ∧ fetched !! 2%nat = Some r2.
Proof. cbv zeta. repeat split. Qed.

End QueryBuilder.
End QueryClaims.

(* ===================================================================== *)
(** ** Concurrent callers *)
(* ===================================================================== *)

Module ConcurrentClaims.
Import JS Async Auth Props RunFacts TokenFacts.

(** C1, with two callers.  The browser holds a token that expires at the
    very second the clock shows.  Two calls of [fetchToken()] are made in
    the same turn and advance in turns: two exchange requests are sent,
    and the two callers get two different tokens. *)
Lemma two_callers_two_exchanges :
  let H := Examples.web in
  let E := Examples.E0 in
  let w := Examples.w_web Examples.stale_jwt in
  let c := concurrent_calls Examples.project E 2 [0; 1; 0; 1; 0; 1]%nat w in
  stored_pair E w Examples.stale_jwt (VStr (js "refresh-0"))
  ∧ run E (isTokenExpired Examples.stale_jwt) w = (Ok true, w)
  ∧ c.1 = [Ret (Examples.fresh_jwt 0); Ret (Examples.fresh_jwt 1)]
  ∧ length (requests c.2) = 2%nat
  ∧ Examples.fresh_jwt 0 ≠ Examples.fresh_jwt 1.
Proof.
  cbv zeta. split; [exact TokenClaims.stale_pair_stored|].
  repeat split; vm_compute; congruence.
Qed.

(** C1 as stated does not hold: with the two callers above, the browser
    holding the stale pair and the provider issuing a new token per
    request, two exchange requests are sent where the property allows
    one. *)
Lemma single_flight_fails : ¬ @single_flight Examples.web Examples.project.
Proof.
  intros Hsf.
  destruct two_callers_two_exchanges as (Hst & Hexp & Hres & Hlen & _).
  cbv zeta in *.
  specialize (Hsf Examples.E0 _ 2%nat [0; 1; 0; 1; 0; 1]%nat _ _
                ltac:(lia) Hst Hexp).
  cbv zeta in Hsf.
  match type of Hsf with ?A -> _ => assert A as Hall end.
  { unfold all_settled. rewrite Hres. repeat constructor; eexists; reflexivity. }
  destruct (Hsf Hall) as [Hone _].
  rewrite Hlen in Hone. vm_compute in Hone. discriminate.
Qed.

Section Provider.
Context `{Host}.
Variable project_id : jsstring.

Lemma quiet_settled {A} (p : prog A) r r' :
  quiet p r -> settled p = Some r' -> r' = r.
Proof. destruct 1; cbn; congruence. Qed.

Lemma pending_not_settled E req out p :
  pending E req out p -> settled p = None.
Proof. now destruct 1. Qed.

Lemma quiet_bind_ok {A B} (p : prog A) (f : A -> prog B) a r :
  quiet p (Ok a) -> quiet (f a) r -> quiet (p ≫= f) r.
Proof.
  intros Hp. remember (Ok a) as ra eqn:Hra. revert Hra.
  induction Hp; intros Hra Hf; try discriminate.
  - injection Hra as ->. exact Hf.
  - cbn. constructor. apply IHHp; auto.
  - cbn. constructor. apply IHHp; auto.
Qed.

Lemma quiet_bind_thrown {A B} (p : prog A) (f : A -> prog B) e :
  quiet p (Thrown e) -> quiet (p ≫= f) (Thrown e).
Proof.
  intros Hp. remember (Thrown e) as ra eqn:Hra. revert Hra.
  induction Hp; intros Hra; try discriminate.
  - injection Hra as ->. constructor.
  - cbn. constructor. apply IHHp; auto.
  - cbn. constructor. apply IHHp; auto.
Qed.

Lemma quiet_rethrow {A} (p : prog A) r :
  quiet p r -> quiet (try_catch p (fun e => Throw e)) r.
Proof. induction 1; cbn; constructor; auto. Qed.

Lemma quiet_lift {A} (r : res A) : quiet (lift r) r.
Proof. destruct r; constructor. Qed.

Lemma quiet_setItem key value : quiet (storageAdapter_setItem key value) (Ok tt).
Proof.
  unfold storageAdapter_setItem, btoa. destruct is_web.
  - destruct (Base64.btoa value); cbn; repeat constructor.
  - repeat constructor.
Qed.

Lemma pending_rethrow E req out p :
  pending E req out p ->
  pending E req out (try_catch p (fun e => Throw e)).
Proof.
  induction 1; cbn; constructor; auto.
  intros fetched. now apply quiet_rethrow.
Qed.

(** From the response on, [refreshAccessToken] only stores the new pair. *)
Lemma refreshAccessToken_pending E refreshToken :
  pending E (refresh_request project_id refreshToken) refresh_outcome
    (refreshAccessToken project_id refreshToken).
Proof.
  unfold refreshAccessToken. cbn. constructor. intros fetched.
  apply quiet_rethrow.
  destruct fetched as [response|e]; cbn; [|constructor].
  destruct (ok response); cbn; [|constructor].
  destruct (JSON_parse (text response)) as [tokenData|e]; cbn; [|constructor].
  fold (@bind unit value). unfold storeTokens.
  destruct (get tokenData (js "access_token")) as [a|e] eqn:Ha; cbn;
    [|constructor].
  destruct (get tokenData (js "refresh_token")) as [b|e] eqn:Hb; cbn;
    [|constructor].
  eapply (quiet_bind_ok (storageAdapter_setItem _ _)).
  - apply quiet_setItem.
  - constructor.
Qed.

(** [isTokenExpired] answers at once or after one look at the clock. *)
Lemma isTokenExpired_shape token :
  isTokenExpired token = Ret true
  ∨ ∃ f, isTokenExpired token = Do DateNow (fun t => Ret (f t)).
Proof.
  unfold isTokenExpired.
  destruct (decodeJWT_total token) as [d ->]. cbn.
  destruct (truthy d) eqn:Hd; cbn; [|now left].
  assert (∃ v, get d (js "exp") = Ok v) as [v ->]
    by (destruct d; try discriminate; cbn; eauto).
  cbn. destruct (truthy v); cbn; [|now left].
  right. eexists. reflexivity.
Qed.

(** What a call has become once it has read a stale pair. *)
Lemma fetchToken_after_read E w accessToken refreshToken :
  stored_pair E w accessToken refreshToken ->
  run E (isTokenExpired accessToken) w = (Ok true, w) ->
  ∃ p, step_task E (fetchToken project_id) w = (p, w)
       ∧ pending E (refresh_request project_id refreshToken) refresh_outcome p.
Proof.
  intros (c & s & parsed & Hget & Hparse & Ha & Hr) Hstale.
  assert (pending E (refresh_request project_id refreshToken) refresh_outcome
            (try_catch
               (expired ← isTokenExpired accessToken;
                if negb expired then mret accessToken
                else refreshAccessToken project_id refreshToken)
               (fun e => Throw e))) as Hpend.
  { apply pending_rethrow.
    destruct (isTokenExpired_shape accessToken) as [Heq | [f Heq]];
      rewrite Heq in Hstale |- *; cbn in Hstale |- *.
    - apply refreshAccessToken_pending.
    - injection Hstale as Hf. constructor. rewrite Hf. cbn.
      apply refreshAccessToken_pending. }
  unfold fetchToken, storageAdapter_getItem in *.
  destruct is_web.
  - cbn in Hget |- *.
    destruct (localStorage w !! TOKEN_STORAGE_KEY) as [[|c' e']|];
      cbn in Hget; try discriminate.
    destruct (atob (c' :: e')) as [d|?]; cbn in Hget; [|discriminate].
    injection Hget as ->. eexists. split; [reflexivity|].
    cbn. rewrite Hparse. cbn. rewrite Ha. cbn. rewrite Hr. exact Hpend.
  - cbn in Hget |- *. injection Hget as Hget. rewrite Hget.
    eexists. split; [reflexivity|].
    cbn. rewrite Hparse. cbn. rewrite Ha. cbn. rewrite Hr. exact Hpend.
Qed.

Lemma exec_app E {A} s1 s2 (c : list (prog A) * world) :
  exec E (s1 ++ s2) c = exec E s2 (exec E s1 c).
Proof. unfold exec. apply fold_left_app. Qed.

(** The calls are made: each performs its read, in call order. *)
Lemma exec_reads E {A} (p p' : prog A) w n :
  step_task E p w = (p', w) ->
  exec E (seq 0 n) (replicate n p, w) = (replicate n p', w).
Proof.
  intros Hstep.
  assert (∀ k m, exec E (seq 0 k) (replicate k p ++ replicate m p, w)
                 = (replicate k p' ++ replicate m p, w)) as Hgen.
  { induction k as [|k IH]; intros m; [reflexivity|].
    rewrite seq_S, exec_app. cbn [plus].
    replace (replicate (S k) p ++ replicate m p)
      with (replicate k p ++ replicate (S m) p)
      by (rewrite <- !replicate_add; f_equal; lia).
    rewrite IH. cbn [exec fold_left]. unfold step. cbn [fst snd].
    rewrite lookup_app_r by now rewrite length_replicate.
    rewrite length_replicate, Nat.sub_diag. cbn [replicate lookup list_lookup].
    rewrite Hstep. f_equal.
    rewrite insert_app_r_alt by now rewrite length_replicate.
    rewrite length_replicate, Nat.sub_diag. cbn.
    change (p' :: replicate k p' ++ replicate m p)
      with (replicate (S k) p' ++ replicate m p).
    now rewrite replicate_S_end, <- app_assoc. }
  specialize (Hgen n 0%nat). now rewrite !app_nil_r in Hgen.
Qed.

Lemma issued_replicate_None n : issued (replicate n None) = [].
Proof. induction n; cbn; auto. Qed.

Lemma issued_insert sts i k :
  sts !! i = Some None ->
  issued (<[i := Some k]> sts) ≡ₚ k :: issued sts.
Proof.
  intros Hi. unfold issued.
  rewrite insert_take_drop by (eapply lookup_lt_Some; eauto).
  rewrite <- (take_drop_middle sts i None Hi) at 3.
  rewrite !omap_app. cbn. symmetry. apply Permutation_middle.
Qed.

Lemma issued_all sts :
  Forall (fun st => st ≠ None) sts -> sts = Some <$> issued sts.
Proof.
  unfold issued.
  induction 1 as [|[k|] sts Hk _ IH]; cbn; [done| |done].
  f_equal. exact IH.
Qed.

Lemma exec_length E {A} sched (c : list (prog A) * world) :
  length (exec E sched c).1 = length c.1.
Proof.
  revert c. induction sched as [|i sched IH]; intros c; [done|].
  change (exec E (i :: sched) c) with (exec E sched (step E c i)).
  rewrite IH. unfold step.
  destruct (c.1 !! i); [|done].
  destruct (step_task E p c.2). cbn. apply length_insert.
Qed.

Section Flight.
Variable E : env.
Variable req : request.
Variable outcome : res response -> res value.
Variable base : list request.

Lemma in_flight_step c sts i :
  in_flight E req outcome base c sts ->
  ∃ sts', in_flight E req outcome base (step E c i) sts'.
Proof.
  destruct c as [tasks w]. intros (Hst & Hreq & Hperm). cbn in Hst, Hreq.
  unfold step. cbn [fst snd].
  destruct (tasks !! i) as [p|] eqn:Hi; [|exists sts; now split].
  destruct (Forall2_lookup_l _ _ _ _ _ Hst Hi) as (st & Hsti & Hp).
  assert (∀ p' st', in_stage E req outcome p' st' ->
            Forall2 (in_stage E req outcome) (<[i:=p']> tasks) (<[i:=st']> sts))
    as Hins by (intros; now apply Forall2_insert).
  destruct st as [k|]; cbn in Hp.
  - (* the exchange is behind: only writes are left *)
    exists sts. remember (outcome (server E k req)) as r eqn:Hr.
    destruct Hp as [a|e|key v cont r Hq|key v cont r Hq]; cbn;
      (split; [|done]); cbn [fst];
      rewrite <- (list_insert_id sts i (Some k)) by done; apply Hins;
      cbn; rewrite <- Hr; first [exact Hq | constructor].
  - destruct Hp as [cont Hp|cont Hq]; cbn.
    + (* the clock is read *)
      exists sts. split; [|done]. cbn [fst].
      rewrite <- (list_insert_id sts i None) by done. now apply Hins.
    + (* the request is sent *)
      exists (<[i := Some (length (requests w))]> sts).
      pose proof (issued_insert sts i (length (requests w)) Hsti) as Hiss.
      assert (length (issued (<[i := Some (length (requests w))]> sts))
              = S (length (issued sts))) as Hlen
        by now rewrite Hiss.
      split; [|split].
      * apply Hins. cbn. apply Hq.
      * cbn. rewrite Hlen, Hreq, replicate_S_end. now rewrite app_assoc.
      * assert (length (requests w) = length base + length (issued sts))%nat
          as Hk by now rewrite Hreq, length_app, length_replicate.
        rewrite Hlen, Hiss, Hk. clear Hiss Hlen Hk Hreq.
        set (m := length (issued sts)) in *. clearbody m.
        rewrite seq_S, Hperm. apply Permutation_cons_append.
Qed.

Lemma in_flight_exec sched c sts :
  in_flight E req outcome base c sts ->
  ∃ sts', in_flight E req outcome base (exec E sched c) sts'.
Proof.
  revert c sts. induction sched as [|i sched IH]; intros c sts Hinv; [eauto|].
  destruct (in_flight_step c sts i Hinv) as [sts' Hinv'].
  change (exec E (i :: sched) c) with (exec E sched (step E c i)).
  exact (IH _ _ Hinv').
Qed.

(** When every call has settled, every call has sent one request and
    holds the outcome of its own. *)
Lemma in_flight_settled c sts :
  in_flight E req outcome base c sts ->
  all_settled c.1 ->
  requests c.2 = base ++ replicate (length c.1) req
  ∧ ∃ ks, ks ≡ₚ seq (length base) (length c.1)
      ∧ Forall2 (fun p k => settled p = Some (outcome (server E k req))) c.1 ks.
Proof.
  intros (Hst & Hreq & Hperm) Hall.
  assert (Forall (fun st => st ≠ None) sts) as Hsome.
  { apply Forall_forall. intros st Hin.
    apply list_elem_of_lookup in Hin as [i Hi].
    destruct (Forall2_lookup_r _ _ _ _ _ Hst Hi) as (p & Hpi & Hp).
    intros ->. cbn in Hp. apply pending_not_settled in Hp.
    unfold all_settled in Hall. rewrite Forall_forall in Hall.
    destruct (Hall p) as [r Hr]; [|congruence].
    apply list_elem_of_lookup. eauto. }
  pose proof (issued_all sts Hsome) as Hsts.
  assert (length (issued sts) = length c.1) as Hlen.
  { rewrite (Forall2_length _ _ _ Hst). rewrite Hsts at 2.
    now rewrite length_fmap. }
  rewrite <- Hlen. split; [done|].
  exists (issued sts). split; [done|].
  rewrite Hsts in Hst. rewrite Forall2_fmap_r in Hst.
  cbn in Hst. clear -Hst Hall. unfold all_settled in Hall.
  induction Hst as [|p k tasks ks Hq _ IH]; [constructor|].
  inversion_clear Hall as [|? ? [r Hr] Hrest].
  constructor; [|now apply IH].
  rewrite Hr. f_equal. eapply quiet_settled; eauto.
Qed.

End Flight.

(** C1, amended.  Calls of [fetchToken()] that find the stored token stale
    do not share an exchange: when [n] such calls are made together and
    have all settled, whatever the order in which they advanced, exactly
    [n] exchange requests have been sent, one by each call, and each call
    has settled with the outcome of its own request: the [access_token]
    of its own response when the endpoint answered with one. *)
Theorem each_caller_exchanges E w n sched accessToken refreshToken :
  stored_pair E w accessToken refreshToken ->
  run E (isTokenExpired accessToken) w = (Ok true, w) ->
  let req := refresh_request project_id refreshToken in
  let c := concurrent_calls project_id E n sched w in
  all_settled c.1 ->
  length c.1 = n
  ∧ requests c.2 = requests w ++ replicate n req
  ∧ ∃ ks, ks ≡ₚ seq (length (requests w)) n
      ∧ Forall2
          (fun p k => settled p = Some (refresh_outcome (server E k req)))
          c.1 ks.
Proof.
  intros Hstored Hstale. cbv zeta. unfold concurrent_calls, calls.
  destruct (fetchToken_after_read E w _ _ Hstored Hstale) as (p & Hstep & Hp).
  rewrite exec_app, (exec_reads E _ p w n Hstep).
  intros Hall.
  assert (in_flight E (refresh_request project_id refreshToken) refresh_outcome
            (requests w) (replicate n p, w) (replicate n None)) as Hinv.
  { split; [|split].
    - cbn. now apply Forall2_replicate.
    - rewrite issued_replicate_None. cbn. now rewrite app_nil_r.
    - now rewrite issued_replicate_None. }
  destruct (in_flight_exec E _ _ _ sched _ _ Hinv) as [sts Hinv'].
  pose proof (exec_length E sched (replicate n p, w)) as Hlen.
  cbn [fst] in Hlen. rewrite length_replicate in Hlen.
  destruct (in_flight_settled E _ _ _ _ _ Hinv' Hall) as (Hreq & ks & Hks & Hres).
  rewrite Hlen in Hreq, Hks. eauto.
Qed.

End Provider.

(** The two callers of the example, through the theorem. *)
Lemma each_caller_exchanges_witness :
  let H := Examples.web in
  let E := Examples.E0 in
  let w := Examples.w_web Examples.stale_jwt in
  let c := concurrent_calls Examples.project E 2 [0; 1; 0; 1; 0; 1]%nat w in
  stored_pair E w Examples.stale_jwt (VStr (js "refresh-0"))
  ∧ run E (isTokenExpired Examples.stale_jwt) w = (Ok true, w)
  ∧ all_settled c.1
  ∧ length (requests c.2) = 2%nat.
Proof.
  cbv zeta.
  assert (run Examples.E0 (@isTokenExpired Examples.web Examples.stale_jwt)
            (Examples.w_web Examples.stale_jwt)
          = (Ok true, Examples.w_web Examples.stale_jwt)) as Hstale
    by (vm_compute; reflexivity).
  assert (all_settled
            (@concurrent_calls Examples.web Examples.project Examples.E0 2
               [0; 1; 0; 1; 0; 1]%nat (Examples.w_web Examples.stale_jwt)).1)
    as Hall.
  { replace (@concurrent_calls Examples.web Examples.project Examples.E0 2
               [0; 1; 0; 1; 0; 1]%nat (Examples.w_web Examples.stale_jwt)).1
      with [@Ret value (Examples.fresh_jwt 0); Ret (Examples.fresh_jwt 1)]
      by (vm_compute; reflexivity).
    repeat constructor; eexists; reflexivity. }
  split; [exact TokenClaims.stale_pair_stored|]. split; [exact Hstale|].
  split; [exact Hall|].
  destruct (@each_caller_exchanges Examples.web Examples.project Examples.E0
              _ 2%nat [0; 1; 0; 1; 0; 1]%nat _ _
              TokenClaims.stale_pair_stored Hstale Hall) as (_ & Hreq & _).
  rewrite Hreq. reflexivity.
Defined.

End ConcurrentClaims.

(* ===================================================================== *)
(** ** Facts: the storage adapter and the login exchange *)
(* ===================================================================== *)

Module MoreFacts.
Import JS Async Auth Props MoreProps RunFacts TokenFacts.

Section Provider.
Context `{Host}.
Variable project_id : jsstring.

Lemma is_web_web : is_web = true -> Platform_OS = js "web".
Proof. unfold is_web. intros Hw. now apply bool_decide_eq_true in Hw. Qed.

Lemma getItem_world E key w : (run E (storageAdapter_getItem key) w).2 = w.
Proof. now destruct (run_getItem_frame E key w) as [v ->]. Qed.

(** What [getItem] yields depends on the two stores only. *)
Lemma getItem_same_stores E E' key w w' :
  same_stores w w' ->
  (run E (storageAdapter_getItem key) w).1
  = (run E' (storageAdapter_getItem key) w').1.
Proof.
  intros [Hl Hs]. destruct is_web eqn:Hw.
  - rewrite !run_getItem_web by done. now rewrite Hl.
  - rewrite !run_getItem_native by done. now rewrite Hs.
Qed.

Lemma getItem_transfer E E' key w w' v :
  same_stores w w' ->
  run E (storageAdapter_getItem key) w = (Ok v, w) ->
  run E' (storageAdapter_getItem key) w' = (Ok v, w').
Proof.
  intros Hs Hrun. pose proof (getItem_same_stores E E' key w w' Hs) as Heq.
  rewrite Hrun in Heq. cbn in Heq.
  destruct (run_getItem_frame E' key w') as [v' Hv']. rewrite Hv' in *.
  cbn in Heq. congruence.
Qed.

(** [setItem] then [getItem] under the same key. *)
Lemma setItem_getItem E E' key text w :
  storable text ->
  let w' := (run E (storageAdapter_setItem key text) w).2 in
  run E' (storageAdapter_getItem key) w' = (Ok (Some text), w').
Proof.
  intros [Hne Hlatin]. cbv zeta. destruct is_web eqn:Hw.
  - specialize (Hlatin (is_web_web Hw)).
    assert (Base64.btoa text = Some (Base64.encode text)) as Hb
      by now apply Base64Facts.btoa_Some.
    rewrite run_setItem_web, Hb by done. cbn [snd].
    rewrite run_getItem_web by done. cbn [localStorage upd_localStorage].
    rewrite lookup_insert_eq.
    pose proof (Base64Facts.encode_nonempty text Hne) as Hen.
    pose proof (Base64Facts.atob_btoa _ _ Hb) as Hab.
    destruct (Base64.encode text) as [|c' e']; [done|].
    cbv iota beta. now rewrite Hab.
  - rewrite run_setItem_native by done. cbn [snd].
    rewrite run_getItem_native by done. cbn [secureStore upd_secureStore].
    now rewrite lookup_insert_eq.
Qed.

(** [setItem] under one key leaves the entry under another alone. *)
Lemma setItem_getItem_ne E E' key key' text w :
  key ≠ key' ->
  let w' := (run E (storageAdapter_setItem key text) w).2 in
  (run E' (storageAdapter_getItem key') w').1
  = (run E' (storageAdapter_getItem key') w).1.
Proof.
  intros Hk. cbv zeta. destruct is_web eqn:Hw.
  - rewrite run_setItem_web by done. rewrite !run_getItem_web by done.
    destruct (Base64.btoa text); [|done].
    cbn [snd fst localStorage upd_localStorage].
    now rewrite lookup_insert_ne.
  - rewrite run_setItem_native by done. rewrite !run_getItem_native by done.
    cbn [snd fst secureStore upd_secureStore].
    now rewrite lookup_insert_ne.
Qed.

(** [setItem] touches nothing but the two stores. *)
Lemma setItem_elsewhere E key text w :
  let w' := (run E (storageAdapter_setItem key text) w).2 in
  run E (storageAdapter_setItem key text) w = (Ok tt, w')
  ∧ requests w' = requests w ∧ authState w' = authState w
  ∧ sessionStorage w' = sessionStorage w
  ∧ window_location w' = window_location w ∧ navigated w' = navigated w.
Proof.
  cbv zeta. destruct is_web eqn:Hw.
  - rewrite run_setItem_web by done. now destruct (Base64.btoa text).
  - now rewrite run_setItem_native.
Qed.

Lemma run_storeTokens E w tokenData access refresh :
  get tokenData (js "access_token") = Ok access ->
  get tokenData (js "refresh_token") = Ok refresh ->
  run E (storeTokens tokenData) w
  = run E (storageAdapter_setItem TOKEN_STORAGE_KEY
             (JSON_stringify (pair_of access refresh))) w.
Proof.
  intros Ha Hr. unfold storeTokens.
  rewrite run_bind, run_lift, Ha. cbv beta iota.
  now rewrite run_bind, run_lift, Hr.
Qed.

(** [storeTokens] throws only while reading the token response, before
    anything is written. *)
Lemma run_storeTokens_cases E w tokenData :
  (∃ access refresh,
      get tokenData (js "access_token") = Ok access
      ∧ get tokenData (js "refresh_token") = Ok refresh)
  ∨ (∃ e, get tokenData (js "access_token") = Thrown e
          ∧ run E (storeTokens tokenData) w = (Thrown e, w)).
Proof.
  unfold storeTokens. destruct tokenData; cbn; eauto.
Qed.

(** [handleLoginCode] either goes through the whole exchange, or rejects
    with the authentication state as it was. *)
Lemma run_handleLoginCode_cases E w code :
  (∃ a r u, login_exchange project_id E w code a r u
            ∧ run E (handleLoginCode project_id code) w
              = (Ok tt, after_login project_id E w code a r u))
  ∨ (∃ e w', run E (handleLoginCode project_id code) w = (Thrown e, w')
             ∧ authState w' = authState w
             ∧ sessionStorage w' = sessionStorage w
             ∧ (∃ rest, requests w'
                        = requests w ++ code_request project_id code :: rest)
             ∧ ∀ a r u, ¬ login_exchange project_id E w code a r u).
Proof.
  unfold handleLoginCode. rewrite run_bind. cbn [run perform perform_op].
  change {| url := tokenEndpoint; method := js "POST"; headers := json_headers;
            body := Some (JSON_stringify (code_body project_id code)) |}
    with (code_request project_id code).
  set (req1 := code_request project_id code).
  set (w1 := log_request req1 w).
  destruct (server E (length (requests w)) req1) as [r1|e1] eqn:Hs1.
  2: { right. exists e1, w1. cbn. repeat split; [now exists []|].
       intros a r u (?&?&?&Hx&_). fold req1 in Hx. congruence. }
  cbn [lift]. cbv beta iota. rewrite run_bind. cbn [run lift].
  destruct (ok r1) eqn:Hok1.
  2: { right. eexists _, w1. cbn. repeat split; [now exists []|].
       intros a r u (?&?&?&Hx&Hy&_). fold req1 in Hx. congruence. }
  cbn [negb]. cbv beta iota. rewrite run_bind, run_lift.
  destruct (JSON_parse (text r1)) as [td|e1] eqn:Hp1.
  2: { right. exists e1, w1. cbn. repeat split; [now exists []|].
       intros a r u (?&?&?&Hx&Hy&Hz&_). fold req1 in Hx. congruence. }
  cbv beta iota. rewrite run_bind.
  destruct (run_storeTokens_cases E w1 td) as [(a & r & Ha & Hr)|(e1 & He1 & Hrun)].
  2: { right. exists e1, w1. rewrite Hrun. cbn. repeat split; [now exists []|].
       intros a r u (?&?&?&Hx&Hy&Hz&Hu&_). fold req1 in Hx. congruence. }
  rewrite (run_storeTokens E w1 td a r Ha Hr).
  destruct (setItem_elsewhere E TOKEN_STORAGE_KEY
              (JSON_stringify (pair_of a r)) w1) as (Hset & Hq2 & Ha2 & Hs2 & _).
  set (w2 := (run E (storageAdapter_setItem TOKEN_STORAGE_KEY
                       (JSON_stringify (pair_of a r))) w1).2) in *.
  assert (authState w2 = authState w) as Ha2' by now rewrite Ha2.
  assert (sessionStorage w2 = sessionStorage w) as Hs2'' by now rewrite Hs2.
  rewrite Hset. cbv beta iota. rewrite run_bind, run_lift, Ha. cbv beta iota.
  rewrite run_bind. cbn [run perform perform_op].
  change {| url := userInfoEndpoint; method := js "GET";
            headers := [(js "Authorization", js "Bearer " ++ toString a)];
            body := None |}
    with (userinfo_request a).
  set (req2 := userinfo_request a). set (w3 := log_request req2 w2).
  assert (length (requests w2) = S (length (requests w))) as Hlen.
  { rewrite Hq2. unfold w1. cbn. rewrite length_app. cbn. lia. }
  rewrite Hlen.
  assert (∃ rest, requests w3 = requests w ++ req1 :: rest) as Hlog.
  { exists [req2]. unfold w3. cbn. rewrite Hq2. unfold w1. cbn.
    now rewrite <- app_assoc. }
  destruct (server E (S (length (requests w))) req2) as [r2|e2] eqn:Hs2'.
  2: { right. exists e2, w3. cbn. repeat split; [assumption..|exact Hlog|].
       intros a' r' u (?&?&?&Hx&Hy&Hz&Hu&Hv&Hw&_). fold req1 in Hx.
       assert (a' = a) as -> by congruence. fold req2 in Hw. congruence. }
  cbn [lift]. cbv beta iota. rewrite run_bind. cbn [run lift].
  destruct (ok r2) eqn:Hok2.
  2: { right. eexists _, w3. cbn. repeat split; [assumption..|exact Hlog|].
       intros a' r' u (?&?&?&Hx&Hy&Hz&Hu&Hv&Hw&Hw'&_). fold req1 in Hx.
       assert (a' = a) as -> by congruence. fold req2 in Hw. congruence. }
  cbn [negb]. cbv beta iota. rewrite run_bind, run_lift.
  destruct (JSON_parse (text r2)) as [u|e2] eqn:Hp2.
  2: { right. exists e2, w3. cbn. repeat split; [assumption..|exact Hlog|].
       intros a' r' u (?&?&?&Hx&Hy&Hz&Hu&Hv&Hw&Hw'&Hw'').
       fold req1 in Hx. assert (a' = a) as -> by congruence.
       fold req2 in Hw. congruence. }
  cbv beta iota. rewrite run_bind. unfold storeUserInfo.
  destruct (setItem_elsewhere E USER_INFO_STORAGE_KEY (JSON_stringify u) w3)
    as (Hset4 & _).
  rewrite Hset4. cbv beta iota. rewrite run_bind, run_lift, Hr. cbv beta iota.
  left. exists a, r, u. split; [|reflexivity].
  exists r1, td, r2. repeat split; assumption.
Qed.

Lemma same_stores_refl w : same_stores w w.
Proof. done. Qed.

Lemma same_stores_log r w : same_stores (log_request r w) w.
Proof. done. Qed.

Lemma same_stores_auth s w : same_stores (set_authState s w) w.
Proof. done. Qed.

Lemma getItem_stored_transfer E E' key w w' v :
  same_stores w' w ->
  run E (storageAdapter_getItem key) w = (Ok v, w) ->
  run E' (storageAdapter_getItem key) w' = (Ok v, w').
Proof.
  intros [Hl Hs]. apply getItem_transfer. now split.
Qed.

Lemma after_login_elsewhere E w code a r u :
  let w' := after_login project_id E w code a r u in
  requests w'
  = requests w ++ [code_request project_id code; userinfo_request a]
  ∧ authState w' = {| accessToken := a; refreshToken := r; user := u;
                      isSignedIn := true |}
  ∧ sessionStorage w' = sessionStorage w
  ∧ window_location w' = window_location w
  ∧ navigated w' = navigated w.
Proof.
  cbv zeta. unfold after_login. cbv zeta. cbn [requests authState
    sessionStorage window_location navigated set_authState].
  match goal with
  | |- context [run E (storageAdapter_setItem ?k ?v) ?w3] =>
      destruct (setItem_elsewhere E k v w3) as (_ & Hq & _ & Hs & Hl & Hn);
      rewrite Hq, Hs, Hl, Hn; clear Hq Hs Hl Hn
  end.
  cbn [requests sessionStorage window_location navigated log_request].
  match goal with
  | |- context [run E (storageAdapter_setItem ?k ?v) ?w1] =>
      destruct (setItem_elsewhere E k v w1) as (_ & Hq & _ & Hs & Hl & Hn);
      rewrite Hq, Hs, Hl, Hn; clear Hq Hs Hl Hn
  end.
  cbn [requests sessionStorage window_location navigated log_request].
  now rewrite <- app_assoc.
Qed.

(** Both secrets are where [getItem] finds them after a login. *)
Lemma after_login_stored E E' w code a r u :
  storable (JSON_stringify (pair_of a r)) ->
  storable (JSON_stringify u) ->
  let w' := after_login project_id E w code a r u in
  run E' (storageAdapter_getItem TOKEN_STORAGE_KEY) w'
  = (Ok (Some (JSON_stringify (pair_of a r))), w')
  ∧ run E' (storageAdapter_getItem USER_INFO_STORAGE_KEY) w'
    = (Ok (Some (JSON_stringify u)), w').
Proof.
  intros Hpair Huser. cbv zeta. unfold after_login. cbv zeta.
  set (w1 := log_request (code_request project_id code) w).
  set (w2 := (run E (storageAdapter_setItem TOKEN_STORAGE_KEY _) w1).2).
  set (w3 := log_request (userinfo_request a) w2).
  set (w4 := (run E (storageAdapter_setItem USER_INFO_STORAGE_KEY _) w3).2).
  split.
  - apply (getItem_stored_transfer E' E' _ w4); [apply same_stores_auth|].
    pose proof (setItem_getItem_ne E E' USER_INFO_STORAGE_KEY TOKEN_STORAGE_KEY
                  (JSON_stringify u) w3) as Hne.
    cbv zeta in Hne. fold w4 in Hne.
    assert (run E' (storageAdapter_getItem TOKEN_STORAGE_KEY) w3
            = (Ok (Some (JSON_stringify (pair_of a r))), w3)) as H3.
    { apply (getItem_stored_transfer E' E' _ w2); [apply same_stores_log|].
      apply (setItem_getItem E E' _ _ w1 Hpair). }
    rewrite H3 in Hne. cbn [fst] in Hne.
    destruct (run_getItem_frame E' TOKEN_STORAGE_KEY w4) as [v Hv].
    rewrite Hv in Hne |- *. cbn [fst] in Hne.
    rewrite Hne; [done|]. intros Heq. now apply keys_differ.
  - apply (getItem_stored_transfer E' E' _ w4); [apply same_stores_auth|].
    apply (setItem_getItem E E' _ _ w3 Huser).
Qed.

Lemma stored_pair_intro E w text parsed access refresh :
  run E (storageAdapter_getItem TOKEN_STORAGE_KEY) w = (Ok (Some text), w) ->
  text ≠ [] ->
  JSON_parse text = Ok parsed ->
  get parsed (js "accessToken") = Ok access ->
  get parsed (js "refreshToken") = Ok refresh ->
  stored_pair E w access refresh.
Proof.
  intros Hget Hne Hparse Ha Hr. destruct text as [|c s]; [done|].
  now exists c, s, parsed.
Qed.

Lemma stored_user_intro E w text userInfo :
  run E (storageAdapter_getItem USER_INFO_STORAGE_KEY) w
  = (Ok (Some text), w) ->
  text ≠ [] ->
  JSON_parse text = Ok userInfo ->
  stored_user E w userInfo.
Proof.
  intros Hget Hne Hparse. destruct text as [|c s]; [done|].
  now exists c, s.
Qed.

End Provider.
End MoreFacts.

(* ===================================================================== *)
(** ** Further properties: storage adapter, decoding, expiry *)
(* ===================================================================== *)

Module TokenExtras.
Import JS Async Auth Props RunFacts TokenFacts.

Lemma split_before_sep sep h rest :
  sep ∉ h -> split sep (h ++ sep :: rest) = h :: split sep rest.
Proof.
  induction h as [|c h IH]; intros Hh; cbn.
  - now rewrite N.eqb_refl.
  - apply not_elem_of_cons in Hh as [Hc Hh].
    destruct (N.eqb_spec c sep) as [->|_]; [done|].
    now rewrite IH.
Qed.

Section Provider.
Context `{Host}.
Variable project_id : jsstring.

(** X1.  In a browser, [setItem] with a value that holds a character above
    U+00FF completes without an error and writes nothing: the state is
    unchanged, so [getItem] afterwards still yields whatever the key held
    before. *)
Theorem web_setItem_drops_wide_strings E w key value :
  Platform_OS = js "web" ->
  Exists (fun c => (255 < c)%N) value ->
  run E (storageAdapter_setItem key value) w = (Ok tt, w)
  ∧ run E (storageAdapter_setItem key value;; storageAdapter_getItem key) w
    = run E (storageAdapter_getItem key) w.
Proof.
  intros Hw%is_web_true Hwide.
  assert (Base64.btoa value = None) as Hb.
  { destruct (Base64.btoa value) as [e|] eqn:Hb; [|done].
    apply Base64Facts.btoa_Some in Hb as [Hall _].
    apply Exists_exists in Hwide as (c & Hc & Hgt).
    rewrite Forall_forall in Hall. specialize (Hall c Hc). lia. }
  assert (run E (storageAdapter_setItem key value) w = (Ok tt, w)) as Hset
    by now rewrite run_setItem_web, Hb.
  split; [done|]. now rewrite run_bind, Hset.
Qed.

(** X2.  [decodeJWT] reads the second dot-separated segment only: two
    tokens with the same payload segment decode to the same value and get
    the same expiry verdict, whatever their header and signature
    segments are. *)
Theorem decodeJWT_reads_payload_only header header' payload sig sig' :
  46%N ∉ header -> 46%N ∉ header' -> 46%N ∉ payload ->
  let token := VStr (header ++ 46%N :: payload ++ 46%N :: sig) in
  let token' := VStr (header' ++ 46%N :: payload ++ 46%N :: sig') in
  decodeJWT token = decodeJWT token'
  ∧ isTokenExpired token = isTokenExpired token'.
Proof.
  intros Hh Hh' Hp. cbv zeta.
  assert (decodeJWT (VStr (header ++ 46%N :: payload ++ 46%N :: sig))
          = decodeJWT (VStr (header' ++ 46%N :: payload ++ 46%N :: sig')))
    as Hd.
  { unfold decodeJWT. cbn.
    rewrite !(split_before_sep 46 _ (payload ++ _)) by done.
    now rewrite !(split_before_sep 46 payload) by done. }
  split; [done|]. unfold isTokenExpired. now rewrite Hd.
Qed.

(** X3.  Expiry is monotone in the clock: a token that counts as expired
    at one time counts as expired at every later time. *)
Theorem isTokenExpired_stays_expired token E E' w w' :
  (now E <= now E')%Z ->
  (run E (isTokenExpired token) w).1 = Ok true ->
  (run E' (isTokenExpired token) w').1 = Ok true.
Proof.
  intros Hle. unfold isTokenExpired.
  destruct (decodeJWT_total token) as [d ->]. cbn.
  destruct (truthy d) eqn:Hd; cbn; [|done].
  assert (∃ v, get d (js "exp") = Ok v) as [v ->]
    by (destruct d; try discriminate; cbn; eauto).
  cbn. destruct (truthy v); cbn; [|done].
  destruct (toNumber v) as [x|]; cbn; [|done].
  intros [= Hx]. f_equal. apply Z.leb_le in Hx. apply Z.leb_le. lia.
Qed.

(** X4.  When the [exp] of the stored access token is present and truthy
    but coerces to NaN, the token never counts as expired: at every time
    [fetchToken()] returns the stored token, sends no request and changes
    nothing. *)
Theorem fetchToken_keeps_token_with_NaN_exp E w accessToken refreshToken
    payload exp :
  stored_pair E w accessToken refreshToken ->
  decodable accessToken payload ->
  get payload (js "exp") = Ok exp ->
  truthy exp = true ->
  toNumber exp = NaN ->
  run E (fetchToken project_id) w = (Ok accessToken, w).
Proof.
  intros Hstored Hdec%decodeJWT_decodable Hget Hexp Hnan.
  rewrite (run_fetchToken_stored _ _ _ _ _ Hstored).
  assert (isTokenExpired accessToken
          = Do DateNow (fun _ => Ret false)) as ->; [|reflexivity].
  unfold isTokenExpired. rewrite Hdec. cbn.
  assert (truthy payload = true) as ->.
  { destruct payload; try reflexivity; cbn in Hget;
      try (injection Hget as <-; discriminate); discriminate. }
  cbn. rewrite Hget. cbn. rewrite Hexp, Hnan. reflexivity.
Qed.

End Provider.

(** A euro sign is not stored, and the entry written before stays. *)
Lemma web_setItem_drops_wide_strings_witness :
  let H := Examples.web in
  let w := Examples.w_web Examples.stale_jwt in
  Platform_OS = js "web"
  ∧ Exists (fun c => (255 < c)%N) [8364%N]
  ∧ run Examples.E0 (storageAdapter_setItem TOKEN_STORAGE_KEY [8364%N]) w
    = (Ok tt, w).
Proof.
  cbv zeta.
  assert (Exists (fun c => (255 < c)%N) [8364%N]) as Hwide
    by (constructor; reflexivity).
  split; [reflexivity|]. split; [exact Hwide|].
  exact (proj1 (@web_setItem_drops_wide_strings Examples.web Examples.E0
                  _ TOKEN_STORAGE_KEY [8364%N] eq_refl Hwide)).
Defined.

(** Two tokens that differ in header and signature only. *)
Lemma decodeJWT_reads_payload_only_witness :
  let H := Examples.web in
  let payload := Base64.encode
    (RefHost.stringify (VObj [(js "exp", VNum (Num 2000000000))])) in
  (46%N ∉ js "eyJhbGciOiJIUzI1NiJ9") ∧ (46%N ∉ js "e30") ∧ (46%N ∉ payload)
  ∧ decodeJWT (VStr (js "eyJhbGciOiJIUzI1NiJ9" ++ 46%N :: payload
                     ++ 46%N :: js "c2lnbmF0dXJl"))
    = decodeJWT (VStr (js "e30" ++ 46%N :: payload ++ 46%N :: js "forged")).
Proof.
  cbv zeta.
  assert (∀ l : jsstring, forallb (fun c => negb (c =? 46)%N) l = true ->
                          46%N ∉ l) as Hno.
  { intros l Hl Hin%list_elem_of_In. rewrite forallb_forall in Hl.
    apply Hl in Hin. now rewrite N.eqb_refl in Hin. }
  assert (46%N ∉ js "eyJhbGciOiJIUzI1NiJ9") as H1 by (apply Hno; vm_compute; done).
  assert (46%N ∉ js "e30") as H2 by (apply Hno; vm_compute; done).
  assert (46%N ∉ Base64.encode
            (RefHost.stringify (VObj [(js "exp", VNum (Num 2000000000))])))
    as H3 by (apply Hno; vm_compute; done).
  split; [exact H1|]. split; [exact H2|]. split; [exact H3|].
  exact (proj1 (@decodeJWT_reads_payload_only Examples.web _ _ _
                  (js "c2lnbmF0dXJl") (js "forged") H1 H2 H3)).
Defined.

(** The stale token of the examples, now and a day later. *)
Lemma isTokenExpired_stays_expired_witness :
  let H := Examples.web in
  let later := {| now := 1700086400000; server := Examples.idp;
                  prompt := prompt Examples.E0;
                  random := random Examples.E0 |} in
  (now Examples.E0 <= now later)%Z
  ∧ (run Examples.E0 (isTokenExpired Examples.stale_jwt) Examples.w0).1 = Ok true
  ∧ (run later (isTokenExpired Examples.stale_jwt) Examples.w0).1 = Ok true.
Proof.
  cbv zeta.
  assert ((run Examples.E0 (@isTokenExpired Examples.web Examples.stale_jwt)
             Examples.w0).1 = Ok true) as Hnow by (vm_compute; reflexivity).
  split; [discriminate|]. split; [exact Hnow|].
  refine (@isTokenExpired_stays_expired Examples.web Examples.stale_jwt
            Examples.E0 _ Examples.w0 Examples.w0 _ Hnow).
  discriminate.
Defined.

(** A token whose [exp] reads "soon" is handed out as it is. *)
Lemma fetchToken_keeps_token_with_NaN_exp_witness :
  let H := Examples.web in
  let token := MoreExamples.worded_exp_jwt in
  let w := Examples.w_web token in
  stored_pair Examples.E0 w token (VStr (js "refresh-0"))
  ∧ decodable token (VObj [(js "exp", VStr (js "soon"))])
  ∧ toNumber (VStr (js "soon")) = NaN
  ∧ run Examples.E0 (fetchToken Examples.project) w = (Ok token, w).
Proof.
  cbv zeta.
  assert (@stored_pair Examples.web Examples.E0
            (Examples.w_web MoreExamples.worded_exp_jwt)
            MoreExamples.worded_exp_jwt (VStr (js "refresh-0"))) as Hst
    by (apply TokenClaims.pair_stored_web; vm_compute; reflexivity).
  assert (@decodable Examples.web MoreExamples.worded_exp_jwt
            (VObj [(js "exp", VStr (js "soon"))])) as Hdec
    by (apply TokenClaims.jwt_decodable; [vm_compute; reflexivity | discriminate]).
  assert (@toNumber Examples.web (VStr (js "soon")) = NaN) as Hnan
    by (vm_compute; reflexivity).
  split; [exact Hst|]. split; [exact Hdec|]. split; [exact Hnan|].
  exact (@fetchToken_keeps_token_with_NaN_exp Examples.web Examples.project
           Examples.E0 _ _ _ _ (VStr (js "soon")) Hst Hdec eq_refl eq_refl Hnan).
Defined.

End TokenExtras.

(* ===================================================================== *)
(** ** Further properties: refresh and the token supplier *)
(* ===================================================================== *)

Module RefreshExtras.
Import JS Async Auth Props MoreProps RunFacts TokenFacts MoreFacts.

Section Provider.
Context `{Host}.
Variable project_id : jsstring.

(** X5.  A refresh that fails, whether the transport fails, the endpoint
    answers with an error status, the body is not JSON or the body is
    [null], rejects and leaves the stores and the authentication state
    exactly as they were: only the request log has grown.  In particular
    a failed refresh neither signs out nor deletes the stored pair. *)
Theorem failed_refresh_changes_nothing E w refreshToken e :
  let req := refresh_request project_id refreshToken in
  refresh_outcome (server E (length (requests w)) req) = Thrown e ->
  run E (refreshAccessToken project_id refreshToken) w
  = (Thrown e, log_request req w).
Proof.
  cbv zeta. unfold refreshAccessToken, refresh_outcome.
  rewrite run_rethrow, run_bind. cbn [run perform perform_op].
  destruct (server E _ _) as [response|e0]; cbn; [|now intros [= <-]].
  destruct (ok response); cbn; [|now intros [= <-]].
  rewrite run_bind, run_lift.
  destruct (JSON_parse (text response)) as [tokenData|e0]; cbn;
    [|now intros [= <-]].
  rewrite run_bind. unfold storeTokens. rewrite run_bind, run_lift.
  destruct (get tokenData (js "access_token")) as [a|e0] eqn:Ha; cbn;
    [|now intros [= <-]].
  rewrite run_bind, run_lift.
  destruct (get tokenData (js "refresh_token")) as [b|e0]; cbn;
    [discriminate | now intros [= <-]].
Qed.

(** X6.  A refresh that succeeds writes the pair it received where
    [fetchToken] reads it: provided the pair survives [JSON.stringify] /
    [JSON.parse] and the storage adapter (its text is not empty and, in a
    browser, Latin-1), the refresh resolves with the new access token, the
    stored pair is the new pair, and as long as the new token does not
    count as expired the next [fetchToken()] returns it from the store
    with no request. *)
Theorem refreshed_pair_is_stored E w refreshToken response tokenData
    access refresh :
  let req := refresh_request project_id refreshToken in
  server E (length (requests w)) req = Ok response ->
  ok response = true ->
  JSON_parse (text response) = Ok tokenData ->
  get tokenData (js "access_token") = Ok access ->
  get tokenData (js "refresh_token") = Ok refresh ->
  storable (JSON_stringify (pair_of access refresh)) ->
  round_trips (pair_of access refresh) ->
  let r := run E (refreshAccessToken project_id refreshToken) w in
  r.1 = Ok access
  ∧ requests r.2 = requests w ++ [req]
  ∧ stored_pair E r.2 access refresh
  ∧ ∀ E', run E' (isTokenExpired access) r.2 = (Ok false, r.2) ->
          run E' (fetchToken project_id) r.2 = (Ok access, r.2).
Proof.
  cbv zeta. intros Hsrv Hok Hparse Ha Hr Hstorable Hround.
  unfold refreshAccessToken.
  rewrite run_rethrow, run_bind. cbn [run perform perform_op].
  rewrite Hsrv. cbn [lift]. cbv beta iota. rewrite run_bind. cbn [run lift].
  rewrite Hok. cbn [negb]. cbv beta iota.
  rewrite run_bind, run_lift, Hparse. cbv beta iota. rewrite run_bind.
  rewrite (run_storeTokens E _ _ _ _ Ha Hr).
  set (w1 := log_request (refresh_request project_id refreshToken) w).
  destruct (setItem_elsewhere E TOKEN_STORAGE_KEY
              (JSON_stringify (pair_of access refresh)) w1)
    as (Hset & Hq & _).
  assert (∀ E', stored_pair E'
            (run E (storageAdapter_setItem TOKEN_STORAGE_KEY
                      (JSON_stringify (pair_of access refresh))) w1).2
            access refresh) as Hst.
  { intros E'.
    apply (stored_pair_intro E' _ (JSON_stringify (pair_of access refresh))
             (pair_of access refresh)).
    - now apply setItem_getItem.
    - apply Hstorable.
    - exact Hround.
    - reflexivity.
    - reflexivity. }
  rewrite Hset. cbv beta iota. rewrite run_lift, Ha. cbn [fst snd].
  split; [done|]. split; [now rewrite Hq|]. split; [apply Hst|].
  intros E' Hfresh.
  now rewrite (run_fetchToken_stored _ _ _ _ _ (Hst E')), Hfresh.
Qed.

(** X7.  The token supplier the provider hands to the database client
    resolves with truthy tokens only: whenever [fetchToken()] resolves
    with a falsy value (for instance [undefined], when the token response
    had no [access_token]), the supplier rejects with "User not
    authenticated"; when [fetchToken()] rejects, the supplier rejects
    with the same error. *)
Theorem getToken_resolves_truthy_only E w :
  let f := run E (fetchToken project_id) w in
  let g := run E (getToken project_id) w in
  g.2 = f.2
  ∧ (∀ v, g.1 = Ok v -> truthy v = true ∧ f.1 = Ok v)
  ∧ (∀ v, f.1 = Ok v -> truthy v = false ->
          g.1 = Thrown (Error (js "User not authenticated")))
  ∧ (∀ e, f.1 = Thrown e -> g.1 = Thrown e).
Proof.
  cbv zeta. unfold getToken. rewrite run_bind.
  destruct (run E (fetchToken project_id) w) as [[v|e] w1]; cbn.
  - destruct (truthy v) eqn:Hv; cbn;
      (repeat split; try congruence; try discriminate).
  - repeat split; try congruence; discriminate.
Qed.

End Provider.

(** The token endpoint answers 500: the stale pair stays where it is. *)
Lemma failed_refresh_changes_nothing_witness :
  let H := Examples.web in
  let E := MoreExamples.E_token_down in
  let w := Examples.w_web Examples.stale_jwt in
  let req := refresh_request Examples.project (VStr (js "refresh-0")) in
  refresh_outcome (server E (length (requests w)) req)
    = Thrown (Error (js "Failed to refresh token: unavailable"))
  ∧ run E (refreshAccessToken Examples.project (VStr (js "refresh-0"))) w
    = (Thrown (Error (js "Failed to refresh token: unavailable")),
       log_request req w).
Proof.
  cbv zeta.
  assert (@refresh_outcome Examples.web
            (server MoreExamples.E_token_down
               (length (requests (Examples.w_web Examples.stale_jwt)))
               (@refresh_request Examples.web Examples.project
                  (VStr (js "refresh-0"))))
          = Thrown (Error (js "Failed to refresh token: unavailable"))) as Hout
    by (vm_compute; reflexivity).
  split; [exact Hout|].
  exact (@failed_refresh_changes_nothing Examples.web Examples.project
           MoreExamples.E_token_down _ _ _ Hout).
Defined.

(** The stale pair of the examples is replaced by the pair the provider
    issues, and the new token is then served from the store. *)
Lemma refreshed_pair_is_stored_witness :
  let H := Examples.web in
  let E := Examples.E0 in
  let w := Examples.w_web Examples.stale_jwt in
  let r := run E (refreshAccessToken Examples.project (VStr (js "refresh-0"))) w in
  r.1 = Ok (Examples.fresh_jwt 0)
  ∧ run E (fetchToken Examples.project) r.2 = (Ok (Examples.fresh_jwt 0), r.2).
Proof.
  cbv zeta.
  assert (@storable Examples.web
            (@JSON_stringify Examples.web
               (pair_of (Examples.fresh_jwt 0) (VStr (js "refresh-0")))))
    as Hstorable.
  { split; [vm_compute; discriminate|]. intros _.
    apply Forall_forall. intros c Hc%list_elem_of_In. apply N.leb_le.
    revert c Hc. apply forallb_forall. vm_compute. reflexivity. }
  destruct (@refreshed_pair_is_stored Examples.web Examples.project
              Examples.E0 (Examples.w_web Examples.stale_jwt)
              (VStr (js "refresh-0")) (Examples.token_response 0)
              (VObj [(js "access_token", Examples.fresh_jwt 0);
                     (js "refresh_token", VStr (js "refresh-0"));
                     (js "token_type", VStr (js "Bearer"));
                     (js "expires_in", VNum (Num 3600))])
              (Examples.fresh_jwt 0) (VStr (js "refresh-0"))
              eq_refl eq_refl ltac:(vm_compute; reflexivity) eq_refl eq_refl
              Hstorable ltac:(vm_compute; reflexivity))
    as (Hres & _ & _ & Hnext).
  split; [exact Hres|]. apply Hnext. vm_compute. reflexivity.
Defined.

(** A token response without [access_token]: [fetchToken()] resolves with
    [undefined] and the supplier rejects. *)
Lemma getToken_resolves_truthy_only_witness :
  let H := Examples.web in
  let E := MoreExamples.E_no_access_token in
  let w := Examples.w_web Examples.stale_jwt in
  (run E (fetchToken Examples.project) w).1 = Ok VUndefined
  ∧ (run E (getToken Examples.project) w).1
    = Thrown (Error (js "User not authenticated")).
Proof.
  cbv zeta.
  assert ((run MoreExamples.E_no_access_token
             (@fetchToken Examples.web Examples.project)
             (Examples.w_web Examples.stale_jwt)).1 = Ok VUndefined) as Hf
    by (vm_compute; reflexivity).
  split; [exact Hf|].
  exact (proj1 (proj2 (proj2 (@getToken_resolves_truthy_only Examples.web
    Examples.project MoreExamples.E_no_access_token
    (Examples.w_web Examples.stale_jwt)))) _ Hf eq_refl).
Defined.

End RefreshExtras.

(* ===================================================================== *)
(** ** Further properties: signing in *)
(* ===================================================================== *)

Module LoginExtras.
Import JS Async Auth Props MoreProps RunFacts TokenFacts MoreFacts.

(** Two hex digits per byte, and different digits for different bytes. *)
Lemma hex_pairs_table :
  forallb (fun b =>
    (length (padStart2 (toString16 b)) =? 2)%nat
    && forallb (fun b' =>
         implb (bool_decide (padStart2 (toString16 b)
                             = padStart2 (toString16 b')))
               (b =? b')%N)
       (map N.of_nat (seq 0 256)))
    (map N.of_nat (seq 0 256)) = true.
Proof. vm_compute. reflexivity. Qed.

Lemma byte_in_table b : (b < 256)%N -> In b (map N.of_nat (seq 0 256)).
Proof.
  intros Hb. apply in_map_iff. exists (N.to_nat b).
  split; [apply N2Nat.id|]. apply in_seq. lia.
Qed.

Lemma hex_pair_length b :
  (b < 256)%N -> length (padStart2 (toString16 b)) = 2%nat.
Proof.
  intros Hb%byte_in_table. pose proof hex_pairs_table as Htab.
  rewrite forallb_forall in Htab. specialize (Htab b Hb).
  apply andb_true_iff in Htab as [Hlen _]. now apply Nat.eqb_eq.
Qed.

Lemma hex_pair_inj b b' :
  (b < 256)%N -> (b' < 256)%N ->
  padStart2 (toString16 b) = padStart2 (toString16 b') -> b = b'.
Proof.
  intros Hb%byte_in_table Hb'%byte_in_table Heq.
  pose proof hex_pairs_table as Htab.
  rewrite forallb_forall in Htab. specialize (Htab b Hb).
  apply andb_true_iff in Htab as [_ Hall].
  rewrite forallb_forall in Hall. specialize (Hall b' Hb').
  rewrite bool_decide_eq_true_2 in Hall by done. now apply N.eqb_eq.
Qed.

Lemma hex_state_length bytes :
  Forall (fun b => (b < 256)%N) bytes ->
  length (concat (map (fun b => padStart2 (toString16 b)) bytes))
  = (2 * length bytes)%nat.
Proof.
  induction 1 as [|b bytes Hb _ IH]; [reflexivity|].
  cbn [map concat length]. rewrite length_app, hex_pair_length, IH by done.
  lia.
Qed.

Lemma hex_state_inj bytes bytes' :
  Forall (fun b => (b < 256)%N) bytes ->
  Forall (fun b => (b < 256)%N) bytes' ->
  concat (map (fun b => padStart2 (toString16 b)) bytes)
  = concat (map (fun b => padStart2 (toString16 b)) bytes') ->
  bytes = bytes'.
Proof.
  intros Hall. revert bytes'.
  induction Hall as [|b bytes Hb Hall IH]; intros bytes' Hall' Heq.
  - destruct Hall' as [|b' bytes' Hb' _]; [reflexivity|].
    apply (f_equal length) in Heq. cbn [map concat] in Heq.
    rewrite length_app, hex_pair_length in Heq by done. discriminate.
  - destruct Hall' as [|b' bytes' Hb' Hall'].
    + apply (f_equal length) in Heq. cbn [map concat] in Heq.
      rewrite length_app, hex_pair_length in Heq by done. discriminate.
    + cbn [map concat] in Heq.
      apply app_inj_1 in Heq as [Hhead Htail];
        [|now rewrite !hex_pair_length].
      f_equal; [now apply hex_pair_inj | now apply IH].
Qed.

Section Provider.
Context `{Host}.
Variable project_id : jsstring.

(** X8.  When the token endpoint and then the user-info endpoint answer
    with JSON, [handleLoginCode(code)] resolves having sent exactly two
    requests, the code exchange and then the user-info request carrying
    the received access token as bearer, and having set the
    authentication state to the received tokens and profile with
    [isSignedIn] true; the stored login state value is left alone. *)
Theorem handleLoginCode_signs_in E w code access refresh userInfo :
  login_exchange project_id E w code access refresh userInfo ->
  let r := run E (handleLoginCode project_id code) w in
  r.1 = Ok tt
  ∧ requests r.2
    = requests w ++ [code_request project_id code; userinfo_request access]
  ∧ authState r.2 = {| accessToken := access; refreshToken := refresh;
                       user := userInfo; isSignedIn := true |}
  ∧ sessionStorage r.2 = sessionStorage w.
Proof.
  intros Hex. cbv zeta.
  destruct (run_handleLoginCode_cases project_id E w code)
    as [(a & r & u & Hex' & Hrun)|(e & w' & _ & _ & _ & _ & Hno)].
  2: { now destruct (Hno _ _ _ Hex). }
  assert (a = access ∧ r = refresh ∧ u = userInfo) as (-> & -> & ->).
  { destruct Hex as (t1 & d1 & u1 & H1 & _ & H2 & H3 & H4 & H5 & _ & H6).
    destruct Hex' as (t2 & d2 & u2 & G1 & _ & G2 & G3 & G4 & G5 & _ & G6).
    assert (t2 = t1) as -> by congruence.
    assert (d2 = d1) as -> by congruence.
    assert (a = access) as -> by congruence.
    assert (u2 = u1) as -> by congruence.
    split; [done|]. split; congruence. }
  rewrite Hrun. cbn [fst snd].
  destruct (after_login_elsewhere project_id E w code access refresh userInfo)
    as (Hq & Ha & Hs & _).
  done.
Qed.

(** X9.  Whenever [handleLoginCode(code)] rejects, the authentication
    state and the stored login state value are as before the call: the
    state is set only as the last step.  The code exchange request has
    been sent, and the exchange did not go through (the transport failed,
    an endpoint answered with an error status, or a body was not JSON or
    was [null]). *)
Theorem rejected_login_keeps_authState E w code e :
  let r := run E (handleLoginCode project_id code) w in
  r.1 = Thrown e ->
  authState r.2 = authState w
  ∧ sessionStorage r.2 = sessionStorage w
  ∧ (∃ rest, requests r.2 = requests w ++ code_request project_id code :: rest)
  ∧ ∀ access refresh userInfo,
      ¬ login_exchange project_id E w code access refresh userInfo.
Proof.
  cbv zeta.
  destruct (run_handleLoginCode_cases project_id E w code)
    as [(a & r & u & _ & Hrun)|(e' & w' & Hrun & Ha & Hs & Hq & Hno)];
    rewrite Hrun; cbn [fst snd]; [discriminate|done].
Qed.

(** X10.  On a device, [login()] settles in one of three ways: it resolves
    with nothing changed and no request sent, when the prompt was not
    answered with "success"; it resolves with [isSignedIn] true; or it
    rejects, and then both secrets are gone from the secure store and the
    authentication state is the signed-out record. *)
Theorem native_login_outcomes E w :
  Platform_OS ≠ js "web" ->
  let r := run E (login project_id) w in
  (r = (Ok tt, w)
   ∧ ∃ result, prompt E = Ok result ∧ ptype result ≠ js "success")
  ∨ (r.1 = Ok tt ∧ isSignedIn (authState r.2) = true
     ∧ ∃ result, prompt E = Ok result ∧ ptype result = js "success")
  ∨ (∃ e, r.1 = Thrown e
          ∧ secureStore r.2 !! TOKEN_STORAGE_KEY = None
          ∧ secureStore r.2 !! USER_INFO_STORAGE_KEY = None
          ∧ authState r.2 = signedOut).
Proof.
  intros Hnative.
  assert (is_web = false) as Hw by (unfold is_web; now apply bool_decide_eq_false).
  cbv zeta.
  destruct (run E (login project_id) w) as [[[]|e] w'] eqn:Hrun.
  2: { right; right. exists e.
       pose proof (LoginClaims.native_login_failure_signs_out project_id E w e Hw)
         as Hout.
       rewrite Hrun in Hout. cbn [fst snd] in Hout. split; [done|].
       now apply Hout. }
  revert Hrun. unfold login. rewrite Hw, run_try_catch, run_bind.
  cbn [run perform perform_op]. cbv beta iota. rewrite run_bind, run_lift.
  destruct (prompt E) as [result|e]; cbv beta iota.
  2: { rewrite run_bind, (run_signout_native _ _ Hw). discriminate. }
  destruct (bool_decide (ptype result = js "success")) eqn:Hty.
  - apply bool_decide_eq_true in Hty. rewrite run_bind, run_lift.
    destruct (get (params result) (js "code")) as [code|e]; cbv beta iota.
    2: { rewrite run_bind, (run_signout_native _ _ Hw). discriminate. }
    destruct (run_handleLoginCode_cases project_id E w code)
      as [(a & r & u & _ & Hgo)|(e' & w1 & Hgo & _)]; rewrite Hgo;
      cbv beta iota.
    + intros [= <-]. right; left. split; [done|]. split; [|eauto].
      cbn [snd].
      now destruct (after_login_elsewhere project_id E w code a r u)
        as (_ & -> & _).
    + rewrite run_bind, (run_signout_native _ _ Hw). discriminate.
  - apply bool_decide_eq_false in Hty. cbn. intros [= <-]. left. eauto.
Qed.

(** X11.  In a browser, [login()] sends no request and touches neither
    the secrets nor the authentication state: it stores a state value in
    the session storage and navigates to the authorization endpoint with
    a URL that ends in that same value as its [state] parameter. *)
Theorem web_login_carries_stored_state E w :
  Platform_OS = js "web" ->
  let r := run E (login project_id) w in
  ∃ state prefix,
    r.1 = Ok tt
    ∧ sessionStorage r.2 = <[js "basic_oauth_state" := state]> (sessionStorage w)
    ∧ navigated r.2 = Some (authorizationEndpoint ++ prefix ++ js "&state=" ++ state)
    ∧ requests r.2 = requests w ∧ authState r.2 = authState w
    ∧ same_stores r.2 w.
Proof.
  intros Hweb. cbv zeta. unfold login. rewrite (is_web_true Hweb).
  unfold AuthWebHandler_createAuthUrl, generateRandomState.
  cbn [run perform perform_op bind mbind prog_bind mret prog_ret].
  eexists _, (js "?response_type=code&client_id=" ++ project_id
              ++ js "&redirect_uri="
              ++ makeRedirectUri VUndefined (js "oauth/callback")
              ++ js "&scope=" ++ join (js ",") config_scopes).
  cbn [fst snd sessionStorage navigated requests authState set_navigated
       upd_sessionStorage].
  split; [reflexivity|]. split; [reflexivity|]. split.
  { f_equal. now rewrite <- !app_assoc. }
  done.
Qed.

(** X12.  The state value keeps all of the random draw: over bytes, it
    has two characters per byte, and two draws give the same state value
    only when they are the same bytes ([padStart(2, '0')] is what makes
    this so). *)
Theorem generateRandomState_is_injective E E' w w' :
  Forall (fun b => (b < 256)%N) (random E 5) ->
  Forall (fun b => (b < 256)%N) (random E' 5) ->
  ∃ state state',
    run E generateRandomState w = (Ok state, w)
    ∧ run E' generateRandomState w' = (Ok state', w')
    ∧ length state = (2 * length (random E 5))%nat
    ∧ (state = state' -> random E 5 = random E' 5).
Proof.
  intros Hb Hb'. eexists _, _. split; [reflexivity|]. split; [reflexivity|].
  split; [now apply hex_state_length|]. now apply hex_state_inj.
Qed.

(** X13.  In a browser at a callback path, with a non-empty [code]
    parameter and a [state] parameter equal to the stored state value
    (both may be absent), the mount effect starts the code exchange and
    then clears the query string, whatever the exchange does: a failure of
    the exchange reaches nobody, and the effect itself never fails. *)
Theorem accepted_callback_exchanges_code E w c code :
  Platform_OS = js "web" ->
  includes (js "oauth/callback") (pathname (window_location w)) = true ->
  urlParams_get (js "code") (window_location w) = Some (c :: code) ->
  urlParams_get (js "state") (window_location w)
    = sessionStorage w !! js "basic_oauth_state" ->
  run E (oauthCallback project_id) w
  = (Ok tt,
     set_location {| pathname := pathname (window_location w); search := [] |}
       (run E (handleLoginCode project_id (VStr (c :: code))) w).2).
Proof.
  intros Hweb Hpath Hcode Hstate. unfold oauthCallback.
  rewrite (is_web_true Hweb). cbn [run perform perform_op bind mbind prog_bind].
  rewrite Hpath, Hcode, Hstate. cbn [truthy_str andb].
  cbn [run perform]. rewrite bool_decide_eq_true_2 by done.
  cbn [from_option]. rewrite run_bind.
  unfold not_awaited. rewrite run_try_catch.
  now destruct (run E (handleLoginCode project_id (VStr (c :: code))) w)
    as [[[]|e] w'].
Qed.

End Provider.

(** The identity provider of the examples signs Ada in. *)
Lemma handleLoginCode_signs_in_witness :
  let H := Examples.ios in
  let r := run Examples.E0
             (handleLoginCode Examples.project (VStr (js "code-1")))
             Examples.w0 in
  r.1 = Ok tt
  ∧ length (requests r.2) = 2%nat
  ∧ accessToken (authState r.2) = Examples.fresh_jwt 0
  ∧ isSignedIn (authState r.2) = true.
Proof.
  cbv zeta.
  assert (@login_exchange Examples.ios Examples.project Examples.E0
            Examples.w0 (VStr (js "code-1")) (Examples.fresh_jwt 0)
            (VStr (js "refresh-0"))
            (VObj [(js "id", VStr (js "user-1"));
                   (js "email", VStr (js "ada@example.org"));
                   (js "username", VStr (js "ada"));
                   (js "name", VStr (js "Ada"))])) as Hex.
  { exists (Examples.token_response 0),
      (VObj [(js "access_token", Examples.fresh_jwt 0);
             (js "refresh_token", VStr (js "refresh-0"));
             (js "token_type", VStr (js "Bearer"));
             (js "expires_in", VNum (Num 3600))]),
      Examples.userinfo_response.
    repeat split; vm_compute; reflexivity. }
  destruct (@handleLoginCode_signs_in Examples.ios Examples.project
              Examples.E0 Examples.w0 _ _ _ _ Hex) as (Hr & Hq & Ha & _).
  split; [exact Hr|]. rewrite Hq, Ha. repeat split; reflexivity.
Defined.

(** The user-info endpoint is down: the exchange fails half way, and the
    authentication state still says signed out. *)
Lemma rejected_login_keeps_authState_witness :
  let H := Examples.web in
  let r := run Examples.E_userinfo_down
             (handleLoginCode Examples.project (VStr (js "code-1")))
             Examples.w0 in
  r.1 = Thrown (Error (js "Failed to fetch user info"))
  ∧ authState r.2 = signedOut.
Proof.
  cbv zeta.
  assert ((run Examples.E_userinfo_down
             (@handleLoginCode Examples.web Examples.project
                (VStr (js "code-1"))) Examples.w0).1
          = Thrown (Error (js "Failed to fetch user info"))) as Hr
    by (vm_compute; reflexivity).
  split; [exact Hr|].
  exact (proj1 (@rejected_login_keeps_authState Examples.web Examples.project
                  Examples.E_userinfo_down Examples.w0 _ _ Hr)).
Defined.

(** A dismissed prompt on a device holding a stale pair. *)
Lemma native_login_outcomes_witness :
  let H := Examples.ios in
  run MoreExamples.E_cancelled (login Examples.project)
    (Examples.w_device Examples.stale_jwt)
  = (Ok tt, Examples.w_device Examples.stale_jwt).
Proof.
  cbv zeta.
  assert (@Platform_OS Examples.ios ≠ js "web") as Hnative
    by (vm_compute; congruence).
  destruct (@native_login_outcomes Examples.ios Examples.project
              MoreExamples.E_cancelled (Examples.w_device Examples.stale_jwt)
              Hnative) as [[Hr _]|[(_ & _ & result & Hp & Hty)|(e & Hr & _)]].
  - exact Hr.
  - exfalso. injection Hp as <-. revert Hty. vm_compute. congruence.
  - exfalso. revert Hr. vm_compute. congruence.
Defined.

(** The draws 1, 16 and 17, 0 would collide without the padding. *)
Lemma generateRandomState_is_injective_witness :
  let draw (bytes : list N) :=
    {| now := 0; server := Examples.idp; prompt := prompt Examples.E0;
       random := fun _ => bytes |} in
  (run (draw [1; 16]%N) generateRandomState Examples.w0).1 = Ok (js "0110")
  ∧ (run (draw [17; 0]%N) generateRandomState Examples.w0).1 = Ok (js "1100").
Proof.
  cbv zeta.
  destruct (generateRandomState_is_injective
              {| now := 0; server := Examples.idp; prompt := prompt Examples.E0;
                 random := fun _ => [1; 16]%N |}
              {| now := 0; server := Examples.idp; prompt := prompt Examples.E0;
                 random := fun _ => [17; 0]%N |}
              Examples.w0 Examples.w0)
    as (state & state' & Hs & Hs' & _).
  - repeat constructor.
  - repeat constructor.
  - rewrite Hs, Hs'. revert Hs Hs'. vm_compute. intros [= <-] [= <-].
    split; reflexivity.
Defined.

Lemma web_login_carries_stored_state_witness :
  let H := Examples.web in
  let r := run Examples.E0 (login Examples.project) Examples.w0 in
  sessionStorage r.2 !! js "basic_oauth_state" = Some (js "0707070707")
  ∧ requests r.2 = [].
Proof.
  cbv zeta.
  destruct (@web_login_carries_stored_state Examples.web Examples.project
              Examples.E0 Examples.w0 eq_refl)
    as (state & prefix & _ & Hs & _ & Hq & _).
  split; [|exact Hq]. vm_compute. reflexivity.
Defined.

(** A callback without a [state] parameter, nothing being stored, is
    accepted: the code is exchanged and the user signed in. *)
Lemma accepted_callback_exchanges_code_witness :
  let H := Examples.web in
  let r := run Examples.E0 (oauthCallback Examples.project)
             MoreExamples.w_stateless_callback in
  r.1 = Ok tt
  ∧ isSignedIn (authState r.2) = true
  ∧ search (window_location r.2) = [].
Proof.
  cbv zeta.
  rewrite (@accepted_callback_exchanges_code Examples.web Examples.project
             Examples.E0 MoreExamples.w_stateless_callback
             99%N (js "ode-1") eq_refl eq_refl eq_refl eq_refl).
  split; [reflexivity|]. split; vm_compute; reflexivity.
Defined.

End LoginExtras.

(* ===================================================================== *)
(** ** Further properties: restoring a session *)
(* ===================================================================== *)

Module RestoreExtras.
Import JS Async Auth Restore Props MoreProps RunFacts TokenFacts MoreFacts.

Section Provider.
Context `{Host}.
Variable project_id : jsstring.

Lemma run_verifyToken E w token :
  run E (verifyToken token) w
  = (Ok (verified E w token), log_request (userinfo_request token) w).
Proof.
  unfold verifyToken, verified. rewrite run_try_catch, run_bind.
  cbn [run perform perform_op]. cbv beta iota. rewrite run_bind, run_lift.
  change {| url := userInfoEndpoint; method := js "GET";
            headers := [(js "Authorization", js "Bearer " ++ toString token)];
            body := None |}
    with (userinfo_request token).
  now destruct (server E (length (requests w)) (userinfo_request token)).
Qed.

Lemma run_loadStoredAuth_stored E w access refresh userInfo :
  stored_pair E w access refresh ->
  stored_user E w userInfo ->
  run E (loadStoredAuth project_id) w
  = let w1 := log_request (userinfo_request access) w in
    (Ok tt,
     if verified E w access then
       set_authState {| accessToken := access; refreshToken := refresh;
                        user := userInfo; isSignedIn := true |} w1
     else (run E (refreshAccessToken project_id refresh) w1).2).
Proof.
  intros (c & s & parsed & Hget & Hparse & Ha & Hr) (c' & s' & Hget' & Hparse').
  unfold loadStoredAuth. rewrite run_try_catch, run_bind, Hget.
  cbv beta iota. rewrite run_bind, Hget'. cbv beta iota.
  rewrite run_bind, run_lift, Hparse. cbv beta iota.
  rewrite run_bind, run_lift, Ha. cbv beta iota.
  rewrite run_bind, run_lift, Hr. cbv beta iota.
  rewrite run_bind, run_lift, Hparse'. cbv beta iota.
  rewrite run_bind, run_verifyToken. cbv beta iota zeta.
  destruct (verified E w access); [reflexivity|].
  rewrite run_bind.
  now destruct (run E (refreshAccessToken project_id refresh) _) as [[v|e] w2].
Qed.

(** X14.  The session restore needs both secrets: when the token pair or
    the profile is missing from the store (or is stored as the empty
    string), [loadStoredAuth()] resolves with nothing changed and no
    request sent, so a stored token pair alone never signs the user in. *)
Theorem restore_needs_both_secrets E w tokens profile :
  run E (storageAdapter_getItem TOKEN_STORAGE_KEY) w = (Ok tokens, w) ->
  run E (storageAdapter_getItem USER_INFO_STORAGE_KEY) w = (Ok profile, w) ->
  truthy_str tokens && truthy_str profile = false ->
  run E (loadStoredAuth project_id) w = (Ok tt, w).
Proof.
  intros Ht Hp Hmiss. unfold loadStoredAuth.
  rewrite run_try_catch, run_bind, Ht. cbv beta iota.
  rewrite run_bind, Hp. cbv beta iota.
  destruct tokens as [[|c s]|], profile as [[|c' s']|]; try reflexivity.
  discriminate.
Qed.

(** X15.  With both secrets stored and the access token accepted by the
    user-info endpoint, [loadStoredAuth()] sends that one request (with
    the stored access token as bearer) and sets the authentication state
    to the stored pair and profile with [isSignedIn] true, whether or not
    the token is about to expire; the stores are not written. *)
Theorem restore_verified_session E w access refresh userInfo :
  stored_pair E w access refresh ->
  stored_user E w userInfo ->
  verified E w access = true ->
  run E (loadStoredAuth project_id) w
  = (Ok tt,
     set_authState {| accessToken := access; refreshToken := refresh;
                      user := userInfo; isSignedIn := true |}
       (log_request (userinfo_request access) w)).
Proof.
  intros Hpair Huser Hv.
  rewrite (run_loadStoredAuth_stored E w _ _ _ Hpair Huser). cbv zeta.
  now rewrite Hv.
Qed.

(** X16.  With both secrets stored and the access token not accepted
    (the endpoint answers with an error status, or the transport fails),
    [loadStoredAuth()] sends the verification request and then the refresh
    request, and resolves with the authentication state unchanged whatever
    the refresh did: a refresh that succeeds replaces the stored pair but
    does not sign the user in, and one that fails does not sign out. *)
Theorem unverified_restore_leaves_authState E w access refresh userInfo :
  stored_pair E w access refresh ->
  stored_user E w userInfo ->
  verified E w access = false ->
  let r := run E (loadStoredAuth project_id) w in
  r.1 = Ok tt
  ∧ authState r.2 = authState w
  ∧ requests r.2
    = requests w ++ [userinfo_request access;
                     refresh_request project_id refresh].
Proof.
  intros Hpair Huser Hv. cbv zeta.
  rewrite (run_loadStoredAuth_stored E w _ _ _ Hpair Huser). cbv zeta.
  rewrite Hv. cbn [fst snd]. split; [done|].
  destruct (run_refreshAccessToken project_id E
              (log_request (userinfo_request access) w) refresh)
    as (_ & Hq & Ha).
  rewrite Ha, Hq. cbn. split; [done|]. now rewrite <- app_assoc.
Qed.

(** X17.  What a login stores is what the session restore reads: after
    [handleLoginCode(code)] has gone through, with a pair and a profile
    that survive [JSON.stringify] / [JSON.parse] and the storage adapter,
    a later [loadStoredAuth()] on any state holding the same secrets, at
    a time when the user-info endpoint accepts the token, sets the same
    authentication state as the login did. *)
Theorem restore_after_login E w code access refresh userInfo E' w' :
  login_exchange project_id E w code access refresh userInfo ->
  storable (JSON_stringify (pair_of access refresh)) ->
  round_trips (pair_of access refresh) ->
  storable (JSON_stringify userInfo) ->
  round_trips userInfo ->
  let logged_in := (run E (handleLoginCode project_id code) w).2 in
  same_stores w' logged_in ->
  verified E' w' access = true ->
  authState (run E' (loadStoredAuth project_id) w').2 = authState logged_in
  ∧ isSignedIn (authState logged_in) = true.
Proof.
  intros Hex Hsp Hrp Hsu Hru. cbv zeta. intros Hsame Hv.
  destruct (run_handleLoginCode_cases project_id E w code)
    as [(a & r & u & Hex' & Hrun)|(e & w1 & _ & _ & _ & _ & Hno)].
  2: { now destruct (Hno _ _ _ Hex). }
  assert (a = access ∧ r = refresh ∧ u = userInfo) as (-> & -> & ->).
  { destruct Hex as (t1 & d1 & u1 & H1 & _ & H2 & H3 & H4 & H5 & _ & H6).
    destruct Hex' as (t2 & d2 & u2 & G1 & _ & G2 & G3 & G4 & G5 & _ & G6).
    assert (t2 = t1) as -> by congruence.
    assert (d2 = d1) as -> by congruence.
    assert (a = access) as -> by congruence.
    assert (u2 = u1) as -> by congruence.
    split; [done|]. split; congruence. }
  rewrite Hrun in Hsame |- *. cbn [snd] in Hsame |- *.
  destruct (after_login_stored project_id E E' w code access refresh userInfo
              Hsp Hsu) as (Htok & Husr).
  destruct (after_login_elsewhere project_id E w code access refresh userInfo)
    as (_ & Hauth & _).
  assert (stored_pair E' w' access refresh) as Hpair.
  { destruct Hsp as [Hne _].
    destruct (JSON_stringify (pair_of access refresh)) as [|c s] eqn:Htext;
      [done|].
    exists c, s, (pair_of access refresh).
    split; [exact (getItem_stored_transfer E' E' _ _ _ _ Hsame Htok)|].
    split; [now rewrite <- Htext|]. split; reflexivity. }
  assert (stored_user E' w' userInfo) as Huser.
  { destruct Hsu as [Hne _].
    destruct (JSON_stringify userInfo) as [|c s] eqn:Htext; [done|].
    exists c, s.
    split; [exact (getItem_stored_transfer E' E' _ _ _ _ Hsame Husr)|].
    now rewrite <- Htext. }
  rewrite (run_loadStoredAuth_stored E' w' _ _ _ Hpair Huser). cbv zeta.
  rewrite Hv, Hauth. done.
Qed.

End Provider.

(** A browser holding only the token pair, as a failed web login leaves
    it. *)
Lemma restore_needs_both_secrets_witness :
  let H := Examples.web in
  run Examples.E0 (loadStoredAuth Examples.project)
    (Examples.w_web Examples.stale_jwt)
  = (Ok tt, Examples.w_web Examples.stale_jwt).
Proof.
  cbv zeta.
  apply (@restore_needs_both_secrets Examples.web Examples.project
           Examples.E0 (Examples.w_web Examples.stale_jwt)
           (Some (Examples.pair_json Examples.stale_jwt (VStr (js "refresh-0"))))
           None); vm_compute; reflexivity.
Defined.

Lemma restart_pair_stored E :
  @stored_pair Examples.ios E (MoreExamples.w_restart Examples.stale_jwt)
    Examples.stale_jwt (VStr (js "refresh-0")).
Proof.
  apply (@stored_pair_intro Examples.ios E _
           (Examples.pair_json Examples.stale_jwt (VStr (js "refresh-0")))
           (VObj [(js "accessToken", Examples.stale_jwt);
                  (js "refreshToken", VStr (js "refresh-0"))])).
  - reflexivity.
  - vm_compute. discriminate.
  - vm_compute. reflexivity.
  - reflexivity.
  - reflexivity.
Qed.

Lemma restart_user_stored E accessToken :
  @stored_user Examples.ios E (MoreExamples.w_restart accessToken)
    MoreExamples.profile.
Proof.
  apply (@stored_user_intro Examples.ios E _
           (RefHost.stringify MoreExamples.profile)).
  - reflexivity.
  - vm_compute. discriminate.
  - vm_compute. reflexivity.
Qed.

(** A device holding a pair and the profile, the token being accepted:
    the user is signed in although the token expired long ago. *)
Lemma restore_verified_session_witness :
  let H := Examples.ios in
  let r := run Examples.E0 (loadStoredAuth Examples.project)
             (MoreExamples.w_restart Examples.stale_jwt) in
  isSignedIn (authState r.2) = true
  ∧ accessToken (authState r.2) = Examples.stale_jwt
  ∧ length (requests r.2) = 1%nat.
Proof.
  cbv zeta.
  rewrite (@restore_verified_session Examples.ios Examples.project
             Examples.E0 (MoreExamples.w_restart Examples.stale_jwt)
             Examples.stale_jwt (VStr (js "refresh-0")) MoreExamples.profile
             (restart_pair_stored _)
             (restart_user_stored _ _) eq_refl).
  repeat split; reflexivity.
Defined.

(** The user-info endpoint is down while the token endpoint works: the
    pair is refreshed, and the user stays signed out. *)
Lemma unverified_restore_leaves_authState_witness :
  let H := Examples.ios in
  let w := MoreExamples.w_restart Examples.stale_jwt in
  let r := run Examples.E_userinfo_down (loadStoredAuth Examples.project) w in
  r.1 = Ok tt
  ∧ authState r.2 = signedOut
  ∧ length (requests r.2) = 2%nat
  ∧ secureStore r.2 !! TOKEN_STORAGE_KEY ≠ secureStore w !! TOKEN_STORAGE_KEY.
Proof.
  cbv zeta.
  destruct (@unverified_restore_leaves_authState Examples.ios Examples.project
              Examples.E_userinfo_down
              (MoreExamples.w_restart Examples.stale_jwt)
              Examples.stale_jwt (VStr (js "refresh-0")) MoreExamples.profile
              (restart_pair_stored _)
              (restart_user_stored _ _) eq_refl) as (Hr & Ha & Hq).
  split; [exact Hr|]. split; [exact Ha|]. split; [now rewrite Hq|].
  vm_compute. congruence.
Defined.

(** A device restarted after the login of the examples. *)
Lemma restore_after_login_witness :
  let H := Examples.ios in
  let logged_in := (run Examples.E0
                      (handleLoginCode Examples.project (VStr (js "code-1")))
                      Examples.w0).2 in
  let restarted := set_authState signedOut logged_in in
  authState (run Examples.E0 (loadStoredAuth Examples.project) restarted).2
  = authState logged_in
  ∧ isSignedIn (authState logged_in) = true.
Proof.
  cbv zeta.
  assert (@login_exchange Examples.ios Examples.project Examples.E0
            Examples.w0 (VStr (js "code-1")) (Examples.fresh_jwt 0)
            (VStr (js "refresh-0"))
            (VObj [(js "id", VStr (js "user-1"));
                   (js "email", VStr (js "ada@example.org"));
                   (js "username", VStr (js "ada"));
                   (js "name", VStr (js "Ada"))])) as Hex.
  { exists (Examples.token_response 0),
      (VObj [(js "access_token", Examples.fresh_jwt 0);
             (js "refresh_token", VStr (js "refresh-0"));
             (js "token_type", VStr (js "Bearer"));
             (js "expires_in", VNum (Num 3600))]),
      Examples.userinfo_response.
    repeat split; vm_compute; reflexivity. }
  apply (@restore_after_login Examples.ios Examples.project Examples.E0
           Examples.w0 _ _ _ _ Examples.E0 _ Hex).
  - split; [vm_compute; discriminate|]. vm_compute. discriminate.
  - vm_compute. reflexivity.
  - split; [vm_compute; discriminate|]. vm_compute. discriminate.
  - vm_compute. reflexivity.
  - split; reflexivity.
  - vm_compute. reflexivity.
Defined.

End RestoreExtras.

(* ===================================================================== *)
(** ** Further properties: the table client *)
(* ===================================================================== *)

Module DbExtras.
Import JS Async Schema Db DbProps Props MoreProps RunFacts TokenFacts MoreFacts.

(** The request log only grows. *)
Lemma requests_grow E {A} (p : prog A) w :
  ∃ sent, requests (run E p w).2 = requests w ++ sent.
Proof.
  revert w. induction p as [a|e|X o k IH]; intros w;
    try (exists []; cbn; now rewrite app_nil_r).
  cbn [run].
  assert (∃ sent, requests (perform E o w).2 = requests w ++ sent) as [s Hs].
  { destruct o; cbn; try (exists []; now rewrite app_nil_r). now eexists. }
  destruct (perform E o w) as [x w1]. cbn [snd] in Hs.
  destruct (IH x w1) as [s' Hs']. exists (s ++ s').
  now rewrite Hs', Hs, app_assoc.
Qed.

Section Client.
Context `{Host}.
Variable engine_message : exn -> jsstring.

Lemma run_headers E w c :
  run E (TableClient_headers c) w
  = match run E (getToken c) w with
    | (Ok token, w') =>
        (Ok [bearer token; (js "Content-Type", js "application/json")], w')
    | (Thrown e, w') => (Thrown e, w')
    end.
Proof.
  unfold TableClient_headers. rewrite run_bind.
  now destruct (run E (getToken c) w) as [[token|e] w'].
Qed.

(** A method asks for the token, sends its request, and hands the
    pending response to [handleRequest]. *)
Lemma run_invoke E w c o :
  run E (invoke engine_message c o) w
  = match run E (getToken c) w with
    | (Ok token, w1) =>
        run E (TableClient_handleRequest engine_message c
                 (server E (length (requests w1)) (request_of c o token)))
          (log_request (request_of c o token) w1)
    | (Thrown e, w1) => (Thrown e, w1)
    end.
Proof.
  destruct o; cbn [invoke];
    unfold TableClient_getAll, TableClient_add, TableClient_update,
      TableClient_replace, TableClient_delete, TableClient_get;
    rewrite run_bind, ?run_headers;
    destruct (run E (getToken c) w) as [[token|e] w1]; try reflexivity.
Qed.

(** [handleRequest] asks for the token once more, then settles with the
    data or a [DBError]; it never throws anything else. *)
Lemma run_handleRequest E w c request :
  run E (TableClient_handleRequest engine_message c request) w
  = (Ok match (run E (getToken c) w).1, request with
        | Thrown e, _ | Ok _, Thrown e => Rejected (normalise engine_message e)
        | Ok _, Ok res =>
            if ok res then
              match JSON_parse (text res) with
              | Thrown e => Rejected (normalise engine_message e)
              | Ok json =>
                  match get json (js "data") with
                  | Thrown e => Rejected (normalise engine_message e)
                  | Ok data => Data data
                  end
              end
            else
              Rejected {| message := (error_report res).1;
                          status := Some (Async.status res);
                          response := (error_report res).2;
                          originalError := None |}
        end, (run E (getToken c) w).2).
Proof.
  unfold TableClient_handleRequest.
  rewrite run_try_catch, run_bind, run_headers.
  destruct (run E (getToken c) w) as [[token|e] w1]; cbn [fst snd];
    [|reflexivity].
  rewrite run_bind, run_lift. destruct request as [res|e]; cbv beta iota;
    [|reflexivity].
  destruct (ok res); cbn [negb].
  - rewrite run_bind, run_lift.
    destruct (JSON_parse (text res)) as [json|e]; cbv beta iota; [|reflexivity].
    rewrite run_bind, run_lift.
    now destruct (get json (js "data")) as [data|e].
  - now destruct (error_report res) as [errorMessage errorData].
Qed.

(** X18.  A table operation rejects with something other than a
    [DBError] exactly when the token supplier rejects at its first call,
    before the request is built; it then rejects with the supplier's
    error and does nothing else (in particular it sends no request of its
    own).  Once the token is there, the operation always settles with
    data or a [DBError]. *)
Theorem table_operation_throws_iff_no_token E w c o e :
  ((run E (invoke engine_message c o) w).1 = Thrown e
   <-> (run E (getToken c) w).1 = Thrown e)
  ∧ ((run E (getToken c) w).1 = Thrown e ->
     (run E (invoke engine_message c o) w).2 = (run E (getToken c) w).2).
Proof.
  rewrite run_invoke.
  destruct (run E (getToken c) w) as [[token|e'] w1]; cbn [fst snd].
  - rewrite run_handleRequest. cbn [fst]. split; [|discriminate].
    split; discriminate.
  - split; [split; intros [= ->]; reflexivity|reflexivity].
Qed.

(** X19.  When the server answers a table operation with an error
    status, the operation settles with a [DBError] that carries that
    status and no original error; its [response] is the parsed body, or
    [undefined] when the body is not JSON, in which case the message is
    the status line; a non-empty [message] string of a JSON body is
    appended to the status line. *)
Theorem error_status_becomes_DBError E w c o token w1 token' w3 res :
  let req := request_of c o token in
  run E (getToken c) w = (Ok token, w1) ->
  run E (getToken c) (log_request req w1) = (Ok token', w3) ->
  server E (length (requests w1)) req = Ok res ->
  ok res = false ->
  ∃ err,
    run E (invoke engine_message c o) w = (Ok (Rejected err), w3)
    ∧ status err = Some (Async.status res)
    ∧ originalError err = None
    ∧ (∀ e, JSON_parse (text res) = Thrown e ->
            response err = VUndefined ∧ message err = status_line res)
    ∧ (∀ json, JSON_parse (text res) = Ok json -> response err = json)
    ∧ (∀ json ch m, JSON_parse (text res) = Ok json ->
         get json (js "message") = Ok (VStr (ch :: m)) ->
         message err = status_line res ++ js ": " ++ ch :: m).
Proof.
  cbv zeta. intros Htok Htok' Hsrv Hok.
  rewrite run_invoke, Htok, run_handleRequest, Htok', Hsrv. cbn [fst snd].
  rewrite Hok. eexists. split; [reflexivity|]. cbn [status originalError
    response message]. split; [done|]. split; [done|].
  unfold error_report. split; [|split].
  - now intros e ->.
  - intros json ->.
    destruct (get json (js "error")), (get json (js "message")); try done.
    now destruct (_ || _).
  - intros json ch m -> Hm. rewrite Hm.
    assert (∃ error, get json (js "error") = Ok error) as [error ->]
      by (destruct json; try discriminate; cbn; eauto).
    rewrite orb_true_r. cbn [fst details typeof value_or truthy toString].
    reflexivity.
Qed.

(** X20.  When the transport fails, the operation settles with a
    [DBError] without status or response that keeps the failure as its
    original error; the message is the fixed connectivity text for a
    [TypeError] saying "Network request failed", and "Unexpected error: "
    followed by the failure's message otherwise. *)
Theorem transport_failure_becomes_DBError E w c o token w1 token' w3 e :
  let req := request_of c o token in
  run E (getToken c) w = (Ok token, w1) ->
  run E (getToken c) (log_request req w1) = (Ok token', w3) ->
  server E (length (requests w1)) req = Thrown e ->
  ∃ err,
    run E (invoke engine_message c o) w = (Ok (Rejected err), w3)
    ∧ status err = None ∧ response err = VUndefined
    ∧ originalError err = Some e
    ∧ (e = TypeError (js "Network request failed") ->
       message err
       = js "Network request failed. Please check your internet connection and try again.")
    ∧ (e ≠ TypeError (js "Network request failed") ->
       message err = js "Unexpected error: " ++ error_message engine_message e).
Proof.
  cbv zeta. intros Htok Htok' Hsrv.
  rewrite run_invoke, Htok, run_handleRequest, Htok', Hsrv. cbn [fst snd].
  eexists. split; [reflexivity|]. unfold normalise, is_network_failure.
  destruct e as [m|m| | |]; try (repeat split; congruence).
  destruct (bool_decide (m = js "Network request failed")) eqn:Hm.
  - apply bool_decide_eq_true in Hm as ->. repeat split; congruence.
  - apply bool_decide_eq_false in Hm. repeat split; congruence.
Qed.

(** X21.  When the server answers with a success status and a JSON body
    other than [null], the operation resolves with the [data] property of
    that body ([undefined] when the body has none); a body that is not
    JSON or is [null] gives a [DBError] without status instead. *)
Theorem ok_response_yields_data E w c o token w1 token' w3 res :
  let req := request_of c o token in
  run E (getToken c) w = (Ok token, w1) ->
  run E (getToken c) (log_request req w1) = (Ok token', w3) ->
  server E (length (requests w1)) req = Ok res ->
  ok res = true ->
  (∀ json data, JSON_parse (text res) = Ok json ->
     get json (js "data") = Ok data ->
     run E (invoke engine_message c o) w = (Ok (Data data), w3))
  ∧ (∀ e, JSON_parse (text res) = Thrown e
          ∨ (JSON_parse (text res) = Ok VNull
             ∧ get VNull (js "data") = Thrown e) ->
     run E (invoke engine_message c o) w
     = (Ok (Rejected (normalise engine_message e)), w3)
     ∧ status (normalise engine_message e) = None).
Proof.
  cbv zeta. intros Htok Htok' Hsrv Hok.
  rewrite run_invoke, Htok, run_handleRequest, Htok', Hsrv. cbn [fst snd].
  rewrite Hok. split.
  - now intros json data -> ->.
  - intros e [-> | [-> He]].
    + split; [done|]. unfold normalise. now destruct (is_network_failure e).
    + rewrite He. split; [done|]. unfold normalise.
      now destruct (is_network_failure e).
Qed.

(** X22.  [handleRequest] asks the supplier for the token a second time
    after the request has been sent.  When that second call rejects, the
    operation settles with a [DBError] built from the supplier's error,
    whatever the server answered: the request is in the log, and its
    answer is lost. *)
Theorem late_token_failure_hides_response E w c o token w1 e w3 :
  let req := request_of c o token in
  run E (getToken c) w = (Ok token, w1) ->
  run E (getToken c) (log_request req w1) = (Thrown e, w3) ->
  run E (invoke engine_message c o) w
  = (Ok (Rejected (normalise engine_message e)), w3)
  ∧ status (normalise engine_message e) = None
  ∧ ∃ sent, requests w3 = requests w1 ++ req :: sent.
Proof.
  cbv zeta. intros Htok Htok'.
  rewrite run_invoke, Htok, run_handleRequest, Htok'. cbn [fst snd].
  split; [reflexivity|].
  split; [unfold normalise; now destruct (is_network_failure e)|].
  destruct (requests_grow E (getToken c)
              (log_request (request_of c o token) w1)) as [sent Hsent].
  rewrite Htok' in Hsent. cbn in Hsent. exists sent.
  now rewrite Hsent, <- app_assoc.
Qed.

(** X23.  For a schema that [createSchema] accepts, [new BasicDBSDK]
    fails only for want of a token source (no [getToken] and no non-empty
    [token]); otherwise it yields an SDK whose table names are the keys of
    [schema.tables], of which there is at least one; [from(table)]
    succeeds exactly for those names, with a client for that table and
    project, and [fields(table)] then lists at least one field. *)
Theorem validated_schema_builds_sdk config :
  createSchema (config_schema config) = Ok (config_schema config) ->
  (config_getToken config = None
   ∧ truthy_str (config_token config) = false
   ∧ new_BasicDBSDK config
     = Thrown (Error (js "Either token or getToken must be provided")))
  ∨ ∃ sdk tables,
      new_BasicDBSDK config = Ok sdk
      ∧ get (config_schema config) (js "tables") = Ok tables
      ∧ tableNames sdk = keys tables
      ∧ tableNames sdk ≠ []
      ∧ ∀ table,
          (table ∈ tableNames sdk ->
           ∃ c fields,
             BasicDBSDK_from sdk table = Ok c
             ∧ Db.table c = table
             ∧ projectId c = config_project_id config
             ∧ BasicDBSDK_fields sdk table = Ok fields
             ∧ fields ≠ [])
          ∧ (table ∉ tableNames sdk ->
             ∃ e, BasicDBSDK_from sdk table = Thrown e).
Proof.
  intros Hvalid%SchemaClaims.createSchema_Ok.
  destruct Hvalid as (_ & _ & tables & Htables & Hobj & Hkeys & Hall).
  unfold new_BasicDBSDK.
  destruct (token_supplier config) as [supplier|e] eqn:Hsup.
  2: { left. unfold token_supplier in Hsup.
       destruct (config_getToken config); [discriminate|].
       destruct (config_token config) as [[|ch t]|];
         try discriminate; injection Hsup as <-; done. }
  right. cbn. rewrite Htables. cbn.
  assert (Object_keys tables = Ok (keys tables)) as ->
    by (destruct tables; try discriminate; reflexivity).
  cbn. eexists _, tables. split; [reflexivity|]. split; [reflexivity|].
  cbn [tableNames]. split; [reflexivity|]. split; [exact Hkeys|].
  intros table. split.
  - intros Hin.
    destruct (Hall table Hin)
      as (entry & Hentry & _ & fields & Hfields & Hfobj & Hfkeys & _).
    unfold BasicDBSDK_from, BasicDBSDK_fields. cbn [tableNames sdk_schema].
    rewrite bool_decide_eq_true_2 by done. cbn [negb].
    eexists _, (keys fields). split; [reflexivity|].
    cbn [Db.table projectId sdk_projectId].
    split; [reflexivity|]. split; [reflexivity|].
    rewrite Htables. cbn. rewrite Hentry. cbn. rewrite Hfields. cbn.
    split; [|exact Hfkeys].
    destruct fields; try discriminate; reflexivity.
  - intros Hout. unfold BasicDBSDK_from. cbn [tableNames].
    rewrite bool_decide_eq_false_2 by done. cbn [negb]. eauto.
Qed.

(** The client the provider's [db] hands out. *)
Lemma provider_client client_id schema sdk table c :
  provider_db client_id schema = Ok sdk ->
  BasicDBSDK_from sdk table = Ok c ->
  getToken c = Auth.getToken client_id
  ∧ ∃ schema_project_id,
      get schema (js "project_id") = Ok schema_project_id
      ∧ table_url c = js "https://api.basic.tech/account/"
                      ++ toString schema_project_id ++ js "/db/" ++ table.
Proof.
  unfold provider_db, new_BasicDBSDK.
  destruct (get schema (js "project_id")) as [pid|e]; [|discriminate]. cbn.
  destruct (get schema (js "tables")) as [tables|e]; [|discriminate]. cbn.
  destruct (Object_keys tables) as [names|e]; [|discriminate]. cbn.
  intros [= <-]. unfold BasicDBSDK_from. cbn.
  destruct (bool_decide _); [|discriminate]. cbn. intros [= <-].
  split; [reflexivity|]. exists pid. split; [reflexivity|].
  unfold table_url. cbn. now rewrite <- ?app_assoc.
Qed.

(** X24.  With no token pair in the store (nobody signed in, or after
    [signout()]), every operation on a table of the provider's [db]
    rejects with "No tokens found - user not signed in", sends no request
    and changes nothing. *)
Theorem signed_out_db_sends_nothing E w client_id schema sdk table c o tokens :
  provider_db client_id schema = Ok sdk ->
  BasicDBSDK_from sdk table = Ok c ->
  run E (Auth.storageAdapter_getItem Auth.TOKEN_STORAGE_KEY) w = (Ok tokens, w) ->
  truthy_str tokens = false ->
  run E (invoke engine_message c o) w
  = (Thrown (Error (js "No tokens found - user not signed in")), w).
Proof.
  intros Hsdk Hfrom Hget Hnone.
  destruct (provider_client _ _ _ _ _ Hsdk Hfrom) as [Hsup _].
  rewrite run_invoke, Hsup. unfold Auth.getToken, Auth.fetchToken.
  rewrite run_bind, run_rethrow, run_bind, Hget.
  now destruct tokens as [[|ch t]|].
Qed.

(** X25.  With a stored access token that does not count as expired,
    every operation on a table of the provider's [db] sends exactly one
    request: to [https://api.basic.tech/account/<project>/db/<table>]
    (followed by the record id or query, if any), where [<project>] is
    the schema's [project_id], with the stored token as bearer.  The
    token endpoint is not contacted, the stores and the authentication
    state stay as they are, and the operation settles with data or a
    [DBError]. *)
Theorem signed_in_db_uses_stored_token E w client_id schema schema_project_id
    sdk table c o access refresh :
  provider_db client_id schema = Ok sdk ->
  BasicDBSDK_from sdk table = Ok c ->
  get schema (js "project_id") = Ok (VStr schema_project_id) ->
  stored_pair E w access refresh ->
  run E (Auth.isTokenExpired access) w = (Ok false, w) ->
  truthy access = true ->
  let req := request_of c o access in
  (∃ reply, run E (invoke engine_message c o) w = (Ok reply, log_request req w))
  ∧ bearer access ∈ headers req
  ∧ ∃ rest, url req = js "https://api.basic.tech/account/" ++ schema_project_id
                      ++ js "/db/" ++ table ++ rest.
Proof.
  intros Hsdk Hfrom Hpid Hpair Hfresh Htruthy. cbv zeta.
  destruct (provider_client _ _ _ _ _ Hsdk Hfrom)
    as [Hsup (pid & Hpid' & Hurl)].
  rewrite Hpid in Hpid'. injection Hpid' as <-. cbn [toString] in Hurl.
  assert (∀ w', same_stores w' w ->
            run E (Auth.getToken client_id) w' = (Ok access, w')) as Hget.
  { intros w' Hsame. unfold Auth.getToken. rewrite run_bind.
    assert (stored_pair E w' access refresh) as Hpair'.
    { destruct Hpair as (ch & s & parsed & Hg & Hrest).
      exists ch, s, parsed. split; [|exact Hrest].
      exact (getItem_stored_transfer E E _ _ _ _ Hsame Hg). }
    rewrite (run_fetchToken_stored _ _ _ _ _ Hpair').
    assert (run E (Auth.isTokenExpired access) w' = (Ok false, w')) as ->.
    { destruct (ConcurrentClaims.isTokenExpired_shape access) as [Heq|[f Heq]];
        rewrite Heq in Hfresh |- *; cbn in Hfresh |- *; congruence. }
    now rewrite Htruthy. }
  split; [|split].
  - rewrite run_invoke, Hsup, (Hget w (same_stores_refl w)).
    rewrite run_handleRequest, Hsup.
    rewrite (Hget _ (same_stores_log _ w)). cbn [fst snd]. eauto.
  - destruct o; cbn; set_solver.
  - destruct o; cbn [request_of url]; rewrite Hurl;
      first [ exists []; now rewrite !app_nil_r
            | eexists; rewrite <- !app_assoc; reflexivity ].
Qed.

End Client.

(** A record that does not exist. *)
Lemma error_status_becomes_DBError_witness :
  let H := Examples.web in
  ∃ err,
    run (MoreExamples.E_db (Ok MoreExamples.not_found))
      (invoke MoreExamples.engine_text MoreExamples.notes (Get (js "n7")))
      Examples.w0
    = (Ok (Rejected err),
       log_request (request_of MoreExamples.notes (Get (js "n7"))
                      (VStr (js "token-1"))) Examples.w0)
    ∧ status err = Some 404%Z
    ∧ message err = js "404 Not Found: no such record".
Proof.
  cbv zeta.
  destruct (@error_status_becomes_DBError Examples.web
              MoreExamples.engine_text
              (MoreExamples.E_db (Ok MoreExamples.not_found)) Examples.w0
              MoreExamples.notes (Get (js "n7")) (VStr (js "token-1"))
              Examples.w0 (VStr (js "token-1")) _ MoreExamples.not_found
              eq_refl eq_refl eq_refl eq_refl)
    as (err & Hrun & Hstatus & _ & _ & _ & Hmessage).
  exists err. split; [exact Hrun|]. split; [exact Hstatus|].
  rewrite (Hmessage (VObj [(js "message", VStr (js "no such record"))])
             110%N (js "o such record")); vm_compute; reflexivity.
Defined.

(** The device is offline. *)
Lemma transport_failure_becomes_DBError_witness :
  let H := Examples.ios in
  ∃ err,
    (run Examples.E0
       (invoke MoreExamples.engine_text MoreExamples.notes
          (Add (VObj [(js "title", VStr (js "hello"))])))
       Examples.w0).1
    = Ok (Rejected err)
    ∧ originalError err = Some (TypeError (js "Network request failed"))
    ∧ message err
      = js "Network request failed. Please check your internet connection and try again.".
Proof.
  cbv zeta.
  destruct (@transport_failure_becomes_DBError Examples.ios
              MoreExamples.engine_text Examples.E0 Examples.w0
              MoreExamples.notes
              (Add (VObj [(js "title", VStr (js "hello"))]))
              (VStr (js "token-1")) Examples.w0 (VStr (js "token-1")) _
              (TypeError (js "Network request failed"))
              eq_refl eq_refl eq_refl)
    as (err & Hrun & _ & _ & Horiginal & Hmessage & _).
  exists err. rewrite Hrun. split; [reflexivity|]. split; [exact Horiginal|].
  now apply Hmessage.
Defined.

(** The table holds one note. *)
Lemma ok_response_yields_data_witness :
  let H := Examples.web in
  (run (MoreExamples.E_db (Ok MoreExamples.found))
     (invoke MoreExamples.engine_text MoreExamples.notes (GetAll None))
     Examples.w0).1
  = Ok (Data MoreExamples.one_note).
Proof.
  cbv zeta.
  destruct (@ok_response_yields_data Examples.web MoreExamples.engine_text
              (MoreExamples.E_db (Ok MoreExamples.found)) Examples.w0
              MoreExamples.notes (GetAll None) (VStr (js "token-1"))
              Examples.w0 (VStr (js "token-1")) _ MoreExamples.found
              eq_refl eq_refl eq_refl eq_refl) as [Hdata _].
  rewrite (Hdata (VObj [(js "data", MoreExamples.one_note)])
             MoreExamples.one_note); [reflexivity| |reflexivity].
  vm_compute. reflexivity.
Defined.

(** The note was found, and the caller is told "no token". *)
Lemma late_token_failure_hides_response_witness :
  let H := Examples.web in
  let E := MoreExamples.E_token_service_fails in
  let r := run E (invoke MoreExamples.engine_text MoreExamples.remote_notes
                    (GetAll None)) Examples.w0 in
  server E 1 (request_of MoreExamples.remote_notes (GetAll None)
                (VStr (js "token-1"))) = Ok MoreExamples.found
  ∧ r.1 = Ok (Rejected
               {| message := js "Unexpected error: no token"; status := None;
                  response := VUndefined;
                  originalError := Some (Error (js "no token")) |})
  ∧ length (requests r.2) = 3%nat.
Proof.
  cbv zeta. split; [reflexivity|].
  destruct (@late_token_failure_hides_response Examples.web
              MoreExamples.engine_text MoreExamples.E_token_service_fails
              Examples.w0 MoreExamples.remote_notes (GetAll None)
              (VStr (js "token-1")) _ (Error (js "no token")) _
              eq_refl eq_refl) as (Hrun & _ & _).
  rewrite Hrun. split; reflexivity.
Defined.

(** The notes schema with a static token. *)
Lemma validated_schema_builds_sdk_witness :
  ∃ sdk c,
    new_BasicDBSDK MoreExamples.static_config = Ok sdk
    ∧ tableNames sdk = [js "notes"]
    ∧ BasicDBSDK_from sdk (js "notes") = Ok c
    ∧ BasicDBSDK_fields sdk (js "notes")
      = Ok [js "title"; js "content"; js "createdAt"; js "completed"].
Proof.
  destruct (validated_schema_builds_sdk MoreExamples.static_config
              ltac:(vm_compute; reflexivity))
    as [(_ & Hno & _)|(sdk & tables & Hsdk & Htables & Hnames & _ & Hall)].
  { discriminate. }
  injection Htables as <-.
  assert (js "notes" ∈ tableNames sdk) as Hin
    by (rewrite Hnames; constructor).
  pose proof (proj1 (Hall (js "notes")) Hin)
    as (c & fields & Hfrom & _ & _ & Hfields & _).
  exists sdk, c. split; [exact Hsdk|]. split; [exact Hnames|].
  split; [exact Hfrom|]. rewrite Hfields.
  injection Hsdk as <-. revert Hfields. vm_compute. congruence.
Defined.

(** Nobody is signed in. *)
Lemma signed_out_db_sends_nothing_witness :
  let H := Examples.web in
  provider_db Examples.project Schema.notes_schema = Ok MoreExamples.web_sdk
  ∧ BasicDBSDK_from MoreExamples.web_sdk (js "notes") = Ok MoreExamples.web_notes
  ∧ run Examples.E0
      (invoke MoreExamples.engine_text MoreExamples.web_notes (Delete (js "n1")))
      Examples.w0
    = (Thrown (Error (js "No tokens found - user not signed in")), Examples.w0).
Proof.
  cbv zeta.
  assert (@provider_db Examples.web Examples.project Schema.notes_schema
          = Ok MoreExamples.web_sdk) as Hsdk by reflexivity.
  assert (BasicDBSDK_from MoreExamples.web_sdk (js "notes")
          = Ok MoreExamples.web_notes) as Hfrom by reflexivity.
  split; [exact Hsdk|]. split; [exact Hfrom|].
  exact (@signed_out_db_sends_nothing Examples.web MoreExamples.engine_text
           Examples.E0 Examples.w0 _ _ _ _ _ (Delete (js "n1")) None
           Hsdk Hfrom eq_refl eq_refl).
Defined.

(** A browser holding a token that is good for years. *)
Lemma signed_in_db_uses_stored_token_witness :
  let H := Examples.web in
  let w := Examples.w_web (Examples.fresh_jwt 7) in
  ∃ reply,
    run Examples.E0
      (invoke MoreExamples.engine_text MoreExamples.web_notes (Get (js "n1"))) w
    = (Ok reply,
       log_request (request_of MoreExamples.web_notes (Get (js "n1"))
                      (Examples.fresh_jwt 7)) w).
Proof.
  cbv zeta.
  refine (proj1 (@signed_in_db_uses_stored_token Examples.web
                   MoreExamples.engine_text Examples.E0
                   (Examples.w_web (Examples.fresh_jwt 7))
                   Examples.project Schema.notes_schema (js "YOUR_PROJECT_ID")
                   MoreExamples.web_sdk (js "notes") MoreExamples.web_notes
                   (Get (js "n1")) (Examples.fresh_jwt 7)
                   (VStr (js "refresh-0")) eq_refl eq_refl eq_refl
                   TokenClaims.fresh_pair_stored _ eq_refl)).
  vm_compute. reflexivity.
Defined.

(** The token service is down from the start: the caller sees its error,
    and no request went to the database. *)
Lemma table_operation_throws_iff_no_token_witness :
  let H := Examples.web in
  let E := MoreExamples.E_db (Ok Examples.server_error) in
  let r := run E (invoke MoreExamples.engine_text MoreExamples.remote_notes
                    (Get (js "n1"))) Examples.w0 in
  r.1 = Thrown (Error (js "no token")) ∧ length (requests r.2) = 1%nat.
Proof.
  cbv zeta.
  destruct (@table_operation_throws_iff_no_token Examples.web
              MoreExamples.engine_text
              (MoreExamples.E_db (Ok Examples.server_error)) Examples.w0
              MoreExamples.remote_notes (Get (js "n1"))
              (Error (js "no token"))) as [Hiff Hworld].
  split; [now apply Hiff|]. now rewrite Hworld.
Defined.

End DbExtras.
